(** * Enumeration-based SMILES augmentation: batching, codec, pairing

    A shallow embedding of [src/2_domain_adaptation/data/enumeration.py]:
    the cyclic batch-index generator [Iterator], the batch materializer
    [SmilesIterator], the one-hot codec [SmilesEnumerator] with [fit],
    [transform] and [reverse_transform], and the two pairing routines
    [enumerate_smiles] and [enumerate_smiles_hard_neg].

    Python integers are [Z] and floats the rationals they stand for;
    Python strings are [string]; a numpy array of rank one is a [list];
    the one-hot tensor is its shape with a list of rows, each a list of
    positions, each a list of [Z] cells; Python dictionaries are [gmap]s
    and sets [gset]s. An exception that leaves a function is the [Raise]
    case of [outcome]; a loop that may run for ever takes fuel. The
    process-wide numpy random generator is passed explicitly. *)

From Stdlib Require Import ZArith QArith Qround Lia Ascii String.
From stdpp Require Import gmap strings list.

Local Open Scope Z_scope.

(** ** Exceptions and the error monad *)

Inductive exception : Type :=
  | ValueError
  | KeyError
  | IndexError
  | ZeroDivisionError
  | AssertionError
  | AttributeError.

Inductive outcome (A : Type) : Type :=
  | Ok (a : A)
  | Raise (e : exception).
Arguments Ok {A} a.
Arguments Raise {A} e.

Definition obind {A B : Type} (m : outcome A) (k : A → outcome B) : outcome B :=
  match m with
  | Ok a => k a
  | Raise e => Raise e
  end.

Notation "x ←! m ; k" := (obind m (λ x, k))
  (at level 20, m at level 100, k at level 200, right associativity,
   format "x  ←!  m ;  '/' k").
Notation "' p ←! m ; k" := (obind m (λ p, k))
  (at level 20, p pattern, m at level 100, k at level 200,
   right associativity, format "' p  ←!  m ;  '/' k").

(** ** The numpy random generator

    [np.random] is library code outside the repository; the program only
    needs the operations below.  [np_seed s] is [None] when numpy rejects
    the seed value [s] (it then raises [ValueError]). [np_choice len g] is
    the position that [np.random.choice] draws in a sequence of [len]
    items. *)

Class NumpyRandom : Type := {
  RandomState : Type;
  np_seed : Z → option RandomState;
  np_permutation : Z → RandomState → list Z * RandomState;
  np_uniform : RandomState → Q * RandomState;
  np_choice : nat → RandomState → nat * RandomState;
  np_uniform_range : ∀ g, (0 <= (np_uniform g).1)%Q ∧ ((np_uniform g).1 < 1)%Q;
  np_choice_lt : ∀ len g, (0 < len)%nat → ((np_choice len g).1 < len)%nat;
}.

(** ** Python sequence helpers *)

(** [np.arange(n)] *)
Definition np_arange (len : Z) : list Z := seqZ 0 len.

(** One bound of a slice [a[lo:hi]] on a sequence of length [len]:
    a negative bound counts from the end, and both are clipped. *)
Definition slice_bound (len i : Z) : Z :=
  if i <? 0 then Z.max (i + len) 0 else Z.min i len.

(** [a[lo:hi]] *)
Definition py_slice {A : Type} (a : list A) (lo hi : Z) : list A :=
  let len := Z.of_nat (length a) in
  let lo' := slice_bound len lo in
  let hi' := slice_bound len hi in
  take (Z.to_nat (hi' - lo')) (drop (Z.to_nat lo') a).

(** ** class Iterator *)

(** The object's attributes, the arguments captured by the generator
    [_flow_index], and the generator's own local state: whether its body
    has started, and the local [index_array]. *)
Record Iterator : Type := {
  n : Z;
  batch_size : Z;
  shuffle : bool;
  seed : option Z;
  batch_index : Z;
  total_batches_seen : Z;
  started : bool;
  index_array : list Z;
}.

(** What one pull yields: [(index_array[lo:hi], current_index,
    current_batch_size)]. *)
Definition Window : Type := list Z * Z * Z.

Definition indices (w : Window) : list Z := w.1.1.
Definition current_index (w : Window) : Z := w.1.2.
Definition current_batch_size (w : Window) : Z := w.2.

Definition Iterator_init (N B : Z) (sh : bool) (sd : option Z) : outcome Iterator :=
  let self := {| n := N; batch_size := B; shuffle := sh; seed := sd;
                 batch_index := 0; total_batches_seen := 0;
                 started := false; index_array := [] |} in
  if N <? B then Raise ValueError else Ok self.

Definition reset (self : Iterator) : Iterator :=
  {| n := n self; batch_size := batch_size self; shuffle := shuffle self;
     seed := seed self;
     batch_index := 0;
     total_batches_seen := total_batches_seen self;
     started := started self; index_array := index_array self |}.

Section Flow.
Context `{NumpyRandom}.

(** [np.random.seed(seed + self.total_batches_seen)] when a seed is given *)
Definition reseed (self : Iterator) (g : RandomState) : outcome RandomState :=
  match seed self with
  | None => Ok g
  | Some s =>
      match np_seed (s + total_batches_seen self) with
      | Some g' => Ok g'
      | None => Raise ValueError
      end
  end.

(** One [next(self.index_generator)]: one turn of the [while 1] loop of
    [_flow_index], up to and including its [yield]. The first turn is
    preceded by the [self.reset()] that opens the generator body. *)
Definition flow_index_next (self0 : Iterator) (g0 : RandomState)
  : outcome (Window * Iterator * RandomState) :=
  let self := if started self0 then self0 else reset self0 in
  g1 ←! reseed self g0;
  let '(arr, g2) :=
    if batch_index self =? 0 then
      if shuffle self then np_permutation (n self) g1
      else (np_arange (n self), g1)
    else (index_array self, g1) in
  if n self =? 0 then Raise ZeroDivisionError else
  let cur := (batch_index self * batch_size self) `mod` n self in
  let '(cbs, bi) :=
    if n self >? cur + batch_size self
    then (batch_size self, batch_index self + 1)
    else (n self - cur, 0) in
  Ok ((py_slice arr cur (cur + cbs), cur, cbs),
      {| n := n self; batch_size := batch_size self;
         shuffle := shuffle self; seed := seed self;
         batch_index := bi;
         total_batches_seen := total_batches_seen self + 1;
         started := true; index_array := arr |},
      g2).

(** Consecutive pulls. [gs] lists, pull by pull, the state the process-wide
    generator is in when that pull begins: other code may have drawn from
    it, or reseeded it, in between. *)
Fixpoint pulls (self : Iterator) (gs : list RandomState)
  : outcome (list Window * Iterator) :=
  match gs with
  | [] => Ok ([], self)
  | g :: gs' =>
      '(w, self', _) ←! flow_index_next self g;
      '(ws, self'') ←! pulls self' gs';
      Ok (w :: ws, self'')
  end.

End Flow.

(** [len(s)] of a string *)
Definition len (s : string) : Z := Z.of_nat (String.length s).

(** The characters of a Python string, in order. *)
Definition chars (s : string) : list ascii := list_ascii_of_string s.

(** ** class SmilesEnumerator *)

Record SmilesEnumerator : Type := {
  _charset : string;
  _charlen : nat;
  _char_to_int : gmap ascii nat;
  _int_to_char : gmap nat ascii;
  pad : Z;
  leftpad : bool;
  isomericSmiles : bool;
  enumerate : bool;
  canonical : bool;
}.

(** [enumerate(charset)] *)
Definition py_enumerate {A : Type} (l : list A) : list (nat * A) :=
  imap (λ i c, (i, c)) l.

(** [{c: i for i, c in enumerate(charset)}]: a later position of the same
    character replaces the earlier one. *)
Definition char_to_int_of (cs : list ascii) : gmap ascii nat :=
  foldl (λ d ic, <[ic.2 := ic.1]> d) ∅ (py_enumerate cs).

(** [dict(enumerate(charset))] *)
Definition int_to_char_of (cs : list ascii) : gmap nat ascii :=
  foldl (λ d ic, <[ic.1 := ic.2]> d) ∅ (py_enumerate cs).

Definition charset (self : SmilesEnumerator) : string := _charset self.

(** The setter of the [charset] property. *)
Definition set_charset (self : SmilesEnumerator) (cs : string) : SmilesEnumerator :=
  {| _charset := cs;
     _charlen := String.length cs;
     _char_to_int := char_to_int_of (chars cs);
     _int_to_char := int_to_char_of (chars cs);
     pad := pad self; leftpad := leftpad self;
     isomericSmiles := isomericSmiles self;
     enumerate := enumerate self; canonical := canonical self |}.

Definition set_pad (self : SmilesEnumerator) (p : Z) : SmilesEnumerator :=
  {| _charset := _charset self; _charlen := _charlen self;
     _char_to_int := _char_to_int self; _int_to_char := _int_to_char self;
     pad := p; leftpad := leftpad self;
     isomericSmiles := isomericSmiles self;
     enumerate := enumerate self; canonical := canonical self |}.

Definition SmilesEnumerator_init (cs : string) (p : Z)
    (lp iso enum canon : bool) : SmilesEnumerator :=
  set_charset
    {| _charset := ""; _charlen := 0; _char_to_int := ∅; _int_to_char := ∅;
       pad := p; leftpad := lp; isomericSmiles := iso;
       enumerate := enum; canonical := canon |} cs.

(** The one-character string made of a backslash, which the pairing
    routines pass as [extra_chars]. *)
Definition backslash : string := String (ascii_of_nat 92) "".

(** *** fit *)

(** The order in which Python walks a set is not fixed by the language;
    [set_iter] is any one listing of the set without repeats. *)
Class PySetOrder : Type := {
  set_iter : gset string → list string;
  set_iter_perm : ∀ X, set_iter X ≡ₚ elements X;
}.

(** [set(s)] for a string [s]: its one-character strings. *)
Definition py_set_of_str (s : string) : gset string :=
  list_to_set ((λ c, String c "") <$> chars s).

(** ["".join(l)] *)
Definition join (l : list string) : string := foldr String.append "" l.

(** [max(...)] over a sequence of integers *)
Definition py_max (l : list Z) : outcome Z :=
  match l with
  | [] => Raise ValueError
  | z :: l' => Ok (foldl Z.max z l')
  end.

(** [fit] assigns [self.charset] and then [self.pad]; when [max] raises on
    an empty [smiles], the new [charset] is already in place. *)
Definition fit `{PySetOrder} (self : SmilesEnumerator) (smiles : list string)
    (extra_chars : list string) (extra_pad : Z)
  : SmilesEnumerator * outcome unit :=
  let cset := py_set_of_str (join smiles) in
  let self := set_charset self (join (set_iter (cset ∪ list_to_set extra_chars))) in
  match py_max (len <$> smiles) with
  | Raise e => (self, Raise e)
  | Ok m => (set_pad self (m + extra_pad), Ok ())
  end.

(** *** The one-hot tensor *)

(** A rank-3 numpy array: its declared shape, and its cells row by row.
    The shape is kept because an array with no positions still has a last
    dimension. *)
Record ndarray3 : Type := {
  shape : nat * nat * nat;
  rows : list (list (list Z));
}.

(** Integer indexing along an axis of length [size]: a negative index
    counts from the end; [None] is numpy's [IndexError]. *)
Definition np_index (size : nat) (i : Z) : option nat :=
  if bool_decide (0 ≤ i < Z.of_nat size) then Some (Z.to_nat i)
  else if bool_decide (- Z.of_nat size ≤ i < 0) then Some (Z.to_nat (i + Z.of_nat size))
  else None.

(** [m[p, k] = 1] on one string's matrix *)
Definition set_one (m : list (list Z)) (p k : Z) : option (list (list Z)) :=
  p' ← np_index (length m) p;
  cells ← m !! p';
  k' ← np_index (length cells) k;
  Some (<[p' := <[k' := 1]> cells]> m).

(** The loop [for j, c in enumerate(ss)] with its [try]: the character at
    position [j] goes to position [j + off]; a missing dictionary key or a
    rejected index ends the loop and counts one error. *)
Fixpoint encode_chars (c2i : gmap ascii nat) (off j : Z) (ss : list ascii)
    (m : list (list Z)) : list (list Z) * Z :=
  match ss with
  | [] => (m, 0)
  | c :: ss' =>
      match (k ← c2i !! c; set_one m (j + off) (Z.of_nat k)) with
      | Some m' => encode_chars c2i off (j + 1) ss' m'
      | None => (m, 1)
      end
  end.

(** *** The chemistry toolkit

    [randomize_smiles] parses the string with RDKit, shuffles the atom
    order with [np.random.shuffle] and serializes the molecule again.
    RDKit is outside the repository: [rdkit_randomize canonical isomeric]
    stands for the whole round, and is [None] when one of its steps
    raises; [rdkit_error] is then the exception: [AttributeError] where
    [MolFromSmiles] returns [None] and the next attribute access fails,
    [ValueError] where [RenumberAtoms] refuses a molecule without atoms,
    or whatever else the toolkit raises. *)
Class ChemToolkit `{NumpyRandom} : Type := {
  rdkit_randomize : bool → bool → string → RandomState → option (string * RandomState);
  rdkit_error : bool → bool → string → RandomState → exception;
}.

Section Codec.
Context `{NumpyRandom} `{!ChemToolkit}.

Definition randomize_smiles (self : SmilesEnumerator) (smiles : string)
    (g : RandomState) : outcome (string * RandomState) :=
  match rdkit_randomize (canonical self) (isomericSmiles self) smiles g with
  | Some r => Ok r
  | None => Raise (rdkit_error (canonical self) (isomericSmiles self) smiles g)
  end.

(** *** transform *)

(** One string: the body of [for i, ss in enumerate(tqdm(smiles))], in the
    left-padding branch or in the other one. *)
Definition transform_one (self : SmilesEnumerator) (ss : string)
    (g : RandomState) : outcome (list (list Z) * Z * RandomState) :=
  let blank := replicate (Z.to_nat (pad self)) (replicate (_charlen self) 0) in
  '(ss, g) ←! (if enumerate self then randomize_smiles self ss g else Ok (ss, g));
  if leftpad self then
    let l := len ss in
    let diff := pad self - l in
    let '(m, e) := encode_chars (_char_to_int self) diff 0 (chars ss) blank in
    Ok (m, e, g)
  else
    let '(m, e) := encode_chars (_char_to_int self) 0 0 (chars ss) blank in
    Ok (m, e, g).

Fixpoint transform_loop (self : SmilesEnumerator) (smiles : list string)
    (g : RandomState) : outcome (list (list (list Z)) * Z * RandomState) :=
  match smiles with
  | [] => Ok ([], 0, g)
  | ss :: rest =>
      '(m, e, g) ←! transform_one self ss g;
      '(ms, errors, g) ←! transform_loop self rest g;
      Ok (m :: ms, e + errors, g)
  end.

(** [transform] returns the tensor; the error count it prints is returned
    with it. [np.zeros] rejects a negative dimension. *)
Definition transform (self : SmilesEnumerator) (smiles : list string)
    (g : RandomState) : outcome (ndarray3 * Z * RandomState) :=
  if pad self <? 0 then Raise ValueError else
  '(ms, errors, g) ←! transform_loop self smiles g;
  Ok ({| shape := (length smiles, Z.to_nat (pad self), _charlen self);
         rows := ms |}, errors, g).

(** *** reverse_transform *)

Definition sum_cells (cells : list Z) : Z := foldr Z.add 0 cells.

(** Position of the first largest cell, scanning from [i] with the best
    so far at [best_i]. *)
Fixpoint argmax_from (best_i : nat) (best : Z) (i : nat) (cells : list Z) : nat :=
  match cells with
  | [] => best_i
  | c :: cells' =>
      if best <? c then argmax_from i c (S i) cells'
      else argmax_from best_i best (S i) cells'
  end.

Definition np_argmax (cells : list Z) : nat :=
  match cells with
  | [] => 0%nat
  | c :: cells' => argmax_from 0 c 1 cells'
  end.

Fixpoint omapM {A B : Type} (f : A → outcome B) (l : list A) : outcome (list B) :=
  match l with
  | [] => Ok []
  | a :: l' => b ←! f a; bs ←! omapM f l'; Ok (b :: bs)
  end.

(** One row [v] of the tensor, whose last dimension is [depth]:
    [v[v.sum(axis=1) == 1]], then [argmax(axis=1)], which numpy refuses
    along an axis of length zero, then the dictionary. *)
Definition decode_row (i2c : gmap nat ascii) (depth : nat)
    (v : list (list Z)) : outcome string :=
  let v := filter (λ cells, sum_cells cells = 1) v in
  if decide (depth = 0%nat) then Raise ValueError else
  cs ←! omapM (λ cells,
                 match i2c !! np_argmax cells with
                 | Some c => Ok c
                 | None => Raise KeyError
                 end) v;
  Ok (string_of_list_ascii cs).

Definition reverse_transform (self : SmilesEnumerator) (vect : ndarray3)
  : outcome (list string) :=
  omapM (decode_row (_int_to_char self) (shape vect).2) (rows vect).

End Codec.

(** ** class SmilesIterator *)

(** The base [Iterator], and the attributes the subclass adds. [L] is the
    type of a label. *)
Record SmilesIterator (L : Type) : Type := {
  base : Iterator;
  x : list string;
  y : option (list L);
  smiles_data_generator : SmilesEnumerator;
}.
Arguments base {L} _.
Arguments x {L} _.
Arguments y {L} _.
Arguments smiles_data_generator {L} _.

Definition SmilesIterator_init {L : Type} (xs : list string)
    (ys : option (list L)) (gen : SmilesEnumerator)
    (B : Z) (sh : bool) (sd : option Z) : outcome (SmilesIterator L) :=
  let mismatch :=
    match ys with
    | Some l => negb (length xs =? length l)%nat
    | None => false
    end in
  if mismatch then Raise ValueError else
  it ←! Iterator_init (Z.of_nat (length xs)) B sh sd;
  Ok {| base := it; x := xs; y := ys; smiles_data_generator := gen |}.

(** [a[idx]] for an array of positions [idx] *)
Definition np_take {A : Type} (a : list A) (idx : list Z) : outcome (list A) :=
  omapM (λ i, match np_index (length a) i ≫= (a !!.) with
              | Some v => Ok v
              | None => Raise IndexError
              end) idx.

Section Materializer.
Context `{NumpyRandom} `{!ChemToolkit} {L : Type}.

(** [for i, j in enumerate(index_array)]: the row of [x[j:j+1]], which
    must be a single row to be stored in [batch_x[i]]. *)
Fixpoint fill_batch (self : SmilesIterator L) (index_array : list Z)
    (g : RandomState) : outcome (list (list (list Z)) * RandomState) :=
  match index_array with
  | [] => Ok ([], g)
  | j :: rest =>
      let smiles := py_slice (x self) j (j + 1) in
      '(t, _, g) ←! transform (smiles_data_generator self) smiles g;
      match rows t with
      | [m] => '(ms, g) ←! fill_batch self rest g; Ok (m :: ms, g)
      | _ => Raise ValueError
      end
  end.

Definition SmilesIterator_next (self : SmilesIterator L) (g : RandomState)
  : outcome (ndarray3 * option (list L) * SmilesIterator L * RandomState) :=
  '(w, it, g) ←! flow_index_next (base self) g;
  let '(index_array, _, current_batch_size) := w in
  let gen := smiles_data_generator self in
  if (current_batch_size <? 0) || (pad gen <? 0) then Raise ValueError else
  let cbs := Z.to_nat current_batch_size in
  let blank := replicate (Z.to_nat (pad gen)) (replicate (_charlen gen) 0) in
  '(ms, g) ←! fill_batch self index_array g;
  if (cbs <? length ms)%nat then Raise IndexError else
  let batch_x :=
    {| shape := (cbs, Z.to_nat (pad gen), _charlen gen);
       rows := ms ++ replicate (cbs - length ms) blank |} in
  let self' := {| base := it; x := x self; y := y self;
                  smiles_data_generator := gen |} in
  match y self with
  | None => Ok (batch_x, None, self', g)
  | Some labels =>
      ls ←! np_take labels index_array;
      Ok (batch_x, Some ls, self', g)
  end.

(** Construct, then pull [k] batches. *)
Fixpoint next_many (self : SmilesIterator L) (k : nat) (g : RandomState)
  : outcome (list (ndarray3 * option (list L))) :=
  match k with
  | O => Ok []
  | S k' =>
      '(b, ls, self, g) ←! SmilesIterator_next self g;
      bs ←! next_many self k' g;
      Ok ((b, ls) :: bs)
  end.

End Materializer.

(** ** Pairing *)

(** [np.repeat(a, k)]: each item [k] times in a row *)
Definition np_repeat {A : Type} (a : list A) (k : nat) : list A :=
  a ≫= replicate k.

(** The item width of a numpy array of strings: the longest item it is
    built from, and at least one. Storing a longer string keeps that many
    characters of it. *)
Definition str_width (a : list string) : nat :=
  Nat.max 1 (max_list (String.length <$> a)).

Definition store_str (width : nat) (s : string) : string :=
  String.substring 0 width s.

(** The nearest integer, a tie going to the even one. *)
Definition round_half_even (q : Q) : Z :=
  let f := Qfloor q in
  match (q - inject_Z f ?= 1 # 2)%Q with
  | Lt => f
  | Gt => f + 1
  | Eq => if Z.even f then f else f + 1
  end.

(** [2 ** e] for an integer [e] of either sign *)
Definition Qpow2 (e : Z) : Q :=
  if 0 <=? e then inject_Z (2 ^ e) else 1 # Z.to_pos (2 ^ (- e)).

(** A float is modelled by the rational it stands for. [nearest_float q]
    is the float a decimal literal or a conversion from decimal yields
    for [q]: 53 significant bits, a tie going to the even significand,
    and a spacing of [2 ** -1074] below the normal range. Values beyond
    the largest float are not met here. *)
Definition nearest_float_pos (q : Q) : Q :=
  let e0 := Z.log2 (Qnum q) - Z.log2 (Z.pos (Qden q)) in
  let e := if Qle_bool (Qpow2 e0) q then e0 else e0 - 1 in
  let e := Z.max e (-1022) in
  (inject_Z (round_half_even (q * Qpow2 (52 - e))) * Qpow2 (e - 52))%Q.

Definition nearest_float (q : Q) : Q :=
  match (q ?= 0)%Q with
  | Eq => 0%Q
  | Gt => nearest_float_pos q
  | Lt => (- nearest_float_pos (- q))%Q
  end.

(** [round(u, 1)] on a Python float: the value of [u] is rounded to the
    nearest multiple of one tenth, a tie going to the even one, and the
    result is the float nearest to that decimal, which is not the decimal
    itself: [round(0.31, 1)] is the float [0.3], a little below three
    tenths. *)
Definition py_round1 (u : Q) : Q :=
  nearest_float (inject_Z (round_half_even (u * 10)) / 10).

(** [a > b] on floats *)
Definition Qgtb (a b : Q) : bool := negb (Qle_bool a b).

(** The column [hard_neg] starts as integers [-1] and receives strings. *)
Inductive cell : Type :=
  | CInt (z : Z)
  | CStr (s : string).

(** The table [enumerate_smiles_hard_neg] returns. *)
Record DataFrame : Type := {
  sent1 : list string;
  sent0 : list string;
  hard_neg : list cell;
}.

Section Pairing.
Context `{NumpyRandom} `{!ChemToolkit} `{PySetOrder}.

(** [np.random.choice(smiles)] *)
Definition choice (smiles : list string) (g : RandomState)
  : outcome (string * RandomState) :=
  match smiles with
  | [] => Raise ValueError
  | _ =>
      let '(i, g) := np_choice (length smiles) g in
      match smiles !! i with
      | Some s => Ok (s, g)
      | None => Raise IndexError
      end
  end.

(** The loop of [enumerate_smiles] over the positions [idxs]; [width] is
    the item width of the array [transformed]. *)
Fixpoint random_pairs_loop (smiles : list string) (width : nat) (rand_proba : Q)
    (idxs : list nat) (transformed : list string) (is_enumerated : list Z)
    (g : RandomState) : outcome (list string * list Z * RandomState) :=
  match idxs with
  | [] => Ok (transformed, is_enumerated, g)
  | idx :: rest =>
      let '(u, g) := np_uniform g in
      if Qgtb (py_round1 u) rand_proba then
        random_pairs_loop smiles width rand_proba rest transformed is_enumerated g
      else
        '(s, g) ←! choice smiles g;
        random_pairs_loop smiles width rand_proba rest
          (<[idx := store_str width s]> transformed)
          (<[idx := 0]> is_enumerated) g
  end.

(** [column] is [getattr(data_reader.dataset, smiles_col)]. The result is
    [(transformed, list(smiles), is_enumerated)], with the codec as [fit]
    left it and the generator state. *)
Definition enumerate_smiles (self : SmilesEnumerator) (column : list string)
    (replication_count : nat) (random_pairs : bool) (rand_proba : Q)
    (g : RandomState)
  : outcome (list string * list string * list Z * SmilesEnumerator * RandomState) :=
  let smiles := np_repeat column replication_count in
  let '(self, fitted) := fit self smiles [backslash] 5 in
  _ ←! fitted;
  '(v, _, g) ←! transform self smiles g;
  transformed ←! reverse_transform self v;
  let is_enumerated := replicate (length smiles) 1 in
  if random_pairs then
    if negb (length smiles =? length transformed)%nat then Raise AssertionError else
    '(transformed, is_enumerated, g) ←!
      random_pairs_loop smiles (str_width transformed) rand_proba
        (seq 0 (length smiles)) transformed is_enumerated g;
    Ok (transformed, smiles, is_enumerated, self, g)
  else Ok (transformed, smiles, is_enumerated, self, g).

(** [while hard_neg == smile: hard_neg = np.random.choice(smiles)], run for
    at most [fuel] turns; [None] when the loop is still running then. *)
Fixpoint resample (fuel : nat) (smiles : list string) (smile hard_neg : string)
    (g : RandomState) : option (outcome (string * RandomState)) :=
  if decide (hard_neg = smile) then
    match fuel with
    | O => None
    | S fuel' =>
        match choice smiles g with
        | Raise e => Some (Raise e)
        | Ok (h, g) => resample fuel' smiles smile h g
        end
    end
  else Some (Ok (hard_neg, g)).

(** [for idx, smile in enumerate(tqdm(smiles))] of
    [enumerate_smiles_hard_neg]; each [while] gets [fuel] turns. *)
Fixpoint hard_neg_loop (fuel : nat) (smiles : list string)
    (todo : list (nat * string)) (hard_negatives : list cell)
    (g : RandomState) : option (outcome (list cell * RandomState)) :=
  match todo with
  | [] => Some (Ok (hard_negatives, g))
  | (idx, smile) :: rest =>
      match choice smiles g with
      | Raise e => Some (Raise e)
      | Ok (h, g) =>
          match resample fuel smiles smile h g with
          | None => None
          | Some (Raise e) => Some (Raise e)
          | Some (Ok (h, g)) =>
              hard_neg_loop fuel smiles rest (<[idx := CStr h]> hard_negatives) g
          end
      end
  end.

Definition enumerate_smiles_hard_neg (fuel : nat) (self : SmilesEnumerator)
    (column : list string) (replication_count : nat) (random_pairs : bool)
    (rand_proba : Q) (g : RandomState)
  : option (outcome (DataFrame * SmilesEnumerator * RandomState)) :=
  let smiles := np_repeat column replication_count in
  let '(self, fitted) := fit self smiles [backslash] 5 in
  match (_ ←! fitted;
         '(v, _, g) ←! transform self smiles g;
         transformed ←! reverse_transform self v;
         Ok (transformed, g)) with
  | Raise e => Some (Raise e)
  | Ok (transformed, g) =>
      let hard_negatives := replicate (length smiles) (CInt (-1)) in
      if random_pairs then
        if negb (length smiles =? length transformed)%nat
        then Some (Raise AssertionError) else
        match hard_neg_loop fuel smiles (py_enumerate smiles) hard_negatives g with
        | None => None
        | Some (Raise e) => Some (Raise e)
        | Some (Ok (hard_negatives, g)) =>
            Some (Ok ({| sent1 := smiles; sent0 := transformed;
                         hard_neg := hard_negatives |}, self, g))
        end
      else
        Some (Ok ({| sent1 := smiles; sent0 := transformed;
                     hard_neg := hard_negatives |}, self, g))
  end.

End Pairing.

(** ** Reference instances

    A small linear congruential generator, the listing of a set by its
    [elements], and a
    toolkit that returns the string it is given: one concrete environment
    on which the program can be run. *)

Definition lcg_next (g : Z) : Z := (1103515245 * g + 12345) `mod` 2147483648.

Definition lcg_seed (s : Z) : option Z :=
  if bool_decide (0 ≤ s < 4294967296) then Some s else None.

Definition lcg_permutation (size g : Z) : list Z * Z :=
  (rotate (Z.to_nat (g `mod` Z.max size 1)) (seqZ 0 size), lcg_next g).

Definition lcg_uniform (g : Z) : Q * Z :=
  (Qmake (g `mod` 1000) 1000, lcg_next g).

Definition lcg_choice (size : nat) (g : Z) : nat * Z :=
  (Z.to_nat (g `mod` Z.of_nat size), lcg_next g).

Definition lcg_random : NumpyRandom.
Proof.
  refine {| RandomState := Z;
            np_seed := lcg_seed;
            np_permutation := lcg_permutation;
            np_uniform := lcg_uniform;
            np_choice := lcg_choice;
            np_uniform_range := _;
            np_choice_lt := _ |}.
  - intros g. unfold lcg_uniform, Qle, Qlt; simpl.
    pose proof (Z.mod_pos_bound g 1000 ltac:(lia)). lia.
  - intros size g Hs. unfold lcg_choice; simpl.
    pose proof (Z.mod_pos_bound g (Z.of_nat size) ltac:(lia)). lia.
Defined.

Definition identity_toolkit : @ChemToolkit lcg_random :=
  {| rdkit_randomize := λ _ _ s g, Some (s, g);
     rdkit_error := λ _ _ _ _, AttributeError |}.

(** A toolkit that refuses the empty string with [ValueError], as
    [RenumberAtoms] does on a molecule without atoms, and returns any
    other string reversed. *)
Definition picky_toolkit : @ChemToolkit lcg_random :=
  {| rdkit_randomize := λ _ _ s g,
       if decide (s = "") then None else Some (String.rev s, g);
     rdkit_error := λ _ _ _ _, ValueError |}.

Definition elements_order : PySetOrder :=
  {| set_iter := elements; set_iter_perm := λ X, reflexivity (elements X) |}.

(** The same listing read backwards: another order Python may walk the
    same set in. *)
Definition reversed_order : PySetOrder :=
  {| set_iter := λ X, reverse (elements X);
     set_iter_perm := λ X, reverse_Permutation (elements X) |}.

(** ** Vocabulary of the statements *)

(** The window an unshuffled iterator yields at cursor [i]. *)
Definition plain_window (N B i : Z) : Window :=
  let size := if N >? i * B + B then B else N - i * B in
  (seqZ (i * B) size, i * B, size).

(** The cursor after the pull at cursor [i]. *)
Definition next_cursor (N B i : Z) : Z :=
  if N >? i * B + B then i + 1 else 0.

(** What is fixed, and what a pull at cursor [i] after [t] pulls finds. *)
Definition plain_state (N B : Z) (sd : option Z) (t i : Z) (self : Iterator) : Prop :=
  n self = N ∧ batch_size self = B ∧ shuffle self = false ∧ seed self = sd ∧
  batch_index self = i ∧ total_batches_seen self = t ∧
  (i ≠ 0 → started self = true ∧ index_array self = np_arange N).

(** The windows of [k] pulls of an unshuffled iterator from cursor [i]. *)
Fixpoint plain_trace (N B i : Z) (k : nat) : list Window :=
  match k with
  | O => []
  | S k' => plain_window N B i :: plain_trace N B (next_cursor N B i) k'
  end.

(** The one-character string of a character. *)
Definition single (c : ascii) : string := String c "".

(** The one-hot position of character [c] in a vocabulary of [depth]
    characters. *)
Definition one_hot_of (c2i : gmap ascii nat) (depth : nat) (c : ascii) : list Z :=
  match c2i !! c with
  | Some k => <[k := 1]> (replicate depth 0)
  | None => replicate depth 0
  end.

(** The dictionaries and the length agree with the character set, as the
    setter of [charset] leaves them. *)
Definition codec_wf (self : SmilesEnumerator) : Prop :=
  _charlen self = length (chars (_charset self)) ∧
  _char_to_int self = char_to_int_of (chars (_charset self)) ∧
  _int_to_char self = int_to_char_of (chars (_charset self)).

Section Draws.
Context `{NumpyRandom}.

(** The generator state one turn of the loop of [enumerate_smiles] leaves,
    the state the [k]-th turn starts from, and the sample it draws. *)
Definition after_row (smiles : list string) (rand_proba : Q)
    (g : RandomState) : RandomState :=
  let '(u, g1) := np_uniform g in
  if Qgtb (py_round1 u) rand_proba then g1
  else (np_choice (length smiles) g1).2.

Fixpoint row_state (smiles : list string) (rand_proba : Q) (k : nat)
    (g : RandomState) : RandomState :=
  match k with
  | O => g
  | S k' => row_state smiles rand_proba k' (after_row smiles rand_proba g)
  end.

Definition row_draw (smiles : list string) (rand_proba : Q) (k : nat)
    (g : RandomState) : Q :=
  (np_uniform (row_state smiles rand_proba k g)).1.

End Draws.

(** The window an iterator yields at cursor [i] from the index array
    [arr] of its current epoch. *)
Definition slice_window (arr : list Z) (N B i : Z) : Window :=
  let size := if N >? i * B + B then B else N - i * B in
  (take (Z.to_nat size) (drop (Z.to_nat (i * B)) arr), i * B, size).

(** An iterator inside an epoch: started, at cursor [i] after [t] pulls,
    with [arr] as the index array of the epoch. *)
Definition epoch_state (N B : Z) (sh : bool) (sd : option Z) (t i : Z)
    (arr : list Z) (self : Iterator) : Prop :=
  n self = N ∧ batch_size self = B ∧ shuffle self = sh ∧ seed self = sd ∧
  batch_index self = i ∧ total_batches_seen self = t ∧
  started self = true ∧ index_array self = arr.

(** The bounds of a window: it starts at a multiple of the batch size,
    reports between one and [B] items, ends inside the dataset, and holds
    no more indices than it reports. *)
Definition window_in_bounds (N B : Z) (w : Window) : Prop :=
  0 ≤ current_index w ∧ (B | current_index w) ∧
  1 ≤ current_batch_size w ≤ B ∧
  current_index w + current_batch_size w ≤ N ∧
  Z.of_nat (length (indices w)) ≤ current_batch_size w.

Section EpochArray.
Context `{NumpyRandom}.

(** The index array the first pull of an epoch draws: [np.arange(n)], or
    with shuffling a permutation from the generator in state [g1]. *)
Definition epoch_array (N : Z) (sh : bool) (g1 : RandomState) : list Z :=
  if sh then (np_permutation N g1).1 else np_arange N.

End EpochArray.

(** A position of the tensor: [d] cells, each 0 or 1. *)
Definition binary_row (d : nat) (cells : list Z) : Prop :=
  length cells = d ∧ Forall (λ z, z = 0 ∨ z = 1) cells.

(** What the pulls of an iterator with [batch_size ≤ 0] keep. *)
Definition unwrapped_state (N B : Z) (sh : bool) (sd : option Z) (t : Z)
    (self : Iterator) : Prop :=
  n self = N ∧ batch_size self = B ∧ shuffle self = sh ∧ seed self = sd ∧
  batch_index self = t ∧ total_batches_seen self = t ∧
  (started self = false → t = 0).

(** * Properties *)

(** ** The error monad *)

Lemma obind_Ok {A B : Type} (m : outcome A) (k : A → outcome B) (b : B) :
  obind m k = Ok b → ∃ a, m = Ok a ∧ k a = Ok b.
Proof. destruct m as [a|e]; simpl; [eauto | discriminate]. Qed.

(** ** Slices of [np.arange] *)

Lemma py_slice_arange (N lo hi : Z) :
  0 ≤ lo → lo ≤ hi → hi ≤ N →
  py_slice (np_arange N) lo hi = seqZ lo (hi - lo).
Proof.
  intros Hlo Hhi HN. unfold py_slice, np_arange, slice_bound.
  rewrite length_seqZ, Z2Nat.id by lia.
  destruct (Z.ltb_spec lo 0); [lia|]. destruct (Z.ltb_spec hi 0); [lia|].
  rewrite !Z.min_l by lia.
  replace N with (lo + ((hi - lo) + (N - hi))) at 1 by lia.
  rewrite seqZ_app by lia. rewrite Z.add_0_l.
  rewrite drop_app_length' by (rewrite length_seqZ; lia).
  rewrite seqZ_app by lia.
  rewrite take_app_length' by (rewrite length_seqZ; lia).
  reflexivity.
Qed.

(** ** The epoch of an unshuffled iterator *)

Section Epoch.
Context `{NumpyRandom}.

Lemma reset_at_zero (self : Iterator) :
  batch_index self = 0 → reset self = self.
Proof. destruct self; simpl; intros ->; reflexivity. Qed.

Lemma plain_step (N B : Z) (sd : option Z) (t i : Z) (self : Iterator)
    (g : RandomState) :
  0 < B ≤ N → 0 ≤ i → i * B < N →
  (∀ s, sd = Some s → is_Some (np_seed (s + t))) →
  plain_state N B sd t i self →
  ∃ self' g',
    flow_index_next self g = Ok (plain_window N B i, self', g') ∧
    plain_state N B sd (t + 1) (next_cursor N B i) self'.
Proof.
  intros HB Hi HiB Hsd (Hn & Hb & Hsh & Hseed & Hbi & Ht & Harr).
  assert (Hself : (if started self then self else reset self) = self).
  { destruct (started self) eqn:Hst; [done|].
    apply reset_at_zero. destruct (decide (i = 0)) as [->|Hne]; [done|].
    destruct (Harr Hne) as [? _]; congruence. }
  unfold flow_index_next. rewrite Hself.
  assert (Hre : ∃ g1, reseed self g = Ok g1).
  { unfold reseed. rewrite Hseed, Ht. destruct sd as [s|]; [|eauto].
    destruct (Hsd s eq_refl) as [g1 ->]. eauto. }
  destruct Hre as [g1 ->]. simpl.
  rewrite Hn, Hb, Hsh, Hbi, Hseed, Ht.
  assert (Harr' : (if i =? 0 then (np_arange N, g1) else (index_array self, g1))
                  = (np_arange N, g1)).
  { destruct (Z.eqb_spec i 0); [done|]. destruct (Harr ltac:(done)) as [_ ->]. done. }
  rewrite Harr'.
  destruct (Z.eqb_spec N 0); [lia|].
  assert (0 ≤ i * B) by nia.
  rewrite (Z.mod_small (i * B) N) by lia.
  unfold plain_window, next_cursor.
  destruct (Z.gtb_spec N (i * B + B)).
  - eexists _, _. split.
    + rewrite py_slice_arange by lia.
      replace (i * B + B - i * B) with B by lia. reflexivity.
    + repeat split; simpl; auto.
  - eexists _, _. split.
    + rewrite py_slice_arange by lia.
      replace (i * B + (N - i * B) - i * B) with (N - i * B) by lia. reflexivity.
    + repeat split; simpl; auto; done.
Qed.

Lemma plain_pulls (N B : Z) (sd : option Z) (gs : list RandomState) :
  ∀ (t i : Z) (self : Iterator),
  0 < B ≤ N → 0 ≤ i →
  (i + Z.of_nat (length gs)) * B < N + B →
  (∀ s m, sd = Some s → t ≤ m < t + Z.of_nat (length gs) →
          is_Some (np_seed (s + m))) →
  plain_state N B sd t i self →
  ∃ self',
    pulls self gs
    = Ok (plain_window N B <$> seqZ i (Z.of_nat (length gs)), self') ∧
    plain_state N B sd (t + Z.of_nat (length gs))
      (match gs with
       | [] => i
       | _ => next_cursor N B (i + Z.of_nat (length gs) - 1)
       end) self'.
Proof.
  induction gs as [|g gs IH]; intros t i self HB Hi Hlen Hsd Hst.
  - exists self. simpl. split; [done|]. by rewrite Z.add_0_r.
  - cbn [length] in *.
    assert (0 ≤ i * B ∧ i * B < N) as [? ?] by nia.
    destruct (plain_step N B sd t i self g HB Hi ltac:(done)
                ltac:(intros s Hs; apply (Hsd s t Hs); lia) Hst)
      as (self1 & g1 & Hstep & Hst1).
    cbn [pulls]. rewrite Hstep. cbn [obind].
    rewrite seqZ_cons by lia. rewrite fmap_cons.
    replace (Z.pred (Z.of_nat (S (length gs)))) with (Z.of_nat (length gs)) by lia.
    destruct gs as [|g' gs'].
    + exists self1. split; [done|]. cbn [length].
      change (Z.of_nat 1) with 1.
      replace (i + 1 - 1) with i by lia. exact Hst1.
    + assert (Hnext : next_cursor N B i = i + 1).
      { unfold next_cursor. cbn [length] in Hlen.
        destruct (Z.gtb_spec N (i * B + B)); [done|nia]. }
      rewrite Hnext in Hst1.
      destruct (IH (t + 1) (Z.succ i) self1 HB ltac:(lia)) as (self2 & Hpulls & Hst2).
      * cbn [length] in *. nia.
      * intros s m Hs Hm. apply (Hsd s m Hs). cbn [length] in *. lia.
      * replace (Z.succ i) with (i + 1) by lia. exact Hst1.
      * rewrite Hpulls. cbn [obind]. exists self2. split; [done|].
        replace (t + Z.of_nat (S (length (g' :: gs'))))
          with (t + 1 + Z.of_nat (length (g' :: gs'))) by lia.
        replace (i + Z.of_nat (S (length (g' :: gs'))) - 1)
          with (Z.succ i + Z.of_nat (length (g' :: gs')) - 1) by lia.
        exact Hst2.
Qed.

End Epoch.

Lemma plain_windows_concat (N B : Z) (j : nat) :
  ∀ i : Z,
  0 < B → 0 ≤ i → i * B ≤ N →
  (j = 0%nat ∨ (i + Z.of_nat j) * B < N + B) →
  concat (indices <$> (plain_window N B <$> seqZ i (Z.of_nat j)))
  = seqZ (i * B) (Z.min N ((i + Z.of_nat j) * B) - i * B).
Proof.
  induction j as [|j IH]; intros i HB Hi HiN Hj.
  - rewrite seqZ_nil by lia. simpl. rewrite seqZ_nil by lia. done.
  - destruct Hj as [?|Hj]; [lia|].
    rewrite seqZ_cons by lia. rewrite !fmap_cons. cbn [concat].
    replace (Z.pred (Z.of_nat (S j))) with (Z.of_nat j) by lia.
    unfold plain_window at 1, indices at 1. cbn [fst].
    assert (0 ≤ i * B) by nia.
    destruct (Z.gtb_spec N (i * B + B)).
    + rewrite (IH (Z.succ i)) by
        first [lia | nia | destruct j; [by left | right; nia]].
      replace (Z.min N ((i + Z.of_nat (S j)) * B) - i * B)
        with (B + (Z.min N ((Z.succ i + Z.of_nat j) * B) - Z.succ i * B)) by nia.
      rewrite seqZ_app by nia. do 2 f_equal. lia.
    + assert (j = 0%nat) as -> by nia.
      rewrite (seqZ_nil (Z.succ i)) by lia. simpl. rewrite app_nil_r.
      f_equal. nia.
Qed.

Lemma ceil_div_bounds (N B k : Z) :
  0 < B → k = (N + B - 1) `div` B → (k - 1) * B < N ∧ N ≤ k * B.
Proof.
  intros HB ->.
  pose proof (Z.mul_div_le (N + B - 1) B HB).
  pose proof (Z.mul_succ_div_gt (N + B - 1) B HB). lia.
Qed.

Lemma last_window_size (N B k : Z) :
  0 < B → (k - 1) * B < N → N ≤ k * B →
  N - (k - 1) * B = if N `mod` B =? 0 then B else N `mod` B.
Proof.
  intros HB Hlo Hhi.
  pose proof (Z.div_mod N B ltac:(lia)) as Hdm.
  pose proof (Z.mod_pos_bound N B HB) as Hr.
  destruct (Z.eqb_spec (N `mod` B) 0) as [Hz|Hnz].
  - assert (k = N `div` B) by nia. nia.
  - assert (k = N `div` B + 1) by nia. nia.
Qed.

(** C1. With [0 < batch_size ≤ n] and shuffling off, the
    [ceil(n / batch_size)] pulls that follow construction succeed; their
    index windows, put end to end, are [0, 1, ..., n-1]; the [i]-th
    window starts at [i * batch_size]; every window but the last has
    [batch_size] items and the last has [n mod batch_size], or
    [batch_size] when that is zero; and the cursor is back at 0. A seed,
    when one is given, must be one numpy accepts at each pull. *)
Theorem flow_index_epoch_partition `{NumpyRandom} (N B : Z) (sd : option Z)
    (gs : list RandomState) :
  0 < B ≤ N →
  Z.of_nat (length gs) = (N + B - 1) `div` B →
  (∀ s m, sd = Some s → 0 ≤ m < Z.of_nat (length gs) →
          is_Some (np_seed (s + m))) →
  ∃ self ws self',
    Iterator_init N B false sd = Ok self ∧
    pulls self gs = Ok (ws, self') ∧
    length ws = length gs ∧
    concat (indices <$> ws) = seqZ 0 N ∧
    (∀ (i : nat) (w : Window), ws !! i = Some w →
       current_index w = Z.of_nat i * B ∧
       current_batch_size w =
         (if bool_decide (S i < length gs)%nat then B
          else if N `mod` B =? 0 then B else N `mod` B) ∧
       indices w = seqZ (current_index w) (current_batch_size w)) ∧
    batch_index self' = 0 ∧
    total_batches_seen self' = Z.of_nat (length gs).
Proof.
  intros HB Hk Hsd.
  destruct (ceil_div_bounds N B (Z.of_nat (length gs)) ltac:(lia) Hk) as [Hlo Hhi].
  set (fresh := {| n := N; batch_size := B; shuffle := false; seed := sd;
                   batch_index := 0; total_batches_seen := 0;
                   started := false; index_array := [] |}).
  assert (Hfresh : plain_state N B sd 0 0 fresh) by (repeat split; done).
  destruct (plain_pulls N B sd gs 0 0 fresh HB ltac:(lia) ltac:(lia)
              ltac:(intros s m Hs Hm; apply (Hsd s m Hs); lia) Hfresh)
    as (self' & Hpulls & Hst').
  exists fresh, (plain_window N B <$> seqZ 0 (Z.of_nat (length gs))), self'.
  split; [|split; [exact Hpulls|]].
  { unfold Iterator_init. destruct (Z.ltb_spec N B); [lia|done]. }
  split; [by rewrite length_fmap, length_seqZ, Nat2Z.id|].
  split.
  { rewrite plain_windows_concat by (try lia; right; lia).
    rewrite Z.mul_0_l, Z.sub_0_r, Z.add_0_l. f_equal. lia. }
  split.
  { intros i w Hw. rewrite list_lookup_fmap in Hw.
    destruct (seqZ 0 (Z.of_nat (length gs)) !! i) as [j|] eqn:Hj; [|done].
    apply lookup_seqZ in Hj as [-> Hi]. injection Hw as <-.
    rewrite Z.add_0_l. unfold plain_window, current_index, current_batch_size,
      indices. cbn [fst snd].
    split; [done|]. split; [|done].
    case_bool_decide as Hlast.
    - destruct (Z.gtb_spec N (Z.of_nat i * B + B)); [done|nia].
    - assert (Z.of_nat i = Z.of_nat (length gs) - 1) as -> by lia.
      destruct (Z.gtb_spec N ((Z.of_nat (length gs) - 1) * B + B)); [nia|].
      by apply last_window_size; [lia|..]. }
  destruct Hst' as (_ & _ & _ & _ & Hbi & Ht & _).
  split; [|lia].
  rewrite Hbi. destruct gs as [|g gs']; [done|].
  unfold next_cursor.
  destruct (Z.gtb_spec N ((0 + Z.of_nat (length (g :: gs')) - 1) * B + B)); [nia|done].
Qed.

(** The scenario of C1: ten items in batches of three, here with a seed. *)
Lemma flow_index_epoch_partition_witness :
  ∃ self ws self',
    Iterator_init 10 3 false (Some 7) = Ok self ∧
    @pulls lcg_random self [0; 0; 0; 0] = Ok (ws, self') ∧
    length ws = 4%nat ∧
    concat (indices <$> ws) = seqZ 0 10 ∧
    (∀ (i : nat) (w : Window), ws !! i = Some w →
       current_index w = Z.of_nat i * 3 ∧
       current_batch_size w =
         (if bool_decide (S i < 4)%nat then 3
          else if 10 `mod` 3 =? 0 then 3 else 10 `mod` 3) ∧
       indices w = seqZ (current_index w) (current_batch_size w)) ∧
    batch_index self' = 0 ∧
    total_batches_seen self' = 4.
Proof.
  apply (@flow_index_epoch_partition lcg_random 10 3 (Some 7) [0; 0; 0; 0]).
  - lia.
  - reflexivity.
  - intros s m [= <-] Hm. cbn [length] in Hm.
    change (is_Some (lcg_seed (7 + m))). unfold lcg_seed.
    rewrite bool_decide_eq_true_2 by lia. by eexists.
Defined.

Example flow_index_ten_by_three :
  (self ←! Iterator_init 10 3 false None;
   '(ws, self') ←! @pulls lcg_random self [0; 0; 0; 0];
   Ok (ws, batch_index self'))
  = Ok ([([0; 1; 2], 0, 3); ([3; 4; 5], 3, 3); ([6; 7; 8], 6, 3); ([9], 9, 1)], 0).
Proof. vm_compute. reflexivity. Qed.

(** ** Seeded iterators *)

Section Seeded.
Context `{NumpyRandom}.

(** With a seed, the generator state a pull works from is set by
    [seed + total_batches_seen] alone. *)
Lemma reseed_seeded (self : Iterator) (s : Z) (g : RandomState) :
  seed self = Some s →
  reseed self g = match np_seed (s + total_batches_seen self) with
                  | Some g' => Ok g'
                  | None => Raise ValueError
                  end.
Proof. intros Hs. unfold reseed. by rewrite Hs. Qed.

Lemma flow_index_next_seeded (self : Iterator) (s : Z) (g1 g2 : RandomState) :
  seed self = Some s →
  flow_index_next self g1 = flow_index_next self g2.
Proof.
  intros Hs. unfold flow_index_next.
  set (self' := if started self then self else reset self).
  assert (Hs' : seed self' = Some s) by (subst self'; by destruct (started self)).
  by rewrite !(reseed_seeded self' s _ Hs').
Qed.

Lemma flow_index_next_config (self self' : Iterator) (g g' : RandomState)
    (w : Window) :
  flow_index_next self g = Ok (w, self', g') →
  n self' = n self ∧ batch_size self' = batch_size self ∧
  shuffle self' = shuffle self ∧ seed self' = seed self ∧
  total_batches_seen self' = total_batches_seen self + 1 ∧
  started self' = true.
Proof.
  unfold flow_index_next.
  set (self0 := if started self then self else reset self).
  assert (Hc : n self0 = n self ∧ batch_size self0 = batch_size self ∧
               shuffle self0 = shuffle self ∧ seed self0 = seed self ∧
               total_batches_seen self0 = total_batches_seen self)
    by (subst self0; by destruct (started self)).
  destruct Hc as (<- & <- & <- & <- & <-).
  intros Hnext. apply obind_Ok in Hnext as (g1 & _ & Hnext).
  destruct (if batch_index self0 =? 0 then _ else _) as [arr g2].
  destruct (n self0 =? 0); [discriminate|].
  destruct (if n self0 >? _ then _ else _) as [cbs bi].
  injection Hnext as <- <- <-. done.
Qed.

Lemma pulls_seeded (s : Z) (gs1 : list RandomState) :
  ∀ (gs2 : list RandomState) (self : Iterator),
  seed self = Some s → length gs1 = length gs2 →
  pulls self gs1 = pulls self gs2.
Proof.
  induction gs1 as [|g1 gs1 IH]; intros [|g2 gs2] self Hs Hlen;
    try discriminate; [done|].
  cbn [pulls]. rewrite (flow_index_next_seeded self s g1 g2 Hs).
  destruct (flow_index_next self g2) as [[[w self'] g']|e] eqn:Hnext; [|done].
  cbn [obind].
  apply flow_index_next_config in Hnext as (_ & _ & _ & Hs' & _).
  rewrite (IH gs2 self') by (congruence || (simpl in Hlen; lia)). done.
Qed.

End Seeded.

(** C3. Two iterators built with the same [(n, batch_size, shuffle, seed)]
    and pulled the same number of times yield the same windows (or fail
    at the same pull), whatever state the process-wide generator is in
    when each pull begins, and wherever in an epoch the pulls stop. *)
Theorem seeded_pulls_deterministic `{NumpyRandom} (N B : Z) (sh : bool) (s : Z)
    (gs1 gs2 : list RandomState) :
  length gs1 = length gs2 →
  (self ←! Iterator_init N B sh (Some s); pulls self gs1)
  = (self ←! Iterator_init N B sh (Some s); pulls self gs2).
Proof.
  intros Hlen. destruct (Iterator_init N B sh (Some s)) as [self|e] eqn:Hinit;
    [|done].
  cbn [obind]. apply (pulls_seeded s); [|done].
  unfold Iterator_init in Hinit. destruct (N <? B); [discriminate|].
  by injection Hinit as <-.
Qed.

Lemma seeded_pulls_deterministic_witness :
  (self ←! Iterator_init 5 2 true (Some 42); @pulls lcg_random self [1; 2])
  = (self ←! Iterator_init 5 2 true (Some 42); @pulls lcg_random self [8; 9]).
Proof.
  apply (@seeded_pulls_deterministic lcg_random 5 2 true 42 [1; 2] [8; 9]).
  reflexivity.
Defined.

(** On the reference generator the two pulls above are shuffled windows,
    and without a seed they do depend on the generator state. *)
Example seeded_pulls_run :
  (self ←! Iterator_init 5 2 true (Some 42);
   '(ws, _) ←! @pulls lcg_random self [1; 2]; Ok ws)
  = Ok [([2; 3], 0, 2); ([4; 0], 2, 2)].
Proof. vm_compute. reflexivity. Qed.

Example unseeded_pulls_differ :
  (self ←! Iterator_init 5 2 true None; @pulls lcg_random self [1; 2])
  ≠ (self ←! Iterator_init 5 2 true None; @pulls lcg_random self [8; 9]).
Proof. vm_compute. discriminate. Qed.

(** ** Reset *)

Section Reset.
Context `{NumpyRandom}.

Lemma next_cursor_in_epoch (N B i : Z) :
  0 < B ≤ N → 0 ≤ i → i * B < N →
  0 ≤ next_cursor N B i ∧ next_cursor N B i * B < N.
Proof.
  intros HB Hi HiB. unfold next_cursor.
  destruct (Z.gtb_spec N (i * B + B)); lia.
Qed.

(** Without shuffling the windows depend on the cursor alone, through any
    number of epochs. *)
Lemma plain_pulls_any (N B : Z) (sd : option Z) (gs : list RandomState) :
  ∀ (t i : Z) (self : Iterator),
  0 < B ≤ N → 0 ≤ i → i * B < N →
  (∀ s m, sd = Some s → t ≤ m < t + Z.of_nat (length gs) →
          is_Some (np_seed (s + m))) →
  plain_state N B sd t i self →
  ∃ self',
    pulls self gs = Ok (plain_trace N B i (length gs), self') ∧
    total_batches_seen self' = t + Z.of_nat (length gs).
Proof.
  induction gs as [|g gs IH]; intros t i self HB Hi HiB Hsd Hst.
  - exists self. split; [done|]. destruct Hst as (_ & _ & _ & _ & _ & -> & _).
    simpl. lia.
  - destruct (plain_step N B sd t i self g HB Hi HiB
                ltac:(intros s Hs; apply (Hsd s t Hs); cbn [length]; lia) Hst)
      as (self1 & g1 & Hstep & Hst1).
    destruct (next_cursor_in_epoch N B i HB Hi HiB) as [Hi' HiB'].
    destruct (IH (t + 1) (next_cursor N B i) self1 HB Hi' HiB') as (self2 & Hp & Ht2).
    + intros s m Hs Hm. apply (Hsd s m Hs). cbn [length]. lia.
    + exact Hst1.
    + exists self2. cbn [pulls length plain_trace]. rewrite Hstep. cbn [obind].
      rewrite Hp. cbn [obind]. split; [done|]. lia.
Qed.

End Reset.

(** C9, as the code has it. [reset] sets the cursor to 0 and leaves every
    other attribute as it was. So, on an iterator with seed [s], the pull
    after a reset seeds numpy with [s] plus the pulls counted since
    construction, where a fresh iterator seeds it with [s]; and on an
    unshuffled iterator the windows pulled after a reset are the windows
    of a fresh iterator all the same. *)
Theorem reset_moves_cursor_only `{NumpyRandom} (self : Iterator) :
  (batch_index (reset self) = 0 ∧
   total_batches_seen (reset self) = total_batches_seen self ∧
   n (reset self) = n self ∧ batch_size (reset self) = batch_size self ∧
   shuffle (reset self) = shuffle self ∧ seed (reset self) = seed self ∧
   started (reset self) = started self ∧
   index_array (reset self) = index_array self) ∧
  (∀ (s : Z) (g : RandomState), seed self = Some s →
     reseed (reset self) g
     = match np_seed (s + total_batches_seen self) with
       | Some g' => Ok g'
       | None => Raise ValueError
       end) ∧
  (∀ (fresh : Iterator) (gs gs' : list RandomState),
     0 < batch_size self →
     0 ≤ total_batches_seen self →
     shuffle self = false →
     Iterator_init (n self) (batch_size self) false (seed self) = Ok fresh →
     length gs = length gs' →
     (∀ s m, seed self = Some s →
        0 ≤ m < total_batches_seen self + Z.of_nat (length gs) →
        is_Some (np_seed (s + m))) →
     ∃ ws self1 self2,
       pulls (reset self) gs = Ok (ws, self1) ∧
       pulls fresh gs' = Ok (ws, self2)).
Proof.
  split; [by destruct self|]. split.
  { intros s g Hs. by rewrite (reseed_seeded (reset self) s g Hs). }
  intros fresh gs gs' HB Ht Hsh Hinit Hlen Hsd.
  unfold Iterator_init in Hinit.
  destruct (Z.ltb_spec (n self) (batch_size self)); [discriminate|].
  injection Hinit as <-.
  set (N := n self) in *. set (B := batch_size self) in *.
  destruct (plain_pulls_any N B (seed self) gs (total_batches_seen self) 0
              (reset self)) as (self1 & Hp1 & _);
    [lia | lia | lia | | by repeat split | ].
  { intros s m Hs Hm. apply (Hsd s m Hs); lia. }
  destruct (plain_pulls_any N B (seed self) gs' 0 0
              {| n := N; batch_size := B; shuffle := false; seed := seed self;
                 batch_index := 0; total_batches_seen := 0;
                 started := false; index_array := [] |})
    as (self2 & Hp2 & _); [lia | lia | lia | | by repeat split | ].
  { intros s m Hs Hm. apply (Hsd s m Hs); lia. }
  exists (plain_trace N B 0 (length gs)), self1, self2.
  split; [done|]. by rewrite Hlen.
Qed.

(** C9, as stated, fails where shuffling is off: a seeded iterator of four
    items in batches of two, pulled once and reset, yields the windows of
    a fresh one. *)
Lemma reset_windows_coincide_unshuffled :
  (self ←! Iterator_init 4 2 false (Some 7);
   '(_, self1) ←! @pulls lcg_random self [0];
   '(ws, _) ←! @pulls lcg_random (reset self1) [0; 0];
   Ok ws)
  = Ok [([0; 1], 0, 2); ([2; 3], 2, 2)]
  ∧
  (self ←! Iterator_init 4 2 false (Some 7);
   '(ws, _) ←! @pulls lcg_random self [0; 0];
   Ok ws)
  = Ok [([0; 1], 0, 2); ([2; 3], 2, 2)].
Proof. split; vm_compute; reflexivity. Qed.

(** On the reference generator, with shuffling on, the windows after a
    reset are drawn under seed 8 and differ from those under seed 7. *)
Example reset_windows_differ_shuffled :
  (self ←! Iterator_init 4 2 true (Some 7);
   '(_, self1) ←! @pulls lcg_random self [0];
   '(ws, _) ←! @pulls lcg_random (reset self1) [0; 0];
   Ok ws)
  ≠
  (self ←! Iterator_init 4 2 true (Some 7);
   '(ws, _) ←! @pulls lcg_random self [0; 0];
   Ok ws).
Proof. vm_compute. discriminate. Qed.

(** ** Construction *)

(** C8. A dataset shorter than one batch makes [Iterator.__init__] raise,
    and labels of another length than the strings make
    [SmilesIterator.__init__] raise; no object is returned, so a program
    that constructs and then pulls ends with that error and no window. *)
Theorem construction_fails_fast `{NumpyRandom} `{!ChemToolkit} :
  (∀ (N B : Z) (sh : bool) (sd : option Z) (gs : list RandomState),
     N < B →
     Iterator_init N B sh sd = Raise ValueError ∧
     (self ←! Iterator_init N B sh sd; pulls self gs) = Raise ValueError) ∧
  (∀ (L : Type) (xs : list string) (ys : list L) (gen : SmilesEnumerator)
     (B : Z) (sh : bool) (sd : option Z) (k : nat) (g : RandomState),
     length xs ≠ length ys →
     SmilesIterator_init xs (Some ys) gen B sh sd = Raise ValueError ∧
     (self ←! SmilesIterator_init xs (Some ys) gen B sh sd; next_many self k g)
     = Raise ValueError) ∧
  (∀ (L : Type) (xs : list string) (ys : option (list L)) (gen : SmilesEnumerator)
     (B : Z) (sh : bool) (sd : option Z) (k : nat) (g : RandomState),
     Z.of_nat (length xs) < B →
     SmilesIterator_init xs ys gen B sh sd = Raise ValueError ∧
     (self ←! SmilesIterator_init xs ys gen B sh sd; next_many self k g)
     = Raise ValueError).
Proof.
  assert (Hshort : ∀ N B sh sd, N < B → Iterator_init N B sh sd = Raise ValueError).
  { intros N B sh sd HNB. unfold Iterator_init.
    destruct (Z.ltb_spec N B); [done|lia]. }
  split; [|split].
  - intros N B sh sd gs HNB. by rewrite Hshort.
  - intros L xs ys gen B sh sd k g Hne.
    assert (Hinit : SmilesIterator_init xs (Some ys) gen B sh sd = Raise ValueError).
    { unfold SmilesIterator_init.
      destruct (Nat.eqb_spec (length xs) (length ys)); [done|]. done. }
    by rewrite Hinit.
  - intros L xs ys gen B sh sd k g HNB.
    assert (Hinit : SmilesIterator_init xs ys gen B sh sd = Raise ValueError).
    { unfold SmilesIterator_init.
      destruct (match ys with Some l => _ | None => _ end); [done|].
      by rewrite Hshort. }
    by rewrite Hinit.
Qed.

Example construction_short_dataset :
  Iterator_init 2 3 false None = Raise ValueError.
Proof. reflexivity. Qed.

Example construction_label_mismatch :
  SmilesIterator_init ["CCO"; "CCN"] (Some [1; 2; 3])
    (SmilesEnumerator_init "CON" 5 true true false false) 1 false None
  = Raise ValueError.
Proof. reflexivity. Qed.

(** A well-formed construction does return, and pulls do yield. *)
Example construction_ok_then_next :
  (self ←! SmilesIterator_init ["CCO"; "CCN"] (Some [10; 20])
             (SmilesEnumerator_init "CON" 3 true true false false) 1 false None;
   batches ←! @next_many lcg_random identity_toolkit Z self 2 0;
   Ok ((λ b, (rows b.1, b.2)) <$> batches))
  = Ok [([[[1; 0; 0]; [1; 0; 0]; [0; 1; 0]]], Some [10]);
        ([[[1; 0; 0]; [1; 0; 0]; [0; 0; 1]]], Some [20])].
Proof. vm_compute. reflexivity. Qed.

(** ** The vocabulary dictionaries *)

Lemma py_enumerate_snoc {A : Type} (l : list A) (a : A) :
  py_enumerate (l ++ [a]) = py_enumerate l ++ [(length l, a)].
Proof.
  unfold py_enumerate. rewrite imap_app. simpl. by rewrite Nat.add_0_r.
Qed.

Lemma length_chars (s : string) : length (chars s) = String.length s.
Proof. induction s as [|c s IH]; simpl; [done|]. by rewrite IH. Qed.

Lemma char_to_int_of_snoc (cs : list ascii) (a : ascii) :
  char_to_int_of (cs ++ [a]) = <[a := length cs]> (char_to_int_of cs).
Proof. unfold char_to_int_of. by rewrite py_enumerate_snoc, foldl_app. Qed.

Lemma int_to_char_of_snoc (cs : list ascii) (a : ascii) :
  int_to_char_of (cs ++ [a]) = <[length cs := a]> (int_to_char_of cs).
Proof. unfold int_to_char_of. by rewrite py_enumerate_snoc, foldl_app. Qed.

(** [_int_to_char] is the character list read by position. *)
Lemma int_to_char_of_lookup (cs : list ascii) (i : nat) : int_to_char_of cs !! i = cs !! i.
Proof.
  induction cs as [|a cs IH] using rev_ind; [done|].
  rewrite int_to_char_of_snoc. destruct (decide (i = length cs)) as [->|Hne].
  - rewrite lookup_insert_eq. by rewrite list_lookup_middle.
  - rewrite lookup_insert_ne by done. rewrite IH.
    destruct (decide (i < length cs)%nat).
    + by rewrite lookup_app_l.
    + rewrite !lookup_ge_None_2; [done|rewrite length_app; simpl; lia|lia].
Qed.

(** [_char_to_int] sends a character to a position where it stands. *)
Lemma char_to_int_of_sound (cs : list ascii) (c : ascii) (k : nat) :
  char_to_int_of cs !! c = Some k → cs !! k = Some c.
Proof.
  induction cs as [|a cs IH] using rev_ind; [done|].
  rewrite char_to_int_of_snoc. destruct (decide (a = c)) as [->|Hne].
  - rewrite lookup_insert_eq. intros [= <-]. by rewrite list_lookup_middle.
  - rewrite lookup_insert_ne by done. intros Hk.
    apply lookup_app_l_Some. by apply IH.
Qed.

Lemma char_to_int_of_defined (cs : list ascii) (c : ascii) :
  c ∈ cs → is_Some (char_to_int_of cs !! c).
Proof.
  induction cs as [|a cs IH] using rev_ind; [by intros ?%elem_of_nil|].
  rewrite char_to_int_of_snoc. intros Hin. destruct (decide (a = c)) as [->|Hne].
  - rewrite lookup_insert_eq. eauto.
  - rewrite lookup_insert_ne by done. apply IH.
    apply elem_of_app in Hin as [?|Hin]; [done|].
    apply list_elem_of_singleton in Hin. congruence.
Qed.

(** Without repeats, it is the inverse of [_int_to_char]. *)
Lemma char_to_int_of_NoDup (cs : list ascii) (c : ascii) (k : nat) :
  NoDup cs → cs !! k = Some c → char_to_int_of cs !! c = Some k.
Proof.
  induction cs as [|a cs IH] using rev_ind; [done|].
  intros Hnd Hk. rewrite char_to_int_of_snoc.
  apply NoDup_app in Hnd as (Hnd & Hnot & _).
  destruct (decide (k < length cs)%nat) as [Hlt|Hge].
  - rewrite lookup_app_l in Hk by done.
    assert (a ≠ c).
    { intros ->. apply (Hnot c); [|by left]. by eapply list_elem_of_lookup_2. }
    rewrite lookup_insert_ne by done. by apply IH.
  - assert (k = length cs) as ->.
    { apply lookup_lt_Some in Hk. rewrite length_app in Hk. simpl in Hk. lia. }
    rewrite list_lookup_middle in Hk by done. injection Hk as ->.
    by rewrite lookup_insert_eq.
Qed.

(** ** fit *)

Lemma chars_append (s1 s2 : string) :
  chars (String.append s1 s2) = chars s1 ++ chars s2.
Proof. induction s1 as [|c s1 IH]; simpl; [done|]. by rewrite <- IH. Qed.

Lemma chars_join (l : list string) : chars (join l) = l ≫= chars.
Proof.
  induction l as [|s l IH]; [done|].
  cbn [join foldr]. rewrite chars_append. fold (join l). by rewrite IH.
Qed.

Global Instance single_inj : Inj (=) (=) single.
Proof. by intros c1 c2 [= ->]. Qed.

Lemma chars_join_singles (cs : list ascii) : chars (join (single <$> cs)) = cs.
Proof.
  induction cs as [|c cs IH]; [done|].
  rewrite fmap_cons. cbn [join foldr]. rewrite chars_append.
  fold (join (single <$> cs)). by rewrite IH.
Qed.

Lemma singles_of_join (l : list string) :
  Forall (λ e, String.length e = 1%nat) l → l = single <$> chars (join l).
Proof.
  induction 1 as [|e l He _ IH]; [done|].
  destruct e as [|c [|? ?]]; try discriminate.
  cbn [join foldr]. rewrite chars_append. fold (join l).
  change (chars (String c "")) with [c]. cbn [app]. rewrite fmap_cons.
  by rewrite <- IH.
Qed.

Lemma foldl_max_spec (l : list Z) :
  ∀ z : Z, foldl Z.max z l ∈ z :: l ∧ Forall (λ y, y ≤ foldl Z.max z l) (z :: l).
Proof.
  induction l as [|a l IH]; intros z; simpl.
  - split; [by left|]. by repeat constructor.
  - destruct (IH (Z.max z a)) as [Hin Hall].
    apply Forall_cons in Hall as [Hm Hall]. split.
    + apply elem_of_cons in Hin as [Heq|Hin]; [|by do 2 right].
      rewrite Heq. destruct (Z.max_spec z a) as [[_ ->]|[_ ->]];
        [right; left|left]; done.
    + repeat constructor; [lia|lia|done].
Qed.

Lemma set_charset_wf (self : SmilesEnumerator) (cs : string) :
  codec_wf (set_charset self cs).
Proof. unfold codec_wf. simpl. by rewrite length_chars. Qed.

Lemma fit_wf `{PySetOrder} (self : SmilesEnumerator)
    (smiles extra_chars : list string) (extra_pad : Z) :
  codec_wf (fit self smiles extra_chars extra_pad).1.
Proof.
  unfold fit. destruct (py_max _); apply set_charset_wf.
Qed.

(** The characters [fit] leaves in [charset]. *)
Lemma fit_charset_spec `{PySetOrder} (self : SmilesEnumerator)
    (smiles extra_chars : list string) (extra_pad : Z) :
  Forall (λ e, String.length e = 1%nat) extra_chars →
  (∀ c : ascii,
     c ∈ chars (charset (fit self smiles extra_chars extra_pad).1) ↔
     (∃ s, s ∈ smiles ∧ c ∈ chars s) ∨ single c ∈ extra_chars) ∧
  NoDup (chars (charset (fit self smiles extra_chars extra_pad).1)).
Proof.
  intros Hextra.
  set (X := py_set_of_str (join smiles) ∪ list_to_set extra_chars).
  set (cs := chars (join (set_iter X))).
  assert (Hcs : chars (charset (fit self smiles extra_chars extra_pad).1) = cs).
  { unfold fit. by destruct (py_max _). }
  rewrite Hcs. clear Hcs.
  assert (HX1 : ∀ e, e ∈ X → String.length e = 1%nat).
  { intros e. unfold X, py_set_of_str.
    rewrite elem_of_union, !elem_of_list_to_set, list_elem_of_fmap.
    intros [(c & -> & _)|He]; [done|].
    by eapply (proj1 (Forall_forall _ _) Hextra). }
  assert (Hiter : set_iter X = single <$> cs).
  { apply singles_of_join. apply Forall_forall. intros e He. apply HX1.
    rewrite set_iter_perm in He. by apply elem_of_elements in He. }
  split.
  - intros c.
    assert (Hmem : c ∈ cs ↔ single c ∈ X).
    { rewrite <- elem_of_elements, <- set_iter_perm, Hiter.
      rewrite list_elem_of_fmap. split; [eauto|].
      by intros (c' & ->%(inj single) & ?). }
    rewrite Hmem. unfold X, py_set_of_str.
    rewrite elem_of_union, !elem_of_list_to_set, list_elem_of_fmap.
    rewrite chars_join. split.
    + intros [(c' & ->%(inj single) & Hc)|?]; [left|by right].
      apply list_elem_of_bind in Hc as (s & ? & ?). eauto.
    + intros [(s & ? & ?)|?]; [left|by right].
      exists c. split; [done|]. apply list_elem_of_bind. eauto.
  - apply (NoDup_fmap_1 single). rewrite <- Hiter, set_iter_perm.
    apply NoDup_elements.
Qed.

(** On a non-empty list [fit] returns, with [pad] set from a longest
    string. *)
Lemma fit_pad_spec `{PySetOrder} (self : SmilesEnumerator)
    (smiles extra_chars : list string) (extra_pad : Z) :
  smiles ≠ [] →
  ∃ s, s ∈ smiles ∧ (∀ s', s' ∈ smiles → len s' ≤ len s) ∧
       (fit self smiles extra_chars extra_pad).2 = Ok () ∧
       pad (fit self smiles extra_chars extra_pad).1 = len s + extra_pad.
Proof.
  intros Hne. destruct smiles as [|s0 smiles']; [done|].
  unfold fit. cbn [fmap list_fmap py_max fst snd set_pad pad].
  destruct (foldl_max_spec (len <$> smiles') (len s0)) as [Hin Hall].
  rewrite <- fmap_cons in Hin, Hall.
  apply list_elem_of_fmap in Hin as (s & Hs & Hin).
  exists s. split; [done|]. split; [|by rewrite Hs].
  intros s' Hs'. rewrite <- Hs.
  apply (proj1 (Forall_forall _ _) Hall). by apply list_elem_of_fmap_2.
Qed.

(** C6. After [fit] on a non-empty [strings] with one-character
    [extra_chars], a character is in the vocabulary exactly when it occurs
    in one of the strings or is one of the extra characters; no character
    is listed twice; [_char_to_int] and [_int_to_char] are inverse of each
    other between the characters of the vocabulary and the positions below
    [_charlen]; and [pad] is the length of a longest string plus
    [extra_pad]. This holds in whatever order Python walks the set. *)
Theorem fit_vocabulary `{PySetOrder} (self : SmilesEnumerator)
    (smiles extra_chars : list string) (extra_pad : Z) :
  smiles ≠ [] →
  Forall (λ e, String.length e = 1%nat) extra_chars →
  ∃ self',
    fit self smiles extra_chars extra_pad = (self', Ok ()) ∧
    (∀ c : ascii,
       c ∈ chars (charset self') ↔
       (∃ s, s ∈ smiles ∧ c ∈ chars s) ∨ single c ∈ extra_chars) ∧
    NoDup (chars (charset self')) ∧
    _charlen self' = length (chars (charset self')) ∧
    (∀ (c : ascii) (i : nat),
       _char_to_int self' !! c = Some i ↔ _int_to_char self' !! i = Some c) ∧
    (∀ c : ascii, is_Some (_char_to_int self' !! c) ↔ c ∈ chars (charset self')) ∧
    (∀ i : nat, is_Some (_int_to_char self' !! i) ↔ (i < _charlen self')%nat) ∧
    (∃ s, s ∈ smiles ∧ (∀ s', s' ∈ smiles → len s' ≤ len s) ∧
          pad self' = len s + extra_pad).
Proof.
  intros Hne Hextra.
  destruct (fit_charset_spec self smiles extra_chars extra_pad Hextra)
    as [Hmem Hnd].
  destruct (fit_pad_spec self smiles extra_chars extra_pad Hne)
    as (s & Hs & Hlong & Hok & Hpad).
  destruct (fit_wf self smiles extra_chars extra_pad) as (Hlen & Hc2i & Hi2c).
  destruct (fit self smiles extra_chars extra_pad) as [self' r].
  cbn [fst snd] in *. subst r. exists self'. unfold charset in *.
  split; [done|]. split; [done|]. split; [done|]. split; [done|].
  split; [|split; [|split]].
  - intros c i. rewrite Hc2i, Hi2c, int_to_char_of_lookup. split.
    + apply char_to_int_of_sound.
    + by apply char_to_int_of_NoDup.
  - intros c. rewrite Hc2i. split.
    + intros [k Hk]. apply char_to_int_of_sound in Hk.
      by eapply list_elem_of_lookup_2.
    + apply char_to_int_of_defined.
  - intros i. rewrite Hi2c, int_to_char_of_lookup, Hlen.
    apply lookup_lt_is_Some.
  - eauto.
Qed.

Lemma fit_vocabulary_witness :
  ∃ self',
    @fit elements_order (SmilesEnumerator_init "" 120 true true true false)
      ["CCO"; "CCN"] [backslash] 2 = (self', Ok ()) ∧
    (∀ c : ascii,
       c ∈ chars (charset self') ↔
       (∃ s, s ∈ ["CCO"; "CCN"] ∧ c ∈ chars s) ∨ single c ∈ [backslash]) ∧
    NoDup (chars (charset self')) ∧
    _charlen self' = length (chars (charset self')) ∧
    (∀ (c : ascii) (i : nat),
       _char_to_int self' !! c = Some i ↔ _int_to_char self' !! i = Some c) ∧
    (∀ c : ascii, is_Some (_char_to_int self' !! c) ↔ c ∈ chars (charset self')) ∧
    (∀ i : nat, is_Some (_int_to_char self' !! i) ↔ (i < _charlen self')%nat) ∧
    (∃ s, s ∈ ["CCO"; "CCN"] ∧ (∀ s', s' ∈ ["CCO"; "CCN"] → len s' ≤ len s) ∧
          pad self' = len s + 2).
Proof.
  apply (@fit_vocabulary elements_order).
  - discriminate.
  - repeat constructor.
Defined.

(** The scenario of C6, in whatever order the set is walked. *)
Example fit_scenario `{PySetOrder} (self : SmilesEnumerator) :
  let r := fit self ["CCO"; "CCN"] [backslash] 2 in
  r.2 = Ok () ∧
  chars (charset r.1) ≡ₚ chars "CON" ++ chars backslash ∧
  _charlen r.1 = 4%nat ∧
  pad r.1 = 5.
Proof.
  cbn zeta. unfold fit. cbn [py_max fmap list_fmap fst snd].
  split; [done|].
  cbn [set_pad set_charset charset _charset _charlen pad].
  set (X := py_set_of_str _ ∪ _).
  assert (Hperm : chars (join (set_iter X)) ≡ₚ chars "CON" ++ chars backslash).
  { rewrite chars_join, set_iter_perm, <- chars_join.
    subst X. apply (bool_decide_unpack _). vm_compute. done. }
  split; [done|]. split; [|done].
  rewrite <- length_chars, Hperm. done.
Qed.

(** ** One-hot rows *)

Lemma np_index_nonneg (size : nat) (i : nat) :
  (i < size)%nat → np_index size (Z.of_nat i) = Some i.
Proof.
  intros Hi. unfold np_index. rewrite bool_decide_eq_true_2 by lia.
  by rewrite Nat2Z.id.
Qed.

Lemma sum_cells_zeros (d : nat) : sum_cells (replicate d 0) = 0.
Proof. induction d as [|d IH]; [done|]. simpl. by rewrite IH. Qed.

Lemma sum_cells_app (l1 l2 : list Z) :
  sum_cells (l1 ++ l2) = sum_cells l1 + sum_cells l2.
Proof. induction l1 as [|a l1 IH]; simpl; [done|]. rewrite IH. lia. Qed.

Lemma sum_cells_one_hot (d k : nat) :
  (k < d)%nat → sum_cells (<[k := 1]> (replicate d 0)) = 1.
Proof.
  intros Hk. rewrite insert_replicate_lt by done.
  rewrite sum_cells_app. cbn [sum_cells foldr].
  fold (sum_cells (replicate (d - S k) 0)). by rewrite !sum_cells_zeros.
Qed.

Lemma argmax_from_zeros (best_i : nat) (best : Z) (i d : nat) :
  0 ≤ best → argmax_from best_i best i (replicate d 0) = best_i.
Proof.
  intros Hb. revert i. induction d as [|d IH]; intros i; [done|].
  simpl. destruct (Z.ltb_spec best 0); [lia|]. apply IH.
Qed.

Lemma argmax_from_zeros_one (best_i i a : nat) (rest : list Z) :
  argmax_from best_i 0 i (replicate a 0 ++ 1 :: rest)
  = argmax_from (i + a) 1 (S (i + a)) rest.
Proof.
  revert i. induction a as [|a IH]; intros i; simpl.
  - by rewrite Nat.add_0_r.
  - rewrite IH. by replace (S i + a)%nat with (i + S a)%nat by lia.
Qed.

Lemma np_argmax_one_hot (d k : nat) :
  (k < d)%nat → np_argmax (<[k := 1]> (replicate d 0)) = k.
Proof.
  intros Hk. rewrite insert_replicate_lt by done.
  destruct k as [|k]; simpl.
  - by apply argmax_from_zeros.
  - rewrite argmax_from_zeros_one. by apply argmax_from_zeros.
Qed.

Section RoundTrip.
Context (cs : list ascii).

Let depth : nat := length cs.
Let c2i : gmap ascii nat := char_to_int_of cs.
Let zero : list Z := replicate depth 0.

(** Writing a string of vocabulary characters into blank positions that
    are all inside the matrix puts their one-hot positions there and
    counts no error. *)
Lemma encode_chars_blank (ss : list ascii) :
  ∀ (off j : Z) (pre : list (list Z)) (r : nat),
  (∀ c, c ∈ ss → c ∈ cs) →
  j + off = Z.of_nat (length pre) →
  (length ss ≤ r)%nat →
  encode_chars c2i off j ss (pre ++ replicate r zero)
  = (pre ++ (one_hot_of c2i depth <$> ss) ++ replicate (r - length ss) zero, 0).
Proof.
  induction ss as [|c ss IH]; intros off j pre r Hin Hj Hr.
  - simpl. by rewrite Nat.sub_0_r.
  - cbn [length] in Hr. destruct r as [|r]; [lia|].
    destruct (char_to_int_of_defined cs c) as [k Hk]; [apply Hin; by left|].
    assert (Hkd : (k < depth)%nat).
    { apply char_to_int_of_sound in Hk. by apply lookup_lt_Some in Hk. }
    cbn [encode_chars replicate]. fold c2i in Hk. rewrite Hk.
    cbn [mbind option_bind].
    unfold set_one. rewrite Hj, np_index_nonneg
      by (rewrite length_app; cbn [length]; lia).
    cbn [mbind option_bind]. rewrite list_lookup_middle by done.
    cbn [mbind option_bind].
    replace (length zero) with depth by (unfold zero; by rewrite length_replicate).
    rewrite np_index_nonneg by done.
    cbn [mbind option_bind].
    replace (length pre) with (length pre + 0)%nat at 1 by lia.
    rewrite insert_app_r. cbn [insert list_insert].
    replace (pre ++ <[k := 1]> zero :: replicate r zero)
      with ((pre ++ [<[k := 1]> zero]) ++ replicate r zero)
      by (by rewrite <- app_assoc).
    rewrite (IH off (j + 1) (pre ++ [<[k := 1]> zero]) r).
    + rewrite <- !app_assoc. cbn [app fmap list_fmap length Nat.sub].
      by replace (one_hot_of c2i depth c) with (<[k := 1]> zero)
        by (unfold one_hot_of; by rewrite Hk).
    + intros c' Hc'. apply Hin. by right.
    + rewrite length_app. simpl. lia.
    + lia.
Qed.

Lemma filter_one_hot_rows (a b : nat) (ss : list ascii) :
  (∀ c, c ∈ ss → c ∈ cs) →
  filter (λ cells, sum_cells cells = 1)
    (replicate a zero ++ (one_hot_of c2i depth <$> ss) ++ replicate b zero)
  = one_hot_of c2i depth <$> ss.
Proof.
  intros Hin.
  assert (Hz : ∀ m, filter (λ cells, sum_cells cells = 1) (replicate m zero) = []).
  { induction m as [|m IH]; [done|]. cbn [replicate].
    rewrite filter_cons_False; [done|]. unfold zero. by rewrite sum_cells_zeros. }
  rewrite !filter_app, !Hz, app_nil_r. cbn [app].
  induction ss as [|c ss IH]; [done|].
  rewrite fmap_cons, filter_cons_True.
  - f_equal. apply IH. intros c' ?. apply Hin. by right.
  - destruct (char_to_int_of_defined cs c) as [k Hk]; [apply Hin; by left|].
    unfold one_hot_of. fold c2i in Hk. rewrite Hk.
    apply sum_cells_one_hot. apply char_to_int_of_sound in Hk.
    by apply lookup_lt_Some in Hk.
Qed.

Lemma decode_one_hot_rows (ss : list ascii) :
  (∀ c, c ∈ ss → c ∈ cs) →
  omapM (λ cells, match int_to_char_of cs !! np_argmax cells with
                  | Some c => Ok c
                  | None => Raise KeyError
                  end) (one_hot_of c2i depth <$> ss)
  = Ok ss.
Proof.
  induction ss as [|c ss IH]; intros Hin; [done|].
  rewrite fmap_cons. cbn [omapM].
  destruct (char_to_int_of_defined cs c) as [k Hk]; [apply Hin; by left|].
  fold c2i in Hk.
  replace (one_hot_of c2i depth c) with (<[k := 1]> (replicate depth 0))
    by (unfold one_hot_of; by rewrite Hk).
  apply char_to_int_of_sound in Hk. pose proof (lookup_lt_Some _ _ _ Hk).
  rewrite np_argmax_one_hot by done. rewrite int_to_char_of_lookup, Hk.
  cbn [obind]. rewrite IH by (intros c' ?; apply Hin; by right). done.
Qed.

End RoundTrip.

(** ** Encode, then decode *)

(** C2, as the code has it. With a vocabulary of at least one character
    and enumeration off, a string of vocabulary characters no longer than
    [pad] is encoded without error and decoded back to itself, under
    either padding. *)
Theorem transform_reverse_transform `{NumpyRandom} `{!ChemToolkit}
    (cs : string) (p : Z) (lp iso canon : bool) (s : string) (g : RandomState) :
  cs ≠ "" →
  (∀ c, c ∈ chars s → c ∈ chars cs) →
  len s ≤ p →
  ∃ v,
    transform (SmilesEnumerator_init cs p lp iso false canon) [s] g = Ok (v, 0, g) ∧
    reverse_transform (SmilesEnumerator_init cs p lp iso false canon) v = Ok [s].
Proof.
  intros Hcs Hin Hlen.
  set (depth := length (chars cs)).
  set (c2i := char_to_int_of (chars cs)).
  set (zero := replicate depth 0).
  set (l := length (chars s)).
  assert (Hl : len s = Z.of_nat l) by (unfold len, l; by rewrite length_chars).
  assert (Hrow : ∃ a b,
    (if lp then encode_chars c2i (p - len s) 0 (chars s)
                  (replicate (Z.to_nat p) zero)
     else encode_chars c2i 0 0 (chars s) (replicate (Z.to_nat p) zero))
    = (replicate a zero ++ (one_hot_of c2i depth <$> chars s) ++ replicate b zero, 0)).
  { destruct lp.
    - exists (Z.to_nat (p - len s)), (l - l)%nat.
      replace (Z.to_nat p) with (Z.to_nat (p - len s) + l)%nat by lia.
      rewrite replicate_add.
      apply (encode_chars_blank (chars cs)); [done| |done].
      rewrite length_replicate. lia.
    - exists 0%nat, (Z.to_nat p - l)%nat.
      apply (encode_chars_blank (chars cs) (chars s) 0 0 []); [done|done|].
      fold l. lia. }
  destruct Hrow as (a & b & Hrow).
  eexists. split.
  - unfold transform, SmilesEnumerator_init, set_charset.
    cbn [pad _charlen _char_to_int enumerate leftpad].
    destruct (Z.ltb_spec p 0); [unfold len in *; lia|].
    cbn [transform_loop]. unfold transform_one.
    cbn [pad _charlen _char_to_int enumerate leftpad obind].
    rewrite <- length_chars. fold depth zero c2i.
    destruct lp; rewrite Hrow; reflexivity.
  - unfold reverse_transform, SmilesEnumerator_init, set_charset.
    cbn [shape rows snd _int_to_char omapM]. unfold decode_row.
    subst zero c2i depth.
    rewrite (filter_one_hot_rows (chars cs)) by done.
    destruct (decide (length (chars cs) = 0%nat)) as [Hd|_].
    { destruct cs; [done|discriminate Hd]. }
    rewrite (decode_one_hot_rows (chars cs)) by done. cbn [obind].
    unfold chars. by rewrite string_of_list_ascii_of_string.
Qed.

Lemma transform_reverse_transform_witness :
  ∃ v,
    @transform lcg_random identity_toolkit
      (SmilesEnumerator_init "ABC" 5 true true false false) ["ABC"] 0
    = Ok (v, 0, 0) ∧
    @reverse_transform
      (SmilesEnumerator_init "ABC" 5 true true false false) v = Ok ["ABC"].
Proof.
  apply (@transform_reverse_transform lcg_random identity_toolkit
           "ABC" 5 true true false "ABC" 0).
  - discriminate.
  - done.
  - vm_compute. discriminate.
Defined.

(** The left-padded scenario of the specification: positions 0 and 1 are
    blank and positions 2, 3, 4 carry A, B, C. *)
Example transform_left_padded :
  (λ r, (rows r.1.1, r.1.2)) <$>
    (match @transform lcg_random identity_toolkit
             (SmilesEnumerator_init "ABC" 5 true true false false) ["ABC"] 0 with
     | Ok r => Some r
     | Raise _ => None
     end)
  = Some ([[[0; 0; 0]; [0; 0; 0]; [1; 0; 0]; [0; 1; 0]; [0; 0; 1]]], 0).
Proof. vm_compute. reflexivity. Qed.

(** C2, as stated, fails on the empty vocabulary: the empty string is
    encoded, and decoding raises, since [argmax] is taken along an axis of
    length zero. *)
Lemma reverse_transform_empty_vocabulary :
  ∃ v,
    @transform lcg_random identity_toolkit
      (SmilesEnumerator_init "" 3 true true false false) [""] 0 = Ok (v, 0, 0) ∧
    @reverse_transform (SmilesEnumerator_init "" 3 true true false false) v
    = Raise ValueError.
Proof. eexists. split; vm_compute; reflexivity. Qed.

(** ** Strings longer than [pad] *)

Lemma np_index_range (size : nat) (i : Z) :
  - Z.of_nat size ≤ i < Z.of_nat size →
  ∃ p, np_index size i = Some p ∧ (p < size)%nat.
Proof.
  intros Hi. unfold np_index. destruct (decide (0 ≤ i)).
  - rewrite bool_decide_eq_true_2 by lia. eexists. split; [done|lia].
  - rewrite bool_decide_eq_false_2 by lia.
    rewrite bool_decide_eq_true_2 by lia. eexists. split; [done|lia].
Qed.

(** Under left padding every index from [pad - l] on is accepted as long
    as [l ≤ 2 * pad]: the negative ones count from the end of the row. So
    no error is counted for a string of vocabulary characters whose
    length is between [pad] and [2 * pad]. *)
Lemma encode_chars_wraps (cs : list ascii) (ss : list ascii) :
  ∀ (off j : Z) (m : list (list Z)),
  (∀ c, c ∈ ss → c ∈ cs) →
  Forall (λ cells, length cells = length cs) m →
  - Z.of_nat (length m) ≤ j + off →
  j + off + Z.of_nat (length ss) ≤ Z.of_nat (length m) →
  (encode_chars (char_to_int_of cs) off j ss m).2 = 0.
Proof.
  induction ss as [|c ss IH]; intros off j m Hin Hall Hlo Hhi; [done|].
  cbn [length] in Hhi. cbn [encode_chars].
  destruct (char_to_int_of_defined cs c) as [k Hk]; [apply Hin; by left|].
  rewrite Hk. cbn [mbind option_bind]. unfold set_one.
  destruct (np_index_range (length m) (j + off)) as (p & -> & Hp); [lia|].
  cbn [mbind option_bind].
  destruct (lookup_lt_is_Some_2 m p Hp) as [cells Hcells]. rewrite Hcells.
  cbn [mbind option_bind].
  assert (Hlen : length cells = length cs).
  { eapply (proj1 (Forall_lookup _ _) Hall); done. }
  apply char_to_int_of_sound, lookup_lt_Some in Hk.
  rewrite Hlen, np_index_nonneg by done. cbn [mbind option_bind].
  apply IH.
  - intros c' ?. apply Hin. by right.
  - apply Forall_insert; [done|]. by rewrite length_insert.
  - rewrite length_insert. lia.
  - rewrite length_insert. lia.
Qed.

(** Where the index is not negative the loop does stop: at a character
    that is not in the vocabulary, and at the first position past the end
    of the row, with the characters before it written and one error
    counted. *)
Lemma encode_chars_app (c2i : gmap ascii nat) (ss1 ss2 : list ascii) :
  ∀ (off j : Z) (m : list (list Z)),
  encode_chars c2i off j (ss1 ++ ss2) m
  = let '(m1, e1) := encode_chars c2i off j ss1 m in
    if e1 =? 0 then encode_chars c2i off (j + Z.of_nat (length ss1)) ss2 m1
    else (m1, e1).
Proof.
  induction ss1 as [|c ss1 IH]; intros off j m.
  - cbn [app encode_chars length]. by rewrite Z.add_0_r.
  - cbn [app encode_chars length].
    destruct (c2i !! c ≫= _) as [m'|]; [|done].
    rewrite IH. by replace (j + 1 + Z.of_nat (length ss1))
      with (j + Z.of_nat (S (length ss1))) by lia.
Qed.

Lemma encode_chars_unknown (cs pre post : list ascii) (c : ascii) (off j : Z)
    (before : list (list Z)) (r : nat) :
  (∀ a, a ∈ pre → a ∈ cs) → c ∉ cs →
  j + off = Z.of_nat (length before) → (length pre ≤ r)%nat →
  encode_chars (char_to_int_of cs) off j (pre ++ c :: post)
    (before ++ replicate r (replicate (length cs) 0))
  = (before ++ (one_hot_of (char_to_int_of cs) (length cs) <$> pre)
       ++ replicate (r - length pre) (replicate (length cs) 0), 1).
Proof.
  intros Hpre Hc Hj Hr. rewrite encode_chars_app.
  rewrite (encode_chars_blank cs pre off j before r) by done.
  cbn [Z.eqb encode_chars].
  destruct (char_to_int_of cs !! c) as [k|] eqn:Hk; [|done].
  exfalso. apply Hc. apply char_to_int_of_sound in Hk.
  by eapply list_elem_of_lookup_2.
Qed.

Lemma encode_chars_overflow (cs pre post : list ascii) (c : ascii) (off j : Z)
    (before : list (list Z)) :
  (∀ a, a ∈ pre → a ∈ cs) →
  j + off = Z.of_nat (length before) →
  encode_chars (char_to_int_of cs) off j (pre ++ c :: post)
    (before ++ replicate (length pre) (replicate (length cs) 0))
  = (before ++ (one_hot_of (char_to_int_of cs) (length cs) <$> pre), 1).
Proof.
  intros Hpre Hj. rewrite encode_chars_app.
  rewrite (encode_chars_blank cs pre off j before (length pre)) by done.
  rewrite Nat.sub_diag. cbn [Z.eqb replicate encode_chars]. rewrite app_nil_r.
  destruct (char_to_int_of cs !! c) as [k|]; [|done].
  cbn [mbind option_bind]. unfold set_one.
  replace (j + Z.of_nat (length pre) + off)
    with (Z.of_nat (length (before ++ (one_hot_of (char_to_int_of cs) (length cs) <$> pre))))
    by (rewrite length_app, length_fmap; lia).
  unfold np_index. rewrite !bool_decide_eq_false_2 by lia. done.
Qed.

(** C4 at a failing input: vocabulary AB, [pad = 2], the string ABA. With
    left padding the three characters go to positions -1, 0 and 1, all
    accepted: nothing stops, no error is counted, and the row reads BA.
    With right padding the third character is refused at position 2 and
    one error is counted. *)
Theorem transform_overlong_left_padded :
  @transform lcg_random identity_toolkit
    (SmilesEnumerator_init "AB" 2 true true false false) ["ABA"] 0
  = Ok ({| shape := (1%nat, 2%nat, 2%nat); rows := [[[0; 1]; [1; 0]]] |}, 0, 0)
  ∧
  @transform lcg_random identity_toolkit
    (SmilesEnumerator_init "AB" 2 false true false false) ["ABA"] 0
  = Ok ({| shape := (1%nat, 2%nat, 2%nat); rows := [[[1; 0]; [0; 1]]] |}, 1, 0).
Proof. split; vm_compute; reflexivity. Qed.

(** ** Hard negatives *)

Lemma py_enumerate_elem {A : Type} (l : list A) (i : nat) (a : A) :
  (i, a) ∈ py_enumerate l ↔ l !! i = Some a.
Proof.
  unfold py_enumerate. rewrite elem_of_lookup_imap. split.
  - by intros (i' & a' & [= -> ->] & ?).
  - eauto.
Qed.

Lemma py_enumerate_fst {A : Type} (l : list A) :
  (py_enumerate l).*1 = seq 0 (length l).
Proof.
  unfold py_enumerate. rewrite fmap_imap.
  rewrite (imap_ext _ (λ j _, id j)) by done.
  rewrite (imap_seq_0 l id). apply list_fmap_id.
Qed.

Section HardNegatives.
Context `{NumpyRandom} `{!ChemToolkit} `{PySetOrder}.

Lemma choice_elem (smiles : list string) (g g' : RandomState) (s : string) :
  choice smiles g = Ok (s, g') → s ∈ smiles.
Proof.
  unfold choice. destruct smiles as [|s0 smiles]; [discriminate|].
  destruct (np_choice _ g) as [i g1].
  destruct (_ !! i) as [s'|] eqn:Hi; [|discriminate].
  intros [= <- <-]. by eapply list_elem_of_lookup_2.
Qed.

Lemma choice_defined (smiles : list string) (g : RandomState) :
  smiles ≠ [] → ∃ s g', choice smiles g = Ok (s, g').
Proof.
  intros Hne. unfold choice. destruct smiles as [|s0 smiles]; [done|].
  pose proof (np_choice_lt (length (s0 :: smiles)) g ltac:(simpl; lia)) as Hlt.
  destruct (np_choice _ g) as [i g1]. cbn [fst] in Hlt.
  destruct (lookup_lt_is_Some_2 _ _ Hlt) as [s ->]. eauto.
Qed.

(** When the [while] loop ends, the string it holds is not the row's own,
    and it comes from the pool if the first draw did. *)
Lemma resample_distinct (fuel : nat) :
  ∀ (smiles : list string) (smile h : string) (g : RandomState)
    (h' : string) (g' : RandomState),
  resample fuel smiles smile h g = Some (Ok (h', g')) →
  h' ≠ smile ∧ (h ∈ smiles → h' ∈ smiles).
Proof.
  induction fuel as [|fuel IH]; intros smiles smile h g h' g'; cbn [resample].
  - destruct (decide (h = smile)) as [Heq|Hne]; [discriminate|].
    by intros [= <- <-].
  - destruct (decide (h = smile)) as [Heq|Hne]; [|by intros [= <- <-]].
    destruct (choice smiles g) as [[h1 g1]|err] eqn:Hc; [|discriminate].
    intros Hr. apply IH in Hr as [? Hin]. split; [done|].
    intros _. apply Hin. by eapply choice_elem.
Qed.

(** When every string of the pool is the row's own, the [while] loop is
    still running after any number of turns. *)
Lemma resample_stuck (fuel : nat) :
  ∀ (smiles : list string) (smile h : string) (g : RandomState),
  smiles ≠ [] → (∀ s, s ∈ smiles → s = smile) → h = smile →
  resample fuel smiles smile h g = None.
Proof.
  induction fuel as [|fuel IH]; intros smiles smile h g Hne Hall ->;
    cbn [resample]; rewrite decide_True by done; [done|].
  destruct (choice_defined smiles g Hne) as (s & g' & Hc). rewrite Hc.
  apply IH; [done|done|]. apply Hall. by eapply choice_elem.
Qed.

Lemma hard_neg_loop_spec (fuel : nat) (smiles : list string)
    (todo : list (nat * string)) :
  ∀ (hn : list cell) (g : RandomState) (hn' : list cell) (g' : RandomState),
  NoDup (todo.*1) →
  (∀ idx smile, (idx, smile) ∈ todo → (idx < length hn)%nat) →
  hard_neg_loop fuel smiles todo hn g = Some (Ok (hn', g')) →
  length hn' = length hn ∧
  (∀ idx smile, (idx, smile) ∈ todo →
     ∃ h, hn' !! idx = Some (CStr h) ∧ h ≠ smile ∧ h ∈ smiles) ∧
  (∀ idx, idx ∉ todo.*1 → hn' !! idx = hn !! idx).
Proof.
  induction todo as [|[i0 s0] todo IH]; intros hn g hn' g' Hnd Hlt Hloop.
  - injection Hloop as <- <-. split; [done|]. split; [|done].
    by intros ?? ?%elem_of_nil.
  - cbn [hard_neg_loop] in Hloop.
    destruct (choice smiles g) as [[h0 g0]|e] eqn:Hc; [|discriminate].
    destruct (resample fuel smiles s0 h0 g0) as [[[h1 g1]|e1]|] eqn:Hr;
      [|discriminate|discriminate].
    apply resample_distinct in Hr as [Hneq Hin].
    specialize (Hin (choice_elem _ _ _ _ Hc)).
    rewrite fmap_cons in Hnd. apply NoDup_cons in Hnd as [Hfresh Hnd].
    apply IH in Hloop as (Hlen & Hdone & Hrest); [|done|].
    2:{ intros idx smile Hm. rewrite length_insert. eapply Hlt. by right. }
    rewrite length_insert in Hlen. split; [done|]. split.
    + intros idx smile [[= -> ->]|Hm]%elem_of_cons; [|by eapply Hdone].
      exists h1. split; [|done]. rewrite (Hrest i0 Hfresh).
      apply list_lookup_insert_eq. eapply Hlt. by left.
    + intros idx Hidx. rewrite fmap_cons in Hidx.
      apply not_elem_of_cons in Hidx as [Hne Hidx].
      rewrite (Hrest idx Hidx). by apply list_lookup_insert_ne.
Qed.

End HardNegatives.

(** ** The encode and decode steps always return *)

Lemma argmax_from_lt (cells : list Z) :
  ∀ (best_i : nat) (best : Z) (i : nat),
  (best_i < i)%nat → (argmax_from best_i best i cells < i + length cells)%nat.
Proof.
  induction cells as [|c cells IH]; intros best_i best i Hlt; simpl; [lia|].
  destruct (best <? c).
  - specialize (IH i c (S i) ltac:(lia)). lia.
  - specialize (IH best_i best (S i) ltac:(lia)). lia.
Qed.

Lemma np_argmax_lt (cells : list Z) :
  cells ≠ [] → (np_argmax cells < length cells)%nat.
Proof.
  destruct cells as [|c cells]; [done|]. intros _. simpl.
  pose proof (argmax_from_lt cells 0 c 1 ltac:(lia)). lia.
Qed.

Lemma encode_chars_shape (c2i : gmap ascii nat) (d : nat) (ss : list ascii) :
  ∀ (off j : Z) (m : list (list Z)),
  Forall (λ cells, length cells = d) m →
  Forall (λ cells, length cells = d) (encode_chars c2i off j ss m).1.
Proof.
  induction ss as [|c ss IH]; intros off j m Hm; [done|].
  cbn [encode_chars]. destruct (c2i !! c) as [k|]; [|done].
  cbn [mbind option_bind]. unfold set_one.
  destruct (np_index (length m) (j + off)) as [p|]; [|done].
  cbn [mbind option_bind].
  destruct (m !! p) as [cells|] eqn:Hp; [|done]. cbn [mbind option_bind].
  destruct (np_index (length cells) (Z.of_nat k)) as [k'|]; [|done].
  cbn [mbind option_bind]. apply IH.
  apply Forall_insert; [done|]. rewrite length_insert.
  eapply (proj1 (Forall_lookup _ _) Hm); done.
Qed.

Section Totality.
Context `{NumpyRandom} `{!ChemToolkit}.

Lemma transform_loop_total (self : SmilesEnumerator) (smiles : list string) :
  ∀ g : RandomState,
  (enumerate self = false ∨
   ∀ can iso s g, is_Some (rdkit_randomize can iso s g)) →
  ∃ ms errors g',
    transform_loop self smiles g = Ok (ms, errors, g') ∧
    length ms = length smiles ∧
    Forall (Forall (λ cells, length cells = _charlen self)) ms.
Proof.
  intros g Htool. revert g.
  induction smiles as [|ss smiles IH]; intros g.
  - exists [], 0, g. by repeat split.
  - cbn [transform_loop]. unfold transform_one.
    assert (Hrand : ∃ ss' g1,
      (if enumerate self then randomize_smiles self ss g else Ok (ss, g))
      = Ok (ss', g1)).
    { destruct Htool as [->|Htot]; [eauto|].
      destruct (enumerate self); [|eauto]. unfold randomize_smiles.
      destruct (Htot (canonical self) (isomericSmiles self) ss g) as [[ss' g1] ->].
      eauto. }
    destruct Hrand as (ss' & g1 & ->). cbn [obind].
    set (blank := replicate _ _).
    assert (Hblank : Forall (λ cells, length cells = _charlen self) blank).
    { apply Forall_replicate. by rewrite length_replicate. }
    destruct (IH g1) as (ms & errors & g' & Hloop & Hlen & Hall).
    destruct (leftpad self).
    + pose proof (encode_chars_shape (_char_to_int self) _ (chars ss')
                    (pad self - len ss') 0 blank Hblank) as Hsh.
      destruct (encode_chars _ _ _ _ blank) as [m e]. cbn [obind].
      rewrite Hloop. cbn [obind]. eexists _, _, _. split; [done|].
      split; [simpl; lia|]. by constructor.
    + pose proof (encode_chars_shape (_char_to_int self) _ (chars ss')
                    0 0 blank Hblank) as Hsh.
      destruct (encode_chars _ _ _ _ blank) as [m e]. cbn [obind].
      rewrite Hloop. cbn [obind]. eexists _, _, _. split; [done|].
      split; [simpl; lia|]. by constructor.
Qed.

Lemma decode_row_total (self : SmilesEnumerator) (v : list (list Z)) :
  codec_wf self → _charlen self ≠ 0%nat →
  Forall (λ cells, length cells = _charlen self) v →
  ∃ s, decode_row (_int_to_char self) (_charlen self) v = Ok s.
Proof.
  intros (Hlen & _ & Hi2c) Hne Hv. unfold decode_row.
  rewrite decide_False by done.
  assert (Hf : Forall (λ cells, length cells = _charlen self)
                 (filter (λ cells, sum_cells cells = 1) v)).
  { apply Forall_forall. intros cells [_ Hc]%list_elem_of_filter.
    by eapply (proj1 (Forall_forall _ _) Hv). }
  induction Hf as [|cells rest Hc _ IH]; [by eexists|].
  cbn [omapM].
  assert (Hlt : (np_argmax cells < length (chars (_charset self)))%nat).
  { rewrite <- Hlen, <- Hc. apply np_argmax_lt. intros ->. simpl in Hc. lia. }
  rewrite Hi2c, int_to_char_of_lookup.
  destruct (lookup_lt_is_Some_2 _ _ Hlt) as [c ->]. cbn [obind].
  destruct IH as [s IH]. rewrite <- Hi2c.
  destruct (omapM _ rest) as [cs|e]; [|discriminate]. by eexists.
Qed.

Lemma reverse_transform_total (self : SmilesEnumerator) (vect : ndarray3) :
  codec_wf self → _charlen self ≠ 0%nat →
  (shape vect).2 = _charlen self →
  Forall (Forall (λ cells, length cells = _charlen self)) (rows vect) →
  ∃ strs, reverse_transform self vect = Ok strs ∧
          length strs = length (rows vect).
Proof.
  intros Hwf Hne Hshape Hrows. unfold reverse_transform. rewrite Hshape.
  induction Hrows as [|v vs Hv _ IH]; [by exists []|].
  cbn [omapM]. destruct (decode_row_total self v Hwf Hne Hv) as [s ->].
  cbn [obind]. destruct IH as (strs & -> & Hlen). cbn [obind].
  exists (s :: strs). split; [done|]. simpl. by rewrite Hlen.
Qed.

End Totality.

Lemma np_repeat_elem {A : Type} (a : list A) (k : nat) (v : A) :
  v ∈ np_repeat a k ↔ v ∈ a ∧ k ≠ 0%nat.
Proof.
  unfold np_repeat. rewrite list_elem_of_bind. split.
  - intros (y & Hv & Hy). apply elem_of_replicate in Hv as [-> Hk]. done.
  - intros [Hv Hk]. exists v. split; [|done]. by apply elem_of_replicate.
Qed.

Lemma np_repeat_nonempty {A : Type} (a : list A) (k : nat) :
  a ≠ [] → k ≠ 0%nat → np_repeat a k ≠ [].
Proof.
  destruct a as [|v a]; [done|]. destruct k as [|k]; [done|]. done.
Qed.

Section Prefix.
Context `{NumpyRandom} `{!ChemToolkit} `{PySetOrder}.

(** The first four lines of both pairing routines: on a non-empty pool
    they raise only if the toolkit does. *)
Lemma fit_transform_decode_total (self : SmilesEnumerator)
    (smiles : list string) (g : RandomState) :
  smiles ≠ [] →
  (enumerate self = false ∨
   ∀ can iso s g, is_Some (rdkit_randomize can iso s g)) →
  ∃ self' v errors g' transformed,
    fit self smiles [backslash] 5 = (self', Ok ()) ∧
    transform self' smiles g = Ok (v, errors, g') ∧
    reverse_transform self' v = Ok transformed ∧
    length transformed = length smiles.
Proof.
  intros Hne Htool.
  destruct (fit_charset_spec self smiles [backslash] 5 ltac:(by repeat constructor))
    as [Hmem _].
  destruct (fit_pad_spec self smiles [backslash] 5 Hne)
    as (s & _ & _ & Hok & Hpad).
  pose proof (fit_wf self smiles [backslash] 5) as Hwf.
  destruct (fit self smiles [backslash] 5) as [self' r] eqn:Hfit.
  cbn [fst snd] in *. subst r.
  pose proof (proj1 Hwf) as Hcl. unfold charset in Hmem.
  assert (Henum : enumerate self' = enumerate self).
  { unfold fit in Hfit. destruct (py_max _); by injection Hfit as <-. }
  assert (Hcharlen : _charlen self' ≠ 0%nat).
  { rewrite Hcl. intros Hz. apply length_zero_iff_nil in Hz.
    assert (Hin : ascii_of_nat 92 ∈ chars (_charset self')).
    { apply Hmem. right. by left. }
    rewrite Hz in Hin. by apply elem_of_nil in Hin. }
  destruct (transform_loop_total self' smiles g) as (ms & errors & g' & Hloop & Hlen & Hall).
  { by rewrite Henum. }
  exists self'. eexists _, errors, g'.
  destruct (reverse_transform_total self'
              {| shape := (length smiles, Z.to_nat (pad self'), _charlen self');
                 rows := ms |} Hwf Hcharlen eq_refl Hall)
    as (strs & Hrev & Hstrs).
  exists strs. split; [done|]. split; [|split; [exact Hrev|]].
  - unfold transform. destruct (Z.ltb_spec (pad self') 0).
    + unfold len in Hpad. lia.
    + rewrite Hloop. done.
  - cbn [rows] in Hstrs. lia.
Qed.

End Prefix.

(** The table returned with [random_pairs] on. *)
Lemma hard_neg_table_enabled `{NumpyRandom} `{!ChemToolkit} `{PySetOrder}
    (fuel : nat) (self : SmilesEnumerator) (column : list string)
    (replication_count : nat) (rand_proba : Q) (g : RandomState)
    (df : DataFrame) (self' : SmilesEnumerator) (g' : RandomState) :
  enumerate_smiles_hard_neg fuel self column replication_count true
    rand_proba g = Some (Ok (df, self', g')) →
  sent1 df = np_repeat column replication_count ∧
  length (hard_neg df) = length (sent1 df) ∧
  ∀ (i : nat) (s : string), sent1 df !! i = Some s →
    ∃ x, hard_neg df !! i = Some (CStr x) ∧ x ∈ sent1 df ∧ x ≠ s.
Proof.
  unfold enumerate_smiles_hard_neg.
  set (smiles := np_repeat column replication_count).
  destruct (fit self smiles [backslash] 5) as [self1 fitted].
  destruct (obind fitted _) as [[transformed g1]|e]; [|discriminate].
  destruct (negb _); [discriminate|].
  destruct (hard_neg_loop _ _ _ _ _) as [[[hn g2]|e]|] eqn:Hloop;
    [|discriminate|discriminate].
  intros [= <- <- <-]. cbn [sent1 hard_neg].
  apply hard_neg_loop_spec in Hloop as (Hlen & Hdone & _).
  - rewrite length_replicate in Hlen. split; [done|]. split; [done|].
    intros i s Hs. apply py_enumerate_elem in Hs.
    destruct (Hdone i s Hs) as (h & Hh & Hne & Hin). eauto.
  - rewrite py_enumerate_fst. apply NoDup_seq.
  - intros idx smile Hm%py_enumerate_elem. rewrite length_replicate.
    by eapply lookup_lt_Some.
Qed.

(** C7, as the code has it. In every table [enumerate_smiles_hard_neg]
    returns, [hard_neg] differs from [sent1] on every row: with
    [random_pairs] on it is a string of the replicated pool other than
    the row's own, and with [random_pairs] off it is the integer [-1] the
    column starts with. *)
Theorem hard_neg_differs_from_original
    `{NumpyRandom} `{!ChemToolkit} `{PySetOrder}
    (fuel : nat) (self : SmilesEnumerator) (column : list string)
    (replication_count : nat) (random_pairs : bool) (rand_proba : Q)
    (g : RandomState) (df : DataFrame) (self' : SmilesEnumerator)
    (g' : RandomState) :
  enumerate_smiles_hard_neg fuel self column replication_count random_pairs
    rand_proba g = Some (Ok (df, self', g')) →
  sent1 df = np_repeat column replication_count ∧
  length (hard_neg df) = length (sent1 df) ∧
  ∀ (i : nat) (s : string), sent1 df !! i = Some s →
    ∃ h, hard_neg df !! i = Some h ∧ h ≠ CStr s ∧
         if random_pairs then ∃ x, h = CStr x ∧ x ∈ sent1 df ∧ x ≠ s
         else h = CInt (-1).
Proof.
  destruct random_pairs.
  - intros Hrun. apply hard_neg_table_enabled in Hrun as (Hs1 & Hlen & Hrows).
    split; [done|]. split; [done|]. intros i s Hs.
    destruct (Hrows i s Hs) as (x & Hx & Hin & Hne).
    exists (CStr x). split; [done|]. split; [congruence|]. eauto.
  - unfold enumerate_smiles_hard_neg.
    set (smiles := np_repeat column replication_count).
    destruct (fit self smiles [backslash] 5) as [self1 fitted].
    destruct (obind fitted _) as [[transformed g1]|e]; [|discriminate].
    intros [= <- <- <-]. cbn [sent1 hard_neg]. split; [done|].
    split; [by rewrite length_replicate|].
    intros i s Hs. exists (CInt (-1)). split; [|done].
    apply lookup_replicate_2. by eapply lookup_lt_Some.
Qed.

Lemma hard_neg_differs_from_original_witness :
  match @enumerate_smiles_hard_neg lcg_random identity_toolkit elements_order
          10 (SmilesEnumerator_init "" 120 true true true false)
          ["CCO"; "CCN"] 2 true 0 0 with
  | Some (Ok (df, _, _)) =>
      sent1 df = np_repeat ["CCO"; "CCN"] 2 ∧
      length (hard_neg df) = length (sent1 df) ∧
      ∀ (i : nat) (s : string), sent1 df !! i = Some s →
        ∃ h, hard_neg df !! i = Some h ∧ h ≠ CStr s ∧
             ∃ x, h = CStr x ∧ x ∈ sent1 df ∧ x ≠ s
  | _ => False
  end.
Proof.
  destruct (@enumerate_smiles_hard_neg lcg_random identity_toolkit elements_order
              10 (SmilesEnumerator_init "" 120 true true true false)
              ["CCO"; "CCN"] 2 true 0 0) as [[[[df self'] g']|e]|] eqn:Hrun.
  - exact (@hard_neg_differs_from_original lcg_random identity_toolkit
             elements_order 10 _ _ 2 true 0 0 df self' g' Hrun).
  - vm_compute in Hrun. discriminate Hrun.
  - vm_compute in Hrun. discriminate Hrun.
Defined.

(** The table of that run. *)
Example hard_neg_run :
  (λ r, match r with
        | Ok (df, _, _) => Some (sent1 df, sent0 df, hard_neg df)
        | Raise _ => None
        end) <$>
    @enumerate_smiles_hard_neg lcg_random identity_toolkit elements_order
      10 (SmilesEnumerator_init "" 120 true true true false)
      ["CCO"; "CCN"] 2 true 0 0
  = Some (Some (["CCO"; "CCO"; "CCN"; "CCN"],
                ["CCO"; "CCO"; "CCN"; "CCN"],
                [CStr "CCN"; CStr "CCN"; CStr "CCO"; CStr "CCO"])).
Proof. vm_compute. reflexivity. Qed.

(** C7, as stated, fails with [random_pairs] off, which is the default:
    no negative is drawn, and the column holds [-1] on every row. *)
Lemma hard_neg_not_drawn_by_default :
  (λ r, match r with
        | Ok (df, _, _) => Some (sent1 df, hard_neg df)
        | Raise _ => None
        end) <$>
    @enumerate_smiles_hard_neg lcg_random identity_toolkit elements_order
      10 (SmilesEnumerator_init "" 120 true true true false)
      ["CCO"; "CCN"] 2 false 0 0
  = Some (Some (["CCO"; "CCO"; "CCN"; "CCN"],
                [CInt (-1); CInt (-1); CInt (-1); CInt (-1)])).
Proof. vm_compute. reflexivity. Qed.

(** C10. With [random_pairs] on: if [enumerate_smiles_hard_neg] returns,
    the pool holds, for every row, a string other than the row's own; a
    [while] loop that ends was given one. If the source column holds one
    distinct string, the [while] loop of a row is still running after any
    number of turns, and the routine returns no table, whatever the
    replication count; it only stops if the toolkit raises before the
    loop is reached. *)
Theorem hard_neg_resampling_termination
    `{NumpyRandom} `{!ChemToolkit} `{PySetOrder} :
  (∀ (fuel : nat) (smiles : list string) (smile h : string) (g : RandomState)
     (h' : string) (g' : RandomState),
     h ∈ smiles →
     resample fuel smiles smile h g = Some (Ok (h', g')) →
     h' ∈ smiles ∧ h' ≠ smile) ∧
  (∀ (fuel : nat) (self : SmilesEnumerator) (column : list string)
     (replication_count : nat) (rand_proba : Q) (g : RandomState)
     (df : DataFrame) (self' : SmilesEnumerator) (g' : RandomState),
     enumerate_smiles_hard_neg fuel self column replication_count true
       rand_proba g = Some (Ok (df, self', g')) →
     ∀ smile, smile ∈ sent1 df → ∃ x, x ∈ sent1 df ∧ x ≠ smile) ∧
  (∀ (fuel : nat) (smiles : list string) (smile h : string) (g : RandomState),
     (∀ s, s ∈ smiles → s = smile) → h ∈ smiles →
     resample fuel smiles smile h g = None) ∧
  (∀ (fuel : nat) (self : SmilesEnumerator) (column : list string)
     (replication_count : nat) (rand_proba : Q) (g : RandomState) (s : string),
     column ≠ [] → replication_count ≠ 0%nat →
     (∀ x, x ∈ column → x = s) →
     (∀ r, enumerate_smiles_hard_neg fuel self column replication_count true
             rand_proba g ≠ Some (Ok r)) ∧
     ((enumerate self = false ∨
       ∀ can iso x g, is_Some (rdkit_randomize can iso x g)) →
      enumerate_smiles_hard_neg fuel self column replication_count true
        rand_proba g = None)).
Proof.
  assert (Honly : ∀ fuel self column replication_count rand_proba g df self' g',
    enumerate_smiles_hard_neg fuel self column replication_count true
      rand_proba g = Some (Ok (df, self', g')) →
    ∀ smile, smile ∈ sent1 df → ∃ x, x ∈ sent1 df ∧ x ≠ smile).
  { intros fuel self column rc rp g df self' g' Hrun smile Hin.
    apply hard_neg_table_enabled in Hrun as (_ & _ & Hrows).
    apply list_elem_of_lookup in Hin as [i Hi].
    destruct (Hrows i smile Hi) as (x & _ & Hx & Hne). eauto. }
  split; [|split; [exact Honly|split]].
  - intros fuel smiles smile h g h' g' Hin Hr.
    apply resample_distinct in Hr as [? Hin']. split; [by apply Hin'|done].
  - intros fuel smiles smile h g Hall Hin.
    apply resample_stuck; [|done|by apply Hall].
    intros ->. by apply elem_of_nil in Hin.
  - intros fuel self column rc rp g s Hcol Hrc Hall.
    set (smiles := np_repeat column rc).
    assert (Hne : smiles ≠ []) by by apply np_repeat_nonempty.
    assert (Hall' : ∀ x, x ∈ smiles → x = s).
    { intros x [Hx _]%np_repeat_elem. by apply Hall. }
    split.
    + intros [[df self'] g'] Hrun.
      assert (Hdf : sent1 df = smiles).
      { by apply hard_neg_table_enabled in Hrun as (? & _). }
      destruct smiles as [|s0 rest] eqn:Hs; [done|].
      destruct (Honly _ _ _ _ _ _ _ _ _ Hrun s0) as (x & Hx & Hneq).
      { rewrite Hdf. by left. }
      rewrite Hdf in Hx. apply Hneq.
      rewrite (Hall' x Hx). symmetry. apply Hall'. by left.
    + intros Htool. unfold enumerate_smiles_hard_neg. fold smiles.
      destruct (fit_transform_decode_total self smiles g Hne Htool)
        as (self1 & v & errors & g1 & transformed & -> & -> & Hrev & Hlen).
      cbn [obind]. rewrite Hrev. cbn [obind].
      rewrite (proj2 (Nat.eqb_eq _ _)) by done. cbn [negb].
      destruct smiles as [|s0 rest] eqn:Hs; [done|].
      unfold py_enumerate. rewrite imap_cons. cbn [hard_neg_loop].
      destruct (choice_defined (s0 :: rest) g1 ltac:(done)) as (h & g2 & Hc).
      rewrite Hc.
      rewrite resample_stuck; [done|done| |].
      * intros x Hx. rewrite (Hall' x Hx). symmetry. apply Hall'. by left.
      * rewrite (Hall' h (choice_elem _ _ _ _ Hc)). symmetry. apply Hall'. by left.
Qed.

(** On the reference instances, a column of one string repeated: the loop
    of the first row is still running after a thousand turns. *)
Example hard_neg_single_string_runs_on :
  @enumerate_smiles_hard_neg lcg_random identity_toolkit elements_order
    1000 (SmilesEnumerator_init "" 120 true true true false)
    ["CCO"; "CCO"] 3 true 0 0 = None.
Proof. vm_compute. reflexivity. Qed.

(** ** Rounding a draw to one decimal *)














(** ** Random pairs *)

Section RandomPairs.
Context `{NumpyRandom} `{!ChemToolkit} `{PySetOrder}.

Lemma choice_state (smiles : list string) (g g' : RandomState) (s : string) :
  choice smiles g = Ok (s, g') → g' = (np_choice (length smiles) g).2.
Proof.
  unfold choice. destruct smiles as [|s0 smiles]; [discriminate|].
  destruct (np_choice _ g) as [i g1]. destruct (_ !! i); [|discriminate].
  by intros [= _ <-].
Qed.

Lemma random_pairs_loop_spec (smiles : list string) (width : nat)
    (rand_proba : Q) (k : nat) :
  ∀ (a : nat) (tr : list string) (fl : list Z) (g : RandomState),
  (k = 0%nat ∨ smiles ≠ []) →
  (a + k ≤ length tr)%nat → (a + k ≤ length fl)%nat →
  ∃ tr' fl',
    random_pairs_loop smiles width rand_proba (seq a k) tr fl g
    = Ok (tr', fl', row_state smiles rand_proba k g) ∧
    length tr' = length tr ∧ length fl' = length fl ∧
    (∀ j, (j < a)%nat → tr' !! j = tr !! j ∧ fl' !! j = fl !! j) ∧
    (∀ i, (i < k)%nat →
       if Qgtb (py_round1 (row_draw smiles rand_proba i g)) rand_proba
       then tr' !! (a + i)%nat = tr !! (a + i)%nat ∧
            fl' !! (a + i)%nat = fl !! (a + i)%nat
       else ∃ x, x ∈ smiles ∧
                 tr' !! (a + i)%nat = Some (store_str width x) ∧
                 fl' !! (a + i)%nat = Some 0).
Proof.
  induction k as [|k IH]; intros a tr fl g Hne Htr Hfl.
  - exists tr, fl. repeat split; try done. intros i Hi. lia.
  - destruct Hne as [?|Hne]; [done|].
    cbn [seq random_pairs_loop row_state].
    unfold after_row, row_draw.
    destruct (np_uniform g) as [u g1] eqn:Hu.
    destruct (Qgtb (py_round1 u) rand_proba) eqn:Hcmp.
    + destruct (IH (S a) tr fl g1 ltac:(by right) ltac:(lia) ltac:(lia))
        as (tr' & fl' & Hloop & Hlt & Hlf & Hbefore & Hrows).
      exists tr', fl'. split; [done|]. split; [done|]. split; [done|].
      split; [intros j Hj; apply Hbefore; lia|].
      intros [|i] Hi.
      * cbn [row_state]. rewrite Hu. cbn [fst]. rewrite Hcmp.
        rewrite Nat.add_0_r. apply Hbefore. lia.
      * cbn [row_state]. unfold after_row. rewrite Hu, Hcmp.
        replace (a + S i)%nat with (S a + i)%nat by lia.
        apply (Hrows i). lia.
    + destruct (choice_defined smiles g1 Hne) as (x & g2 & Hc).
      rewrite Hc. cbn [obind].
      pose proof (choice_state _ _ _ _ Hc) as Hg2.
      pose proof (choice_elem _ _ _ _ Hc) as Hx.
      destruct (IH (S a) (<[a := store_str width x]> tr) (<[a := 0]> fl) g2
                  ltac:(by right)
                  ltac:(rewrite length_insert; lia)
                  ltac:(rewrite length_insert; lia))
        as (tr' & fl' & Hloop & Hlt & Hlf & Hbefore & Hrows).
      rewrite !length_insert in *.
      exists tr', fl'. rewrite <- Hg2. split; [done|].
      split; [done|]. split; [done|]. split.
      { intros j Hj. destruct (Hbefore j ltac:(lia)) as [-> ->].
        by rewrite !list_lookup_insert_ne by lia. }
      intros [|i] Hi.
      * cbn [row_state]. rewrite Hu. cbn [fst]. rewrite Hcmp.
        rewrite Nat.add_0_r. exists x. split; [done|].
        destruct (Hbefore a ltac:(lia)) as [-> ->].
        by rewrite !list_lookup_insert_eq by lia.
      * cbn [row_state]. unfold after_row. rewrite Hu, Hcmp, <- Hg2.
        replace (a + S i)%nat with (S a + i)%nat by lia.
        specialize (Hrows i ltac:(lia)). unfold row_draw in Hrows.
        destruct (Qgtb (py_round1 (np_uniform (row_state smiles rand_proba i g2)).1)
                    rand_proba); [|done].
        by rewrite !list_lookup_insert_ne in Hrows by lia.
Qed.

End RandomPairs.



(** The float [0.3] is a little below three tenths, the float [0.1] a
    little above one tenth. *)
Example nearest_float_three_tenths :
  nearest_float (3 # 10) = (5404319552844595 # 18014398509481984)%Q ∧
  (nearest_float (3 # 10) < 3 # 10)%Q ∧
  (1 # 10 < nearest_float (1 # 10))%Q.
Proof. split; [vm_compute; reflexivity|]. split; by vm_compute. Qed.

(** A draw of 0.31 against [rand_proba = 0.3]: [round(0.31, 1)] is the
    float [0.3] itself, which is not greater, and the row is replaced;
    0.36 rounds to the float [0.4] and the row is kept. *)
Example round_against_three_tenths :
  Qgtb (py_round1 (31 # 100)) (nearest_float (3 # 10)) = false ∧
  Qgtb (py_round1 (36 # 100)) (nearest_float (3 # 10)) = true ∧
  Qgtb (py_round1 (25 # 100)) (nearest_float (2 # 10)) = false.
Proof. repeat split; vm_compute; reflexivity. Qed.

(** The run of the witness: [rand_proba] is the float [0.3] and the four
    draws are 0.31, 0.9, 0.917 and 0.458. The first rounds to the float
    [0.3], which is not greater than [rand_proba], so the first row is
    replaced; the other rows are kept. *)
Example random_pairs_at_three_tenths :
  (λ r, (r.1.1.1.1, r.1.1.2)) <$>
    (match @enumerate_smiles lcg_random identity_toolkit elements_order
             (SmilesEnumerator_init "" 120 true true true false)
             ["CCO"; "CCNCC"] 2 true (nearest_float (3 # 10)) 310 with
     | Ok r => Some r
     | Raise _ => None
     end)
  = Some (["CCNCC"; "CCO"; "CCNCC"; "CCNCC"], [0; 1; 1; 1]) ∧
  @row_draw lcg_random (np_repeat ["CCO"; "CCNCC"] 2) (nearest_float (3 # 10))
    0 310 = (310 # 1000)%Q.
Proof. split; vm_compute; reflexivity. Qed.

(** A run with [rand_proba = 1/2] from generator state 0: the four draws
    are 0, 0.606, 0.775 and 0.924, so only the first row is replaced. *)
Example random_pairs_run :
  (λ r, (r.1.1.1.1, r.1.1.2)) <$>
    (match @enumerate_smiles lcg_random identity_toolkit elements_order
             (SmilesEnumerator_init "" 120 true true true false)
             ["CCO"; "CCNCC"] 2 true (1 # 2) 0 with
     | Ok r => Some r
     | Raise _ => None
     end)
  = Some (["CCO"; "CCO"; "CCNCC"; "CCNCC"], [0; 1; 1; 1]).
Proof. vm_compute. reflexivity. Qed.


(** * Further properties *)

(** ** The cursor and the windows of any iterator *)

(** A slice holds no more items than its bounds are apart. *)
Lemma length_py_slice {A : Type} (a : list A) (lo hi : Z) :
  0 ≤ lo → lo ≤ hi → Z.of_nat (length (py_slice a lo hi)) ≤ hi - lo.
Proof.
  intros Hlo Hhi. unfold py_slice, slice_bound.
  destruct (Z.ltb_spec lo 0); [lia|]. destruct (Z.ltb_spec hi 0); [lia|].
  rewrite length_take. lia.
Qed.

Section Cursor.
Context `{NumpyRandom}.

Lemma flow_index_next_bounds (self self' : Iterator) (g g' : RandomState)
    (w : Window) :
  0 < batch_size self ≤ n self →
  (started self = true →
   0 ≤ batch_index self ∧ batch_index self * batch_size self < n self) →
  flow_index_next self g = Ok (w, self', g') →
  window_in_bounds (n self) (batch_size self) w ∧
  0 ≤ batch_index self' ∧ batch_index self' * batch_size self < n self.
Proof.
  intros HB Hcur. unfold flow_index_next.
  set (self0 := if started self then self else reset self).
  assert (Hc : n self0 = n self ∧ batch_size self0 = batch_size self ∧
               0 ≤ batch_index self0 ∧
               batch_index self0 * batch_size self < n self).
  { subst self0. destruct (started self); [by destruct Hcur|].
    simpl. repeat split; lia. }
  destruct Hc as (Hn & Hb & Hi0 & Hi1). rewrite Hn, Hb.
  intros Hnext. apply obind_Ok in Hnext as (g1 & _ & Hnext).
  destruct (if batch_index self0 =? 0 then _ else _) as [arr g2].
  destruct (Z.eqb_spec (n self) 0); [discriminate|].
  set (i := batch_index self0) in *. set (B := batch_size self) in *.
  set (N := n self) in *.
  assert (0 ≤ i * B) by nia.
  rewrite (Z.mod_small (i * B) N) in Hnext by lia.
  unfold window_in_bounds, current_index, current_batch_size, indices.
  destruct (Z.gtb_spec N (i * B + B)); injection Hnext as <- <- <-;
    cbn [fst snd batch_index].
  - pose proof (length_py_slice arr (i * B) (i * B + B) ltac:(lia) ltac:(lia)).
    repeat split; try lia. by apply Z.divide_factor_r.
  - pose proof (length_py_slice arr (i * B) (i * B + (N - i * B))
                  ltac:(lia) ltac:(lia)).
    repeat split; try lia. by apply Z.divide_factor_r.
Qed.

Lemma pulls_bounds (gs : list RandomState) :
  ∀ (self self' : Iterator) (ws : list Window),
  0 < batch_size self ≤ n self →
  (started self = true →
   0 ≤ batch_index self ∧ batch_index self * batch_size self < n self) →
  pulls self gs = Ok (ws, self') →
  Forall (window_in_bounds (n self) (batch_size self)) ws ∧
  length ws = length gs ∧
  total_batches_seen self'
  = total_batches_seen self + Z.of_nat (length gs) ∧
  (gs ≠ [] →
   0 ≤ batch_index self' ∧ batch_index self' * batch_size self < n self).
Proof.
  induction gs as [|g gs IH]; intros self self' ws HB Hcur Hp.
  - injection Hp as <- <-. split; [done|]. split; [done|].
    split; [simpl; lia|done].
  - cbn [pulls] in Hp.
    apply obind_Ok in Hp as ([[w self1] g1] & Hnext & Hp).
    apply obind_Ok in Hp as ([ws1 self2] & Hp & Hret).
    injection Hret as <- <-.
    destruct (flow_index_next_bounds _ _ _ _ _ HB Hcur Hnext) as (Hw & Hi0 & Hi1).
    destruct (flow_index_next_config _ _ _ _ _ Hnext)
      as (Hn & Hb & _ & _ & Ht & _).
    destruct (IH self1 self2 ws1) as (Hws & Hlen & Htot & Hlast).
    + by rewrite Hn, Hb.
    + intros _. by rewrite Hn, Hb.
    + done.
    + rewrite Hn, Hb in *. split; [by constructor|].
      split; [simpl; lia|]. split; [cbn [length]; lia|].
      intros _. destruct gs as [|g' gs']; [|by apply Hlast].
      by injection Hp as _ <-.
Qed.

End Cursor.

(** X1. Whatever the shuffle flag and the seed, every window pulled from
    an iterator built with [0 < batch_size ≤ n] starts at a multiple of
    [batch_size], reports a size between one and [batch_size], ends inside
    the dataset and holds no more indices than the size it reports;
    [total_batches_seen] counts the pulls; and the cursor stays inside the
    epoch. *)
Theorem pulled_windows_stay_in_bounds `{NumpyRandom} (N B : Z) (sh : bool)
    (sd : option Z) (gs : list RandomState) (self self' : Iterator)
    (ws : list Window) :
  0 < B →
  Iterator_init N B sh sd = Ok self →
  pulls self gs = Ok (ws, self') →
  Forall (window_in_bounds N B) ws ∧
  length ws = length gs ∧
  total_batches_seen self' = Z.of_nat (length gs) ∧
  0 ≤ batch_index self' ∧ batch_index self' * B < N.
Proof.
  intros HB Hinit Hp. unfold Iterator_init in Hinit.
  destruct (Z.ltb_spec N B); [discriminate|]. injection Hinit as <-.
  pose proof Hp as Hp0.
  apply pulls_bounds in Hp as (Hws & Hlen & Htot & Hlast).
  2:{ cbn [n batch_size]. lia. }
  2:{ cbn [started]. discriminate. }
  cbn [n batch_size total_batches_seen] in *.
  split; [done|]. split; [done|]. split; [lia|].
  destruct gs as [|g gs']; [|by apply Hlast].
  cbn [pulls] in Hp0. injection Hp0 as _ <-. cbn [batch_index]. lia.
Qed.

Lemma pulled_windows_stay_in_bounds_witness :
  match Iterator_init 5 2 true (Some 42) with
  | Ok self =>
      match @pulls lcg_random self [1; 2; 3; 4; 5] with
      | Ok (ws, self') =>
          Forall (window_in_bounds 5 2) ws ∧
          length ws = 5%nat ∧
          total_batches_seen self' = 5 ∧
          0 ≤ batch_index self' ∧ batch_index self' * 2 < 5
      | Raise _ => False
      end
  | Raise _ => False
  end.
Proof.
  destruct (Iterator_init 5 2 true (Some 42)) as [self|e] eqn:Hinit;
    [|vm_compute in Hinit; discriminate Hinit].
  destruct (@pulls lcg_random self [1; 2; 3; 4; 5]) as [[ws self']|e] eqn:Hp.
  - exact (@pulled_windows_stay_in_bounds lcg_random 5 2 true (Some 42)
             [1; 2; 3; 4; 5] self self' ws ltac:(lia) Hinit Hp).
  - injection Hinit as <-. vm_compute in Hp. discriminate Hp.
Defined.

(** ** An epoch over any index array *)

Lemma py_slice_take_drop {A : Type} (a : list A) (lo hi : Z) :
  0 ≤ lo → lo ≤ hi → hi ≤ Z.of_nat (length a) →
  py_slice a lo hi = take (Z.to_nat (hi - lo)) (drop (Z.to_nat lo) a).
Proof.
  intros Hlo Hhi Hlen. unfold py_slice, slice_bound.
  destruct (Z.ltb_spec lo 0); [lia|]. destruct (Z.ltb_spec hi 0); [lia|].
  by rewrite !Z.min_l by lia.
Qed.

Section AnyEpoch.
Context `{NumpyRandom}.

(** A pull inside an epoch leaves the index array as it is. *)
Lemma epoch_step (N B : Z) (sh : bool) (sd : option Z) (t i : Z)
    (arr : list Z) (self : Iterator) (g : RandomState) :
  0 < B ≤ N → 0 < i → i * B < N → Z.of_nat (length arr) = N →
  (∀ s, sd = Some s → is_Some (np_seed (s + t))) →
  epoch_state N B sh sd t i arr self →
  ∃ self' g',
    flow_index_next self g = Ok (slice_window arr N B i, self', g') ∧
    epoch_state N B sh sd (t + 1) (next_cursor N B i) arr self'.
Proof.
  intros HB Hi HiB Harr Hsd (Hn & Hb & Hsh & Hseed & Hbi & Ht & Hst & Hia).
  unfold flow_index_next. rewrite Hst.
  assert (Hre : ∃ g1, reseed self g = Ok g1).
  { unfold reseed. rewrite Hseed, Ht. destruct sd as [s|]; [|eauto].
    destruct (Hsd s eq_refl) as [g1 ->]. eauto. }
  destruct Hre as [g1 ->]. cbn [obind].
  rewrite Hn, Hb, Hsh, Hbi, Hseed, Ht, Hia.
  destruct (Z.eqb_spec i 0); [lia|].
  destruct (Z.eqb_spec N 0); [lia|].
  assert (0 ≤ i * B) by nia.
  rewrite (Z.mod_small (i * B) N) by lia.
  unfold slice_window, next_cursor.
  destruct (Z.gtb_spec N (i * B + B)).
  - eexists _, _. split.
    + rewrite py_slice_take_drop by lia.
      by replace (i * B + B - i * B) with B by lia.
    + by repeat split.
  - eexists _, _. split.
    + rewrite py_slice_take_drop by lia.
      by replace (i * B + (N - i * B) - i * B) with (N - i * B) by lia.
    + by repeat split.
Qed.

(** The first pull of an epoch draws the index array, from the generator
    as [reseed] leaves it. *)
Lemma epoch_first_step (N B : Z) (sh : bool) (sd : option Z) (t : Z)
    (self : Iterator) (g g1 : RandomState) :
  0 < B ≤ N →
  n self = N → batch_size self = B → shuffle self = sh → seed self = sd →
  total_batches_seen self = t →
  (started self = true → batch_index self = 0) →
  reseed self g = Ok g1 →
  Z.of_nat (length (epoch_array N sh g1)) = N →
  ∃ self' g',
    flow_index_next self g
    = Ok (slice_window (epoch_array N sh g1) N B 0, self', g') ∧
    epoch_state N B sh sd (t + 1) (next_cursor N B 0)
      (epoch_array N sh g1) self'.
Proof.
  intros HB Hn Hb Hsh Hseed Ht Hst Hre Hlen. unfold flow_index_next.
  set (self0 := if started self then self else reset self).
  assert (Hc : n self0 = N ∧ batch_size self0 = B ∧ shuffle self0 = sh ∧
               seed self0 = sd ∧ total_batches_seen self0 = t ∧
               batch_index self0 = 0 ∧ reseed self0 g = Ok g1).
  { subst self0. destruct (started self); [by rewrite Hst|].
    by repeat split. }
  destruct Hc as (Hn0 & Hb0 & Hsh0 & Hseed0 & Ht0 & Hbi0 & ->).
  cbn [obind]. rewrite Hn0, Hb0, Hsh0, Hseed0, Ht0, Hbi0.
  change (0 =? 0) with true. cbn match.
  assert (Harr : (if sh then np_permutation N g1 else (np_arange N, g1))
                 = (epoch_array N sh g1, if sh then (np_permutation N g1).2 else g1)).
  { unfold epoch_array. destruct sh; [by destruct (np_permutation N g1)|done]. }
  rewrite Harr. destruct (Z.eqb_spec N 0); [lia|].
  rewrite Z.mul_0_l, Z.mod_0_l by done.
  unfold slice_window, next_cursor. rewrite !Z.mul_0_l, !Z.add_0_l.
  destruct (Z.gtb_spec N B).
  - eexists _, _. split.
    + rewrite py_slice_take_drop by lia. by rewrite Z.sub_0_r.
    + by repeat split.
  - eexists _, _. split.
    + rewrite py_slice_take_drop by lia.
      by rewrite !Z.sub_0_r.
    + by repeat split.
Qed.

(** The pulls that follow inside the epoch. *)
Lemma epoch_pulls (N B : Z) (sh : bool) (sd : option Z) (arr : list Z)
    (gs : list RandomState) :
  ∀ (t i : Z) (self : Iterator),
  0 < B ≤ N → 0 < i → Z.of_nat (length arr) = N →
  (gs = [] ∨ (i + Z.of_nat (length gs)) * B < N + B) →
  (∀ s m, sd = Some s → t ≤ m < t + Z.of_nat (length gs) →
          is_Some (np_seed (s + m))) →
  epoch_state N B sh sd t i arr self →
  ∃ self',
    pulls self gs
    = Ok (slice_window arr N B <$> seqZ i (Z.of_nat (length gs)), self') ∧
    epoch_state N B sh sd (t + Z.of_nat (length gs))
      (match gs with
       | [] => i
       | _ => next_cursor N B (i + Z.of_nat (length gs) - 1)
       end) arr self'.
Proof.
  induction gs as [|g gs IH]; intros t i self HB Hi Harr Hlen Hsd Hst.
  - exists self. split; [done|]. cbn [length]. by rewrite Z.add_0_r.
  - destruct Hlen as [?|Hlen]; [done|]. cbn [length] in *.
    assert (0 ≤ i * B ∧ i * B < N) as [? ?] by nia.
    destruct (epoch_step N B sh sd t i arr self g HB Hi ltac:(done) Harr
                ltac:(intros s Hs; apply (Hsd s t Hs); lia) Hst)
      as (self1 & g1 & Hstep & Hst1).
    cbn [pulls]. rewrite Hstep. cbn [obind].
    rewrite seqZ_cons by lia. rewrite fmap_cons.
    replace (Z.pred (Z.of_nat (S (length gs)))) with (Z.of_nat (length gs)) by lia.
    destruct gs as [|g' gs'].
    + exists self1. split; [done|]. cbn [length].
      change (Z.of_nat 1) with 1.
      replace (i + 1 - 1) with i by lia. exact Hst1.
    + assert (Hnext : next_cursor N B i = i + 1).
      { unfold next_cursor. cbn [length] in Hlen.
        destruct (Z.gtb_spec N (i * B + B)); [done|nia]. }
      rewrite Hnext in Hst1.
      destruct (IH (t + 1) (Z.succ i) self1 HB ltac:(lia) Harr)
        as (self2 & Hpulls & Hst2).
      * right. cbn [length] in *. nia.
      * intros s m Hs Hm. apply (Hsd s m Hs). cbn [length] in *. lia.
      * replace (Z.succ i) with (i + 1) by lia. exact Hst1.
      * rewrite Hpulls. cbn [obind]. exists self2. split; [done|].
        replace (t + Z.of_nat (S (length (g' :: gs'))))
          with (t + 1 + Z.of_nat (length (g' :: gs'))) by lia.
        replace (i + Z.of_nat (S (length (g' :: gs'))) - 1)
          with (Z.succ i + Z.of_nat (length (g' :: gs')) - 1) by lia.
        exact Hst2.
Qed.

End AnyEpoch.

(** Consecutive windows over one array, put end to end. *)
Lemma slice_windows_concat (arr : list Z) (N B : Z) (j : nat) :
  ∀ i : Z,
  0 < B → 0 ≤ i → i * B ≤ N →
  (j = 0%nat ∨ (i + Z.of_nat j) * B < N + B) →
  concat (indices <$> (slice_window arr N B <$> seqZ i (Z.of_nat j)))
  = take (Z.to_nat (Z.min N ((i + Z.of_nat j) * B) - i * B))
      (drop (Z.to_nat (i * B)) arr).
Proof.
  induction j as [|j IH]; intros i HB Hi HiN Hj.
  - rewrite seqZ_nil by lia.
    by replace (Z.min N ((i + Z.of_nat 0) * B) - i * B) with 0 by lia.
  - destruct Hj as [?|Hj]; [lia|].
    rewrite seqZ_cons by lia. rewrite !fmap_cons. cbn [concat].
    replace (Z.pred (Z.of_nat (S j))) with (Z.of_nat j) by lia.
    unfold slice_window at 1, indices at 1. cbn [fst].
    assert (0 ≤ i * B) by nia.
    destruct (Z.gtb_spec N (i * B + B)).
    + rewrite (IH (Z.succ i)) by
        first [lia | nia | destruct j; [by left | right; nia]].
      replace (Z.to_nat (Z.succ i * B)) with (Z.to_nat (i * B) + Z.to_nat B)%nat
        by nia.
      rewrite <- drop_drop, take_take_drop. f_equal. nia.
    + assert (j = 0%nat) as -> by nia.
      rewrite (seqZ_nil (Z.succ i)) by lia. simpl. rewrite app_nil_r.
      f_equal. nia.
Qed.

(** X2. An epoch is cut from one index array. On an iterator at the start
    of an epoch (cursor 0, after [t] pulls, shuffled or not), the
    [ceil(n / batch_size)] pulls of the epoch yield consecutive slices of
    the array drawn at the first pull, from the generator as
    [np.random.seed(seed + t)] leaves it when a seed is given: the later
    pulls reseed the generator but do not draw again. So, when numpy
    returns a permutation of [0..n-1], every index is in exactly one
    window of the epoch. *)
Theorem epoch_windows_slice_one_array `{NumpyRandom} (N B : Z) (sh : bool)
    (sd : option Z) (t : Z) (st : bool) (old : list Z)
    (g g1 : RandomState) (gs : list RandomState) :
  let self := {| n := N; batch_size := B; shuffle := sh; seed := sd;
                 batch_index := 0; total_batches_seen := t;
                 started := st; index_array := old |} in
  0 < B ≤ N →
  Z.of_nat (length (g :: gs)) = (N + B - 1) `div` B →
  reseed self g = Ok g1 →
  (∀ s m, sd = Some s → t < m < t + Z.of_nat (length (g :: gs)) →
          is_Some (np_seed (s + m))) →
  epoch_array N sh g1 ≡ₚ seqZ 0 N →
  ∃ ws self',
    pulls self (g :: gs) = Ok (ws, self') ∧
    length ws = length (g :: gs) ∧
    concat (indices <$> ws) = epoch_array N sh g1 ∧
    concat (indices <$> ws) ≡ₚ seqZ 0 N ∧
    (∀ (i : nat) (w : Window), ws !! i = Some w →
       current_index w = Z.of_nat i * B ∧
       indices w = take (Z.to_nat (current_batch_size w))
                     (drop (Z.to_nat (current_index w)) (epoch_array N sh g1))) ∧
    batch_index self' = 0 ∧
    total_batches_seen self' = t + Z.of_nat (length (g :: gs)).
Proof.
  intros self HB Hk Hre Hsd Hperm.
  set (arr := epoch_array N sh g1) in *.
  assert (Harr : Z.of_nat (length arr) = N).
  { rewrite (Permutation_length Hperm), length_seqZ. lia. }
  destruct (ceil_div_bounds N B _ ltac:(lia) Hk) as [Hlo Hhi].
  cbn [length] in *.
  destruct (epoch_first_step N B sh sd t self g g1 HB eq_refl eq_refl eq_refl
              eq_refl eq_refl ltac:(done) Hre Harr)
    as (self1 & g' & Hstep & Hst1).
  assert (Hws : ∃ self',
    pulls self (g :: gs)
    = Ok (slice_window arr N B <$> seqZ 0 (Z.of_nat (S (length gs))), self') ∧
    batch_index self' = 0 ∧
    total_batches_seen self' = t + Z.of_nat (S (length gs))).
  { cbn [pulls]. rewrite Hstep. cbn [obind].
    rewrite (seqZ_cons 0) by lia. rewrite fmap_cons.
    replace (Z.pred (Z.of_nat (S (length gs)))) with (Z.of_nat (length gs)) by lia.
    destruct gs as [|g2 gs'].
    - exists self1. split; [done|].
      destruct Hst1 as (_ & _ & _ & _ & -> & -> & _). unfold next_cursor.
      cbn [length] in *. split; [|lia].
      destruct (Z.gtb_spec N (0 * B + B)); [lia|done].
    - assert (Hnext : next_cursor N B 0 = 1).
      { unfold next_cursor. cbn [length] in *.
        destruct (Z.gtb_spec N (0 * B + B)); [done|nia]. }
      rewrite Hnext in Hst1.
      destruct (epoch_pulls N B sh sd arr (g2 :: gs') (t + 1) 1 self1 HB
                  ltac:(lia) Harr)
        as (self2 & Hp & Hst2).
      + right. cbn [length] in *. nia.
      + intros s m Hs Hm. apply (Hsd s m Hs). cbn [length] in *. lia.
      + exact Hst1.
      + rewrite Hp. cbn [obind]. exists self2. split; [done|].
        destruct Hst2 as (_ & _ & _ & _ & -> & -> & _).
        split; [|cbn [length]; lia]. unfold next_cursor.
        destruct (Z.gtb_spec N ((1 + Z.of_nat (length (g2 :: gs')) - 1) * B + B));
          [cbn [length] in *; nia|done]. }
  destruct Hws as (self' & Hp & Hbi & Ht).
  assert (Hcat : concat (indices <$> (slice_window arr N B
                   <$> seqZ 0 (Z.of_nat (S (length gs))))) = arr).
  { rewrite slice_windows_concat by (try lia; right; lia).
    rewrite Z.mul_0_l, Z.sub_0_r, Z.add_0_l. cbn [Z.to_nat drop].
    apply take_ge. lia. }
  eexists _, self'. split; [exact Hp|].
  split; [by rewrite length_fmap, length_seqZ, Nat2Z.id|].
  split; [exact Hcat|]. split; [by rewrite Hcat|]. split; [|done].
  intros i w Hw. rewrite list_lookup_fmap in Hw.
  destruct (seqZ 0 _ !! i) as [j|] eqn:Hj; [|done].
  apply lookup_seqZ in Hj as [-> _]. injection Hw as <-.
  by rewrite Z.add_0_l.
Qed.

Lemma epoch_windows_slice_one_array_witness :
  ∃ ws self',
    @pulls lcg_random
      {| n := 5; batch_size := 2; shuffle := true; seed := Some 43;
         batch_index := 0; total_batches_seen := 3;
         started := true; index_array := [4; 3; 2; 1; 0] |} [1; 2; 3]
    = Ok (ws, self') ∧
    length ws = 3%nat ∧
    concat (indices <$> ws) = @epoch_array lcg_random 5 true 46 ∧
    concat (indices <$> ws) ≡ₚ seqZ 0 5 ∧
    (∀ (i : nat) (w : Window), ws !! i = Some w →
       current_index w = Z.of_nat i * 2 ∧
       indices w = take (Z.to_nat (current_batch_size w))
                     (drop (Z.to_nat (current_index w))
                        (@epoch_array lcg_random 5 true 46))) ∧
    batch_index self' = 0 ∧
    total_batches_seen self' = 3 + 3.
Proof.
  apply (@epoch_windows_slice_one_array lcg_random 5 2 true (Some 43) 3 true
           [4; 3; 2; 1; 0] 1 46 [2; 3]).
  - lia.
  - reflexivity.
  - reflexivity.
  - intros s m [= <-] Hm. cbn [length] in Hm.
    change (is_Some (lcg_seed (43 + m))). unfold lcg_seed.
    rewrite bool_decide_eq_true_2 by lia. by eexists.
  - apply (bool_decide_unpack _). vm_compute. done.
Defined.

(** That epoch: seed 43 after three pulls draws under seed 46. *)
Example epoch_windows_run :
  (λ r, r.1) <$>
    (match @pulls lcg_random
             {| n := 5; batch_size := 2; shuffle := true; seed := Some 43;
                batch_index := 0; total_batches_seen := 3;
                started := true; index_array := [4; 3; 2; 1; 0] |} [1; 2; 3] with
     | Ok r => Some r
     | Raise _ => None
     end)
  = Some [([1; 2], 0, 2); ([3; 4], 2, 2); ([0], 4, 1)].
Proof. vm_compute. reflexivity. Qed.

(** ** Epoch after epoch *)

Section Cycle.
Context `{NumpyRandom}.

Lemma pulls_app (gs1 gs2 : list RandomState) :
  ∀ self : Iterator,
  pulls self (gs1 ++ gs2)
  = ('(ws1, self1) ←! pulls self gs1;
     '(ws2, self2) ←! pulls self1 gs2;
     Ok (ws1 ++ ws2, self2)).
Proof.
  induction gs1 as [|g gs1 IH]; intros self.
  - cbn [app pulls obind]. by destruct (pulls self gs2) as [[ws2 self2]|e].
  - cbn [app pulls]. destruct (flow_index_next self g) as [[[w self1] g1]|e];
      [|done]. cbn [obind]. rewrite IH.
    destruct (pulls self1 gs1) as [[ws1 self2]|e]; [|done]. cbn [obind].
    by destruct (pulls self2 gs2) as [[ws2 self3]|e].
Qed.

End Cycle.

(** X3. Without shuffling the iterator is cyclic: after the
    [ceil(n / batch_size)] pulls of one epoch, the pulls that follow yield
    the windows a freshly constructed iterator yields, however many they
    are. *)
Theorem unshuffled_iterator_is_cyclic `{NumpyRandom} (N B : Z) (sd : option Z)
    (gs1 gs2 gs2' : list RandomState) :
  0 < B ≤ N →
  Z.of_nat (length gs1) = (N + B - 1) `div` B →
  length gs2 = length gs2' →
  (∀ s m, sd = Some s → 0 ≤ m < Z.of_nat (length gs1 + length gs2) →
          is_Some (np_seed (s + m))) →
  ∃ fresh ws1 ws2 self2 self3,
    Iterator_init N B false sd = Ok fresh ∧
    pulls fresh (gs1 ++ gs2) = Ok (ws1 ++ ws2, self2) ∧
    length ws1 = length gs1 ∧
    pulls fresh gs2' = Ok (ws2, self3).
Proof.
  intros HB Hk Hlen Hsd.
  destruct (ceil_div_bounds N B (Z.of_nat (length gs1)) ltac:(lia) Hk) as [Hlo Hhi].
  set (fresh := {| n := N; batch_size := B; shuffle := false; seed := sd;
                   batch_index := 0; total_batches_seen := 0;
                   started := false; index_array := [] |}).
  assert (Hfresh : plain_state N B sd 0 0 fresh) by (repeat split; done).
  destruct (plain_pulls N B sd gs1 0 0 fresh HB ltac:(lia) ltac:(lia)
              ltac:(intros s m Hs Hm; apply (Hsd s m Hs); lia) Hfresh)
    as (self1 & Hp1 & Hst1).
  assert (Hcur : plain_state N B sd (Z.of_nat (length gs1)) 0 self1).
  { destruct gs1 as [|g gs1']; [cbn [length] in *; nia|].
    replace (next_cursor N B (0 + Z.of_nat (length (g :: gs1')) - 1)) with 0
      in Hst1; [by rewrite Z.add_0_l in Hst1|].
    unfold next_cursor.
    destruct (Z.gtb_spec N ((0 + Z.of_nat (length (g :: gs1')) - 1) * B + B));
      [nia|done]. }
  destruct (plain_pulls_any N B sd gs2 (Z.of_nat (length gs1)) 0 self1 HB
              ltac:(lia) ltac:(lia)
              ltac:(intros s m Hs Hm; apply (Hsd s m Hs); lia) Hcur)
    as (self2 & Hp2 & _).
  destruct (plain_pulls_any N B sd gs2' 0 0 fresh HB ltac:(lia) ltac:(lia)
              ltac:(intros s m Hs Hm; apply (Hsd s m Hs); lia) Hfresh)
    as (self3 & Hp3 & _).
  exists fresh, (plain_window N B <$> seqZ 0 (Z.of_nat (length gs1))),
    (plain_trace N B 0 (length gs2)), self2, self3.
  split.
  { unfold Iterator_init. destruct (Z.ltb_spec N B); [lia|done]. }
  split; [by rewrite pulls_app, Hp1; cbn [obind]; rewrite Hp2|].
  split; [by rewrite length_fmap, length_seqZ, Nat2Z.id|].
  by rewrite Hlen.
Qed.

Lemma unshuffled_iterator_is_cyclic_witness :
  ∃ fresh ws1 ws2 self2 self3,
    Iterator_init 10 3 false (Some 7) = Ok fresh ∧
    @pulls lcg_random fresh ([0; 0; 0; 0] ++ [1; 1; 1]) = Ok (ws1 ++ ws2, self2) ∧
    length ws1 = 4%nat ∧
    @pulls lcg_random fresh [5; 6; 7] = Ok (ws2, self3).
Proof.
  apply (@unshuffled_iterator_is_cyclic lcg_random 10 3 (Some 7)
           [0; 0; 0; 0] [1; 1; 1] [5; 6; 7]).
  - lia.
  - reflexivity.
  - reflexivity.
  - intros s m [= <-] Hm. cbn [length Nat.add] in Hm.
    change (is_Some (lcg_seed (7 + m))). unfold lcg_seed.
    rewrite bool_decide_eq_true_2 by lia. by eexists.
Defined.

(** ** Batches through the codec *)

Lemma decode_row_one_hots (cs ss : list ascii) (a b : nat) :
  cs ≠ [] → (∀ c, c ∈ ss → c ∈ cs) →
  decode_row (int_to_char_of cs) (length cs)
    (replicate a (replicate (length cs) 0)
       ++ (one_hot_of (char_to_int_of cs) (length cs) <$> ss)
       ++ replicate b (replicate (length cs) 0))
  = Ok (string_of_list_ascii ss).
Proof.
  intros Hcs Hin. unfold decode_row.
  rewrite (filter_one_hot_rows cs) by done.
  rewrite decide_False by (by destruct cs).
  by rewrite (decode_one_hot_rows cs) by done.
Qed.

Lemma chars_substring (k : nat) (s : string) :
  chars (String.substring 0 k s) = take k (chars s).
Proof.
  revert s. induction k as [|k IH]; intros [|c s]; simpl; try done.
  by rewrite <- IH.
Qed.

(** A check that computes: every character of [s] is one of [cs]. *)
Lemma chars_within (s cs : string) :
  bool_decide (Forall (λ c, c ∈ chars cs) (chars s)) = true →
  ∀ c, c ∈ chars s → c ∈ chars cs.
Proof. intros Hb%bool_decide_eq_true. by apply Forall_forall. Qed.

Lemma string_of_chars (s : string) : string_of_list_ascii (chars s) = s.
Proof. apply string_of_list_ascii_of_string. Qed.

Section Batches.
Context `{NumpyRandom} `{!ChemToolkit}.

(** A string that fits: its row, with no error. *)
Lemma transform_one_fits (cs : string) (p : Z) (lp iso canon : bool)
    (s : string) (g : RandomState) :
  (∀ c, c ∈ chars s → c ∈ chars cs) → len s ≤ p →
  ∃ a b,
    transform_one (SmilesEnumerator_init cs p lp iso false canon) s g
    = Ok (replicate a (replicate (length (chars cs)) 0)
            ++ (one_hot_of (char_to_int_of (chars cs)) (length (chars cs))
                  <$> chars s)
            ++ replicate b (replicate (length (chars cs)) 0), 0, g).
Proof.
  intros Hin Hlen. unfold transform_one, SmilesEnumerator_init, set_charset.
  cbn [pad _charlen _char_to_int enumerate leftpad obind].
  rewrite <- length_chars.
  set (l := length (chars s)).
  assert (Hl : len s = Z.of_nat l) by (unfold len, l; by rewrite length_chars).
  destruct lp.
  - exists (Z.to_nat (p - len s)), (l - l)%nat.
    replace (Z.to_nat p) with (Z.to_nat (p - len s) + l)%nat by lia.
    rewrite replicate_add.
    rewrite (encode_chars_blank (chars cs)); [done|done| |done].
    rewrite length_replicate. lia.
  - exists 0%nat, (Z.to_nat p - l)%nat.
    pose proof (encode_chars_blank (chars cs) (chars s) 0 0 [] (Z.to_nat p)
                  Hin eq_refl ltac:(fold l; lia)) as Henc.
    cbn [app] in Henc. by rewrite Henc.
Qed.

Lemma transform_loop_fits (cs : string) (p : Z) (lp iso canon : bool)
    (l : list string) (g : RandomState) :
  cs ≠ "" →
  Forall (λ s, (∀ c, c ∈ chars s → c ∈ chars cs) ∧ len s ≤ p) l →
  ∃ ms,
    transform_loop (SmilesEnumerator_init cs p lp iso false canon) l g
    = Ok (ms, 0, g) ∧
    omapM (decode_row (int_to_char_of (chars cs)) (length (chars cs))) ms
    = Ok l.
Proof.
  intros Hcs Hall. induction Hall as [|s l [Hin Hlen] _ IH].
  - by exists [].
  - destruct IH as (ms & Hloop & Hdec).
    destruct (transform_one_fits cs p lp iso canon s g Hin Hlen) as (a & b & Hone).
    eexists (_ :: ms). cbn [transform_loop]. rewrite Hone. cbn [obind].
    rewrite Hloop. cbn [obind]. split; [done|]. cbn [omapM].
    rewrite decode_row_one_hots; [|by destruct cs|done]. cbn [obind].
    rewrite Hdec. cbn [obind]. by rewrite string_of_chars.
Qed.

End Batches.

(** X4. A whole batch comes back. With a vocabulary of at least one
    character, enumeration off and [pad ≥ 0], a batch of strings of
    vocabulary characters, none longer than [pad], is encoded into a
    tensor of shape [(len(batch), pad, len(charset))] with no error, and
    [reverse_transform] returns the batch: same strings, same order. *)
Theorem transform_batch_round_trip `{NumpyRandom} `{!ChemToolkit}
    (cs : string) (p : Z) (lp iso canon : bool) (l : list string)
    (g : RandomState) :
  cs ≠ "" → 0 ≤ p →
  Forall (λ s, (∀ c, c ∈ chars s → c ∈ chars cs) ∧ len s ≤ p) l →
  ∃ v,
    transform (SmilesEnumerator_init cs p lp iso false canon) l g = Ok (v, 0, g) ∧
    shape v = (length l, Z.to_nat p, String.length cs) ∧
    reverse_transform (SmilesEnumerator_init cs p lp iso false canon) v = Ok l.
Proof.
  intros Hcs Hp Hall.
  destruct (transform_loop_fits cs p lp iso canon l g Hcs Hall) as (ms & Hloop & Hdec).
  eexists. split; [|split].
  - unfold transform. cbn [SmilesEnumerator_init set_charset pad].
    destruct (Z.ltb_spec p 0); [lia|].
    fold (set_charset
            {| _charset := ""; _charlen := 0; _char_to_int := ∅;
               _int_to_char := ∅; pad := p; leftpad := lp;
               isomericSmiles := iso; enumerate := false;
               canonical := canon |} cs).
    fold (SmilesEnumerator_init cs p lp iso false canon).
    rewrite Hloop. cbn [obind]. reflexivity.
  - done.
  - unfold reverse_transform. cbn [shape rows snd].
    cbn [SmilesEnumerator_init set_charset _int_to_char _charlen].
    by rewrite <- length_chars.
Qed.

Lemma transform_batch_round_trip_witness :
  ∃ v,
    @transform lcg_random identity_toolkit
      (SmilesEnumerator_init "CON" 6 false true false false)
      ["CCO"; ""; "NCCO"; "CCO"] 0 = Ok (v, 0, 0) ∧
    shape v = (4%nat, 6%nat, 3%nat) ∧
    @reverse_transform (SmilesEnumerator_init "CON" 6 false true false false) v
    = Ok ["CCO"; ""; "NCCO"; "CCO"].
Proof.
  apply (@transform_batch_round_trip lcg_random identity_toolkit
           "CON" 6 false true false ["CCO"; ""; "NCCO"; "CCO"] 0).
  - discriminate.
  - lia.
  - repeat (apply Forall_cons; split;
              [split; [apply chars_within; vm_compute; reflexivity
                      |vm_compute; discriminate]|]).
    constructor.
Defined.

(** ** One string that does not fit *)

Lemma omapM_length {A B : Type} (f : A → outcome B) (l : list A) (bs : list B) :
  omapM f l = Ok bs → length bs = length l.
Proof.
  revert bs. induction l as [|a l IH]; intros bs; cbn [omapM].
  - by intros [= <-].
  - destruct (f a) as [b|e]; [|discriminate]. cbn [obind].
    destruct (omapM f l) as [bs'|e]; [|discriminate]. cbn [obind].
    intros [= <-]. simpl. by rewrite (IH bs').
Qed.

Lemma omapM_Forall {A B : Type} (f : A → outcome B) (l : list A) (bs : list B) :
  omapM f l = Ok bs → Forall (λ b, ∃ a, a ∈ l ∧ f a = Ok b) bs.
Proof.
  revert bs. induction l as [|a l IH]; intros bs; cbn [omapM].
  - intros [= <-]. constructor.
  - destruct (f a) as [b|e] eqn:Hfa; [|discriminate]. cbn [obind].
    destruct (omapM f l) as [bs'|e]; [|discriminate]. cbn [obind].
    intros [= <-]. constructor.
    + exists a. split; [by left|done].
    + eapply Forall_impl; [by apply IH|].
      intros b' (a' & Ha' & Hfa'). exists a'. split; [by right|done].
Qed.

(** What a decoded row can be: no longer than the row has positions, and
    made of characters of the dictionary. *)
Lemma decode_row_bound (cs : list ascii) (depth : nat) (v : list (list Z))
    (s : string) :
  decode_row (int_to_char_of cs) depth v = Ok s →
  (length (chars s) ≤ length v)%nat ∧ ∀ c, c ∈ chars s → c ∈ cs.
Proof.
  unfold decode_row. destruct (decide (depth = 0%nat)); [discriminate|].
  set (f := λ cells : list Z, _).
  destruct (omapM f _) as [ds|e] eqn:Hds; [|discriminate]. cbn [obind].
  intros [= <-]. unfold chars. rewrite list_ascii_of_string_of_list_ascii.
  split.
  - rewrite (omapM_length _ _ _ Hds). apply length_filter.
  - intros c Hc. apply omapM_Forall in Hds.
    destruct (proj1 (Forall_forall _ _) Hds c Hc) as (cells & _ & Hf).
    subst f. cbn beta in Hf. rewrite int_to_char_of_lookup in Hf.
    destruct (cs !! np_argmax cells) as [c'|] eqn:Hk; [|discriminate].
    injection Hf as ->. by eapply list_elem_of_lookup_2.
Qed.

Lemma encode_chars_length (c2i : gmap ascii nat) (ss : list ascii) :
  ∀ (off j : Z) (m : list (list Z)),
  length (encode_chars c2i off j ss m).1 = length m.
Proof.
  induction ss as [|c ss IH]; intros off j m; [done|].
  cbn [encode_chars]. destruct (c2i !! c) as [k|]; [|done].
  cbn [mbind option_bind]. unfold set_one.
  destruct (np_index (length m) (j + off)) as [p|]; [|done].
  cbn [mbind option_bind]. destruct (m !! p) as [cells|]; [|done].
  cbn [mbind option_bind].
  destruct (np_index (length cells) (Z.of_nat k)) as [k'|]; [|done].
  cbn [mbind option_bind]. by rewrite IH, length_insert.
Qed.

Section Singles.
Context `{NumpyRandom} `{!ChemToolkit}.

Lemma transform_singleton (self : SmilesEnumerator) (s : string)
    (g g' : RandomState) (m : list (list Z)) (e : Z) :
  0 ≤ pad self →
  transform_one self s g = Ok (m, e, g') →
  transform self [s] g
  = Ok ({| shape := (1%nat, Z.to_nat (pad self), _charlen self);
           rows := [m] |}, e, g').
Proof.
  intros Hp Hone. unfold transform. destruct (Z.ltb_spec (pad self) 0); [lia|].
  cbn [transform_loop]. rewrite Hone. cbn [obind length].
  by rewrite Z.add_0_r.
Qed.

Lemma reverse_transform_singleton (self : SmilesEnumerator) (d0 d1 d2 : nat)
    (m : list (list Z)) (s : string) :
  decode_row (_int_to_char self) d2 m = Ok s →
  reverse_transform self {| shape := (d0, d1, d2); rows := [m] |} = Ok [s].
Proof.
  intros Hdec. unfold reverse_transform. cbn [shape rows snd omapM].
  by rewrite Hdec.
Qed.

End Singles.

(** X5. A character outside the vocabulary ends the row there. With
    enumeration off, for a string [pre ++ c ++ post] whose [pre] is made
    of vocabulary characters and whose [c] is not in the vocabulary, and
    which fits ([len ≤ pad] under left padding, [len(pre) ≤ pad] under
    right padding), [transform] counts exactly one error, keeps what it
    wrote for [pre] and writes nothing for [post]: the row decodes to
    [pre]. *)
Theorem transform_stops_at_unknown_character `{NumpyRandom} `{!ChemToolkit}
    (cs : string) (p : Z) (lp iso canon : bool) (pre post : string)
    (c : ascii) (g : RandomState) :
  cs ≠ "" →
  (∀ a, a ∈ chars pre → a ∈ chars cs) →
  c ∉ chars cs →
  (if lp then len (String.append pre (String c post)) ≤ p else len pre ≤ p) →
  ∃ v,
    transform (SmilesEnumerator_init cs p lp iso false canon)
      [String.append pre (String c post)] g = Ok (v, 1, g) ∧
    reverse_transform (SmilesEnumerator_init cs p lp iso false canon) v
    = Ok [pre].
Proof.
  intros Hcs Hpre Hc Hfit.
  set (s := String.append pre (String c post)) in *.
  assert (Hs : chars s = chars pre ++ c :: chars post) by apply chars_append.
  assert (Hls : len s = Z.of_nat (length (chars pre)) + 1
                        + Z.of_nat (length (chars post))).
  { unfold len. rewrite <- length_chars, Hs, length_app. cbn [length]. lia. }
  assert (Hlp : len pre = Z.of_nat (length (chars pre))).
  { unfold len. by rewrite length_chars. }
  set (zero := replicate (length (chars cs)) 0).
  assert (Hone : ∃ a b,
    transform_one (SmilesEnumerator_init cs p lp iso false canon) s g
    = Ok (replicate a zero
            ++ (one_hot_of (char_to_int_of (chars cs)) (length (chars cs))
                  <$> chars pre)
            ++ replicate b zero, 1, g)).
  { unfold transform_one, SmilesEnumerator_init, set_charset.
    cbn [pad _charlen _char_to_int enumerate leftpad obind].
    rewrite <- length_chars. fold zero. rewrite Hs. destruct lp.
    - exists (Z.to_nat (p - len s)).
      eexists. replace (Z.to_nat p)
        with (Z.to_nat (p - len s) + Z.to_nat (len s))%nat by lia.
      rewrite replicate_add.
      rewrite (encode_chars_unknown (chars cs)); [done|done|done| |lia].
      rewrite length_replicate. lia.
    - exists 0%nat. eexists.
      pose proof (encode_chars_unknown (chars cs) (chars pre) (chars post) c
                    0 0 [] (Z.to_nat p) Hpre Hc eq_refl ltac:(lia)) as Henc.
      cbn [app] in Henc. fold zero in Henc. by rewrite Henc. }
  destruct Hone as (a & b & Hone).
  eexists. split.
  - apply transform_singleton; [|exact Hone].
    cbn [SmilesEnumerator_init set_charset pad]. destruct lp; unfold len in *; lia.
  - apply reverse_transform_singleton.
    cbn [SmilesEnumerator_init set_charset _int_to_char _charlen].
    rewrite <- length_chars. subst zero.
    rewrite decode_row_one_hots; [by rewrite string_of_chars|by destruct cs|done].
Qed.

Lemma transform_stops_at_unknown_character_witness :
  ∃ v,
    @transform lcg_random identity_toolkit
      (SmilesEnumerator_init "CON" 6 true true false false)
      [String.append "CC" (String "x" "O")] 0 = Ok (v, 1, 0) ∧
    @reverse_transform (SmilesEnumerator_init "CON" 6 true true false false) v
    = Ok ["CC"].
Proof.
  apply (@transform_stops_at_unknown_character lcg_random identity_toolkit
           "CON" 6 true true false "CC" "O" "x" 0).
  - discriminate.
  - apply chars_within. vm_compute. reflexivity.
  - apply (bool_decide_unpack _). vm_compute. done.
  - vm_compute. discriminate.
Defined.

(** X6. Under right padding a string longer than [pad] is cut at [pad].
    With enumeration off, for a string of vocabulary characters with
    [0 ≤ pad < len], [transform] writes the first [pad] characters, counts
    exactly one error, and the row decodes to those first [pad]
    characters. *)
Theorem transform_right_padded_cuts_at_pad `{NumpyRandom} `{!ChemToolkit}
    (cs : string) (p : Z) (iso canon : bool) (s : string) (g : RandomState) :
  (∀ c, c ∈ chars s → c ∈ chars cs) →
  0 ≤ p < len s →
  ∃ v,
    transform (SmilesEnumerator_init cs p false iso false canon) [s] g
    = Ok (v, 1, g) ∧
    reverse_transform (SmilesEnumerator_init cs p false iso false canon) v
    = Ok [String.substring 0 (Z.to_nat p) s].
Proof.
  intros Hin Hp.
  assert (Hl : len s = Z.of_nat (length (chars s))).
  { unfold len. by rewrite length_chars. }
  set (P := Z.to_nat p).
  set (pre := take P (chars s)).
  assert (Hpre : length pre = P) by (subst pre; rewrite length_take; lia).
  destruct (drop P (chars s)) as [|c post] eqn:Hdrop.
  { apply (f_equal length) in Hdrop. rewrite length_drop in Hdrop.
    simpl in Hdrop. lia. }
  assert (Hs : chars s = pre ++ c :: post).
  { unfold pre. by rewrite <- Hdrop, take_drop. }
  assert (Hpre_in : ∀ a, a ∈ pre → a ∈ chars cs).
  { intros a Ha. apply Hin. rewrite Hs. apply elem_of_app. by left. }
  assert (Hcs : chars cs ≠ []).
  { intros Hnil. assert (Hc : c ∈ chars cs).
    { apply Hin. rewrite Hs. apply elem_of_app. right. by left. }
    rewrite Hnil in Hc. by apply elem_of_nil in Hc. }
  set (zero := replicate (length (chars cs)) 0).
  assert (Hone :
    transform_one (SmilesEnumerator_init cs p false iso false canon) s g
    = Ok (replicate 0 zero
            ++ (one_hot_of (char_to_int_of (chars cs)) (length (chars cs))
                  <$> pre)
            ++ replicate 0 zero, 1, g)).
  { unfold transform_one, SmilesEnumerator_init, set_charset.
    cbn [pad _charlen _char_to_int enumerate leftpad obind].
    rewrite <- length_chars. fold zero P. rewrite Hs.
    pose proof (encode_chars_overflow (chars cs) pre post c 0 0 []
                  Hpre_in eq_refl) as Henc.
    cbn [app] in Henc. fold zero in Henc. rewrite Hpre in Henc.
    rewrite Henc. cbn [replicate app]. by rewrite app_nil_r. }
  eexists. split.
  - apply transform_singleton; [|exact Hone].
    cbn [SmilesEnumerator_init set_charset pad]. lia.
  - apply reverse_transform_singleton.
    cbn [SmilesEnumerator_init set_charset _int_to_char _charlen].
    rewrite <- length_chars. subst zero.
    rewrite decode_row_one_hots by done. f_equal. f_equal.
    rewrite <- (string_of_chars (String.substring 0 P s)).
    by rewrite chars_substring.
Qed.

Lemma transform_right_padded_cuts_at_pad_witness :
  ∃ v,
    @transform lcg_random identity_toolkit
      (SmilesEnumerator_init "CON" 3 false true false false) ["CCNCO"] 0
    = Ok (v, 1, 0) ∧
    @reverse_transform (SmilesEnumerator_init "CON" 3 false true false false) v
    = Ok [String.substring 0 (Z.to_nat 3) "CCNCO"].
Proof.
  apply (@transform_right_padded_cuts_at_pad lcg_random identity_toolkit
           "CON" 3 true false "CCNCO" 0).
  - apply chars_within. vm_compute. reflexivity.
  - vm_compute. split; [discriminate|reflexivity].
Defined.

(** X7. Under left padding a string longer than [pad], and up to twice as
    long, passes without an error. With enumeration off, for a string of
    vocabulary characters with [pad < len ≤ 2 * pad], no write is refused
    and no error is counted; yet the row has [pad] positions, so what it
    decodes to is at most [pad] characters long and is not the string. *)
Theorem transform_left_padded_overlong_unnoticed `{NumpyRandom} `{!ChemToolkit}
    (cs : string) (p : Z) (iso canon : bool) (s : string) (g : RandomState) :
  (∀ c, c ∈ chars s → c ∈ chars cs) →
  p < len s ≤ 2 * p →
  ∃ v s',
    transform (SmilesEnumerator_init cs p true iso false canon) [s] g
    = Ok (v, 0, g) ∧
    reverse_transform (SmilesEnumerator_init cs p true iso false canon) v
    = Ok [s'] ∧
    len s' ≤ p ∧ s' ≠ s.
Proof.
  intros Hin Hp.
  assert (Hl : len s = Z.of_nat (length (chars s))).
  { unfold len. by rewrite length_chars. }
  set (self := SmilesEnumerator_init cs p true iso false canon).
  set (zero := replicate (length (chars cs)) 0).
  set (blank := replicate (Z.to_nat p) zero).
  set (r := encode_chars (char_to_int_of (chars cs)) (p - len s) 0 (chars s) blank).
  assert (Hblank : Forall (λ cells, length cells = length (chars cs)) blank).
  { apply Forall_replicate. unfold zero. by rewrite length_replicate. }
  assert (Herr : r.2 = 0).
  { apply encode_chars_wraps; [done|done| |];
      unfold blank; rewrite length_replicate; lia. }
  assert (Hone : transform_one self s g = Ok (r.1, 0, g)).
  { unfold transform_one, self, SmilesEnumerator_init, set_charset.
    cbn [pad _charlen _char_to_int enumerate leftpad obind].
    rewrite <- length_chars. fold zero blank r.
    destruct r as [m e]. cbn [snd] in Herr. by subst e. }
  assert (Hcs : length (chars cs) ≠ 0%nat).
  { destruct (chars s) as [|c rest] eqn:Hs; [simpl in Hl; lia|].
    intros Hz. apply length_zero_iff_nil in Hz.
    assert (Hc : c ∈ chars cs) by (apply Hin; by left).
    rewrite Hz in Hc. by apply elem_of_nil in Hc. }
  assert (Hwf : codec_wf self) by apply set_charset_wf.
  assert (Hclen : _charlen self = length (chars cs)).
  { cbn [self SmilesEnumerator_init set_charset _charlen]. by rewrite length_chars. }
  destruct (decode_row_total self r.1 Hwf ltac:(by rewrite Hclen)) as [s' Hdec].
  { rewrite Hclen. by apply encode_chars_shape. }
  assert (Hbound : (length (chars s') ≤ length r.1)%nat).
  { cbn [self SmilesEnumerator_init set_charset _int_to_char _charlen] in Hdec.
    by apply decode_row_bound in Hdec as [? _]. }
  unfold r in Hbound. rewrite encode_chars_length in Hbound.
  unfold blank in Hbound. rewrite length_replicate in Hbound.
  assert (Hls' : len s' ≤ p).
  { unfold len. rewrite <- length_chars. lia. }
  exists {| shape := (1%nat, Z.to_nat (pad self), _charlen self); rows := [r.1] |}, s'.
  split; [|split; [|split]].
  - apply transform_singleton; [|exact Hone].
    cbn [self SmilesEnumerator_init set_charset pad]. lia.
  - by apply reverse_transform_singleton.
  - done.
  - intros ->. lia.
Qed.

Lemma transform_left_padded_overlong_unnoticed_witness :
  ∃ v s',
    @transform lcg_random identity_toolkit
      (SmilesEnumerator_init "CON" 3 true true false false) ["CCNCO"] 0
    = Ok (v, 0, 0) ∧
    @reverse_transform (SmilesEnumerator_init "CON" 3 true true false false) v
    = Ok [s'] ∧
    len s' ≤ 3 ∧ s' ≠ "CCNCO".
Proof.
  apply (@transform_left_padded_overlong_unnoticed lcg_random identity_toolkit
           "CON" 3 true false "CCNCO" 0).
  - apply chars_within. vm_compute. reflexivity.
  - vm_compute. split; [reflexivity|discriminate].
Defined.

(** What that row reads: the characters wrap around the row, and a
    position written twice with different characters is dropped. *)
Example transform_left_padded_overlong_run :
  match @transform lcg_random identity_toolkit
          (SmilesEnumerator_init "CON" 3 true true false false) ["CCNCO"] 0 with
  | Ok (v, errors, _) =>
      Some (rows v, errors,
            @reverse_transform
              (SmilesEnumerator_init "CON" 3 true true false false) v)
  | Raise _ => None
  end
  = Some ([[[0; 0; 1]; [1; 0; 0]; [1; 1; 0]]], 0, Ok ["NC"]).
Proof. vm_compute. reflexivity. Qed.

(** X8. Under left padding a string more than twice as long as [pad] is
    refused at its first character. With enumeration off and [pad ≥ 0],
    for any string with [len > 2 * pad], the first index [pad - len] is
    below [-pad]: [transform] counts one error, writes nothing, and the
    all-zero row decodes to the empty string. *)
Theorem transform_left_padded_far_overlong `{NumpyRandom} `{!ChemToolkit}
    (cs : string) (p : Z) (iso canon : bool) (s : string) (g : RandomState) :
  cs ≠ "" → 0 ≤ p → 2 * p < len s →
  transform (SmilesEnumerator_init cs p true iso false canon) [s] g
  = Ok ({| shape := (1%nat, Z.to_nat p, String.length cs);
           rows := [replicate (Z.to_nat p) (replicate (String.length cs) 0)] |},
        1, g) ∧
  reverse_transform (SmilesEnumerator_init cs p true iso false canon)
    {| shape := (1%nat, Z.to_nat p, String.length cs);
       rows := [replicate (Z.to_nat p) (replicate (String.length cs) 0)] |}
  = Ok [""].
Proof.
  intros Hcs Hp Hlen.
  assert (Hl : len s = Z.of_nat (length (chars s))).
  { unfold len. by rewrite length_chars. }
  split.
  - apply (transform_singleton (SmilesEnumerator_init cs p true iso false canon));
      [done|].
    unfold transform_one, SmilesEnumerator_init, set_charset.
    cbn [pad _charlen _char_to_int enumerate leftpad obind].
    destruct (chars s) as [|c rest] eqn:Hs; [simpl in Hl; lia|].
    cbn [encode_chars]. destruct (char_to_int_of (chars cs) !! c) as [k|]; [|done].
    cbn [mbind option_bind]. unfold set_one, np_index.
    rewrite length_replicate.
    rewrite !bool_decide_eq_false_2 by lia. done.
  - apply reverse_transform_singleton.
    cbn [SmilesEnumerator_init set_charset _int_to_char].
    rewrite <- length_chars.
    pose proof (decode_row_one_hots (chars cs) [] (Z.to_nat p) 0
                  ltac:(by destruct cs) ltac:(by intros ? ?%elem_of_nil)) as Hdec.
    cbn [fmap list_fmap replicate app] in Hdec. by rewrite app_nil_r in Hdec.
Qed.

Lemma transform_left_padded_far_overlong_witness :
  @transform lcg_random identity_toolkit
    (SmilesEnumerator_init "CON" 2 true true false false) ["CCNCO"] 0
  = Ok ({| shape := (1%nat, Z.to_nat 2, String.length "CON");
           rows := [replicate (Z.to_nat 2) (replicate (String.length "CON") 0)] |},
        1, 0) ∧
  @reverse_transform (SmilesEnumerator_init "CON" 2 true true false false)
    {| shape := (1%nat, Z.to_nat 2, String.length "CON");
       rows := [replicate (Z.to_nat 2) (replicate (String.length "CON") 0)] |}
  = Ok [""].
Proof.
  apply (@transform_left_padded_far_overlong lcg_random identity_toolkit
           "CON" 2 true false "CCNCO" 0).
  - discriminate.
  - lia.
  - vm_compute. reflexivity.
Defined.

(** ** The tensor [transform] returns *)

Lemma encode_chars_binary (c2i : gmap ascii nat) (d : nat) (ss : list ascii) :
  ∀ (off j : Z) (m : list (list Z)),
  Forall (binary_row d) m →
  Forall (binary_row d) (encode_chars c2i off j ss m).1 ∧
  0 ≤ (encode_chars c2i off j ss m).2 ≤ 1.
Proof.
  induction ss as [|c ss IH]; intros off j m Hm; [split; [done|simpl; lia]|].
  cbn [encode_chars]. destruct (c2i !! c) as [k|]; [|split; [done|simpl; lia]].
  cbn [mbind option_bind]. unfold set_one.
  destruct (np_index (length m) (j + off)) as [p|]; [|split; [done|simpl; lia]].
  cbn [mbind option_bind].
  destruct (m !! p) as [cells|] eqn:Hp; [|split; [done|simpl; lia]].
  cbn [mbind option_bind].
  destruct (np_index (length cells) (Z.of_nat k)) as [k'|];
    [|split; [done|simpl; lia]].
  cbn [mbind option_bind]. apply IH.
  apply Forall_insert; [done|].
  destruct (proj1 (Forall_lookup _ _) Hm p cells Hp) as [Hlen Hbin].
  split; [by rewrite length_insert|]. apply Forall_insert; [done|by right].
Qed.

Section Tensor.
Context `{NumpyRandom} `{!ChemToolkit}.

Lemma transform_loop_shape (self : SmilesEnumerator) (smiles : list string) :
  ∀ g : RandomState,
  (enumerate self = false ∨
   ∀ can iso s g, is_Some (rdkit_randomize can iso s g)) →
  ∃ ms errors g',
    transform_loop self smiles g = Ok (ms, errors, g') ∧
    length ms = length smiles ∧
    Forall (λ m, length m = Z.to_nat (pad self) ∧
                 Forall (binary_row (_charlen self)) m) ms ∧
    0 ≤ errors ≤ Z.of_nat (length smiles).
Proof.
  intros g Htool. revert g.
  induction smiles as [|ss smiles IH]; intros g.
  - exists [], 0, g. repeat split; done.
  - cbn [transform_loop]. unfold transform_one.
    assert (Hrand : ∃ ss' g1,
      (if enumerate self then randomize_smiles self ss g else Ok (ss, g))
      = Ok (ss', g1)).
    { destruct Htool as [->|Htot]; [eauto|].
      destruct (enumerate self); [|eauto]. unfold randomize_smiles.
      destruct (Htot (canonical self) (isomericSmiles self) ss g) as [[ss' g1] ->].
      eauto. }
    destruct Hrand as (ss' & g1 & ->). cbn [obind].
    set (blank := replicate _ _).
    assert (Hblank : Forall (binary_row (_charlen self)) blank).
    { apply Forall_replicate. split; [by rewrite length_replicate|].
      apply Forall_replicate. by left. }
    assert (Hblen : length blank = Z.to_nat (pad self))
      by (unfold blank; by rewrite length_replicate).
    destruct (IH g1) as (ms & errors & g' & Hloop & Hlen & Hall & Herr).
    assert (Hrow : ∀ off,
      ∃ m e, encode_chars (_char_to_int self) off 0 (chars ss') blank = (m, e) ∧
             length m = Z.to_nat (pad self) ∧
             Forall (binary_row (_charlen self)) m ∧ 0 ≤ e ≤ 1).
    { intros off.
      pose proof (encode_chars_binary (_char_to_int self) (_charlen self)
                    (chars ss') off 0 blank Hblank) as [Hb He].
      pose proof (encode_chars_length (_char_to_int self) (chars ss') off 0 blank)
        as Hl.
      destruct (encode_chars _ _ _ _ blank) as [m e].
      exists m, e. cbn [fst snd] in *. split; [done|]. split; [lia|done]. }
    destruct (leftpad self).
    + destruct (Hrow (pad self - len ss')) as (m & e & -> & Hm & Hb & He).
      cbn [obind]. rewrite Hloop. cbn [obind]. eexists _, _, _.
      split; [done|]. split; [simpl; lia|]. split; [by constructor|].
      cbn [length]. lia.
    + destruct (Hrow 0) as (m & e & -> & Hm & Hb & He).
      cbn [obind]. rewrite Hloop. cbn [obind]. eexists _, _, _.
      split; [done|]. split; [simpl; lia|]. split; [by constructor|].
      cbn [length]. lia.
Qed.

End Tensor.

(** X9. The shape [transform] promises. With [pad ≥ 0], and with
    enumeration off or a toolkit that accepts every string, [transform]
    returns for any batch, whatever its characters and lengths: the tensor
    has shape [(len(batch), pad, len(charset))], every cell is 0 or 1, and
    the error count is between 0 and the number of strings, at most one
    per row. *)
Theorem transform_returns_binary_tensor `{NumpyRandom} `{!ChemToolkit}
    (self : SmilesEnumerator) (smiles : list string) (g : RandomState) :
  0 ≤ pad self →
  (enumerate self = false ∨
   ∀ can iso s g, is_Some (rdkit_randomize can iso s g)) →
  ∃ v errors g',
    transform self smiles g = Ok (v, errors, g') ∧
    shape v = (length smiles, Z.to_nat (pad self), _charlen self) ∧
    length (rows v) = length smiles ∧
    Forall (λ m, length m = Z.to_nat (pad self) ∧
                 Forall (binary_row (_charlen self)) m) (rows v) ∧
    0 ≤ errors ≤ Z.of_nat (length smiles).
Proof.
  intros Hp Htool.
  destruct (transform_loop_shape self smiles g Htool)
    as (ms & errors & g' & Hloop & Hlen & Hall & Herr).
  eexists _, errors, g'. split.
  - unfold transform. destruct (Z.ltb_spec (pad self) 0); [lia|].
    rewrite Hloop. cbn [obind]. reflexivity.
  - cbn [shape rows]. done.
Qed.

Lemma transform_returns_binary_tensor_witness :
  ∃ v errors g',
    @transform lcg_random identity_toolkit
      (SmilesEnumerator_init "CON" 3 true true true false)
      ["CCO"; "xyz"; "CCNCCNCCO"] 0 = Ok (v, errors, g') ∧
    shape v = (3%nat, Z.to_nat 3, 3%nat) ∧
    length (rows v) = 3%nat ∧
    Forall (λ m, length m = Z.to_nat 3 ∧ Forall (binary_row 3) m) (rows v) ∧
    0 ≤ errors ≤ Z.of_nat 3.
Proof.
  apply (@transform_returns_binary_tensor lcg_random identity_toolkit
           (SmilesEnumerator_init "CON" 3 true true true false)
           ["CCO"; "xyz"; "CCNCCNCCO"] 0).
  - vm_compute. discriminate.
  - right. intros can iso s g. by eexists.
Defined.

(** ** A string the toolkit rejects *)

(** With enumeration on, one string is encoded when the toolkit accepts
    it, and the toolkit's exception is raised when it does not. *)
Lemma transform_one_enumerate `{NumpyRandom} `{!ChemToolkit}
    (self : SmilesEnumerator) (s : string) (g : RandomState) :
  enumerate self = true →
  match rdkit_randomize (canonical self) (isomericSmiles self) s g with
  | Some (_, g1) => ∃ m e, transform_one self s g = Ok (m, e, g1)
  | None =>
      transform_one self s g
      = Raise (rdkit_error (canonical self) (isomericSmiles self) s g)
  end.
Proof.
  intros Henum. unfold transform_one. rewrite Henum. unfold randomize_smiles.
  destruct (rdkit_randomize _ _ s g) as [[s' g1]|]; [|done]. cbn [obind].
  destruct (leftpad self); destruct (encode_chars _ _ _ _ _) as [m e];
    by eexists _, _.
Qed.

(** X10. With enumeration on, a string the toolkit rejects ends
    [transform] for the whole batch with the exception the toolkit raised:
    the strings before the first rejected one are encoded, the exception
    raised on that one leaves [transform], and no tensor is returned. The
    [try] around the character loop does not cover [randomize_smiles], so
    the failure is not one of the counted errors. *)
Theorem transform_propagates_toolkit_failure `{NumpyRandom} `{!ChemToolkit}
    (self : SmilesEnumerator) (smiles : list string) (bad : string)
    (g : RandomState) :
  0 ≤ pad self →
  enumerate self = true →
  bad ∈ smiles →
  (∀ g, rdkit_randomize (canonical self) (isomericSmiles self) bad g = None) →
  ∃ (before after : list string) (s : string) ms errors (g1 : RandomState),
    smiles = before ++ s :: after ∧
    transform_loop self before g = Ok (ms, errors, g1) ∧
    rdkit_randomize (canonical self) (isomericSmiles self) s g1 = None ∧
    transform self smiles g
    = Raise (rdkit_error (canonical self) (isomericSmiles self) s g1).
Proof.
  intros Hp Henum Hbad Hrej. unfold transform.
  destruct (Z.ltb_spec (pad self) 0); [lia|].
  assert (Hloop : ∃ before after s ms errors g1,
    smiles = before ++ s :: after ∧
    transform_loop self before g = Ok (ms, errors, g1) ∧
    rdkit_randomize (canonical self) (isomericSmiles self) s g1 = None ∧
    transform_loop self smiles g
    = Raise (rdkit_error (canonical self) (isomericSmiles self) s g1)).
  { revert g. induction smiles as [|s0 smiles IH]; intros g.
    - by apply elem_of_nil in Hbad.
    - pose proof (transform_one_enumerate self s0 g Henum) as Hone.
      destruct (rdkit_randomize _ _ s0 g) as [[s' g1]|] eqn:Hs.
      + destruct Hone as (m & e & Hone).
        apply elem_of_cons in Hbad as [->|Hbad]; [by rewrite Hrej in Hs|].
        destruct (IH Hbad g1)
          as (before & after & s & ms & errors & g2 & -> & Hbefore & Hnone & Hl).
        exists (s0 :: before), after, s, (m :: ms), (e + errors), g2.
        split; [done|]. split; [|split; [done|]].
        * cbn [transform_loop]. rewrite Hone. cbn [obind].
          by rewrite Hbefore.
        * cbn [app transform_loop]. rewrite Hone. cbn [obind]. by rewrite Hl.
      + exists [], smiles, s0, [], 0, g.
        split; [done|]. split; [done|]. split; [done|].
        cbn [transform_loop]. by rewrite Hone. }
  destruct Hloop as (before & after & s & ms & errors & g1 & Heq & Hb & Hnone & Hl).
  exists before, after, s, ms, errors, g1. by rewrite Hl.
Qed.

Lemma transform_propagates_toolkit_failure_witness :
  ∃ (before after : list string) (s : string) ms errors g1,
    ["CCO"; ""; "CCN"] = before ++ s :: after ∧
    @transform_loop lcg_random picky_toolkit
      (SmilesEnumerator_init "CON" 5 true true true false) before 0
    = Ok (ms, errors, g1) ∧
    @rdkit_randomize lcg_random picky_toolkit false true s g1 = None ∧
    @transform lcg_random picky_toolkit
      (SmilesEnumerator_init "CON" 5 true true true false) ["CCO"; ""; "CCN"] 0
    = Raise (@rdkit_error lcg_random picky_toolkit false true s g1).
Proof.
  apply (@transform_propagates_toolkit_failure lcg_random picky_toolkit
           (SmilesEnumerator_init "CON" 5 true true true false)
           ["CCO"; ""; "CCN"] "" 0).
  - vm_compute. discriminate.
  - reflexivity.
  - apply (bool_decide_unpack _). vm_compute. done.
  - intros g. reflexivity.
Defined.

(** That run: the empty string is refused with [ValueError], which is
    what [transform] raises. *)
Example transform_toolkit_failure_run :
  @transform lcg_random picky_toolkit
    (SmilesEnumerator_init "CON" 5 true true true false) ["CCO"; ""; "CCN"] 0
  = Raise ValueError.
Proof. vm_compute. reflexivity. Qed.

(** ** Whatever is encoded decodes into the vocabulary *)

(** X11. Encoding then decoding never leaves the vocabulary. For a codec
    whose dictionaries are those of its character set, a character set of
    at least one character and [pad ≥ 0], with enumeration off or a
    toolkit that accepts every string: for any batch, [transform] returns
    a tensor that [reverse_transform] decodes, into as many strings as the
    batch has, each no longer than [pad] and made of characters of the
    character set, also where the input string was not. *)
Theorem decoded_strings_stay_in_vocabulary `{NumpyRandom} `{!ChemToolkit}
    (self : SmilesEnumerator) (smiles : list string) (g : RandomState) :
  codec_wf self → _charlen self ≠ 0%nat → 0 ≤ pad self →
  (enumerate self = false ∨
   ∀ can iso s g, is_Some (rdkit_randomize can iso s g)) →
  ∃ v errors g' strs,
    transform self smiles g = Ok (v, errors, g') ∧
    reverse_transform self v = Ok strs ∧
    length strs = length smiles ∧
    Forall (λ s, len s ≤ pad self ∧
                 ∀ c, c ∈ chars s → c ∈ chars (charset self)) strs.
Proof.
  intros Hwf Hne Hp Htool.
  destruct (transform_loop_shape self smiles g Htool)
    as (ms & errors & g' & Hloop & Hlen & Hall & _).
  set (v := {| shape := (length smiles, Z.to_nat (pad self), _charlen self);
               rows := ms |}).
  assert (Hrows : Forall (Forall (λ cells, length cells = _charlen self)) ms).
  { eapply Forall_impl; [exact Hall|]. intros m [_ Hm].
    eapply Forall_impl; [exact Hm|]. by intros cells [Hc _]. }
  destruct (reverse_transform_total self v Hwf Hne eq_refl Hrows)
    as (strs & Hrev & Hstrs).
  exists v, errors, g', strs. split; [|split; [done|split]].
  - unfold transform. destruct (Z.ltb_spec (pad self) 0); [lia|].
    by rewrite Hloop.
  - cbn [v rows] in Hstrs. lia.
  - unfold reverse_transform in Hrev. apply omapM_Forall in Hrev.
    eapply Forall_impl; [exact Hrev|]. intros s (m & Hm & Hdec).
    destruct Hwf as (_ & _ & Hi2c). rewrite Hi2c in Hdec.
    apply decode_row_bound in Hdec as [Hbound Hin].
    split; [|exact Hin].
    destruct (proj1 (Forall_forall _ _) Hall m Hm) as [Hmlen _].
    unfold len. rewrite <- length_chars. lia.
Qed.

Lemma decoded_strings_stay_in_vocabulary_witness :
  ∃ v errors g' strs,
    @transform lcg_random identity_toolkit
      (SmilesEnumerator_init "CON" 3 false true false false)
      ["CxO"; "NCCOC"] 0 = Ok (v, errors, g') ∧
    @reverse_transform (SmilesEnumerator_init "CON" 3 false true false false) v
    = Ok strs ∧
    length strs = 2%nat ∧
    Forall (λ s, len s ≤ 3 ∧ ∀ c, c ∈ chars s → c ∈ chars "CON") strs.
Proof.
  apply (@decoded_strings_stay_in_vocabulary lcg_random identity_toolkit
           (SmilesEnumerator_init "CON" 3 false true false false)
           ["CxO"; "NCCOC"] 0).
  - apply set_charset_wf.
  - vm_compute. discriminate.
  - vm_compute. discriminate.
  - left. reflexivity.
Defined.

(** ** The dictionaries of a character set with repeats *)

(** With repeats, [_char_to_int] keeps the last position of a character. *)
Lemma char_to_int_of_last (cs : list ascii) (c : ascii) (k : nat) :
  char_to_int_of cs !! c = Some k ↔
  cs !! k = Some c ∧ ∀ j, (k < j)%nat → cs !! j ≠ Some c.
Proof.
  revert k. induction cs as [|a cs IH] using rev_ind; intros k.
  - split; [done|]. by intros [? _].
  - rewrite char_to_int_of_snoc. destruct (decide (a = c)) as [->|Hne].
    + rewrite lookup_insert_eq. split.
      * intros [= <-]. split; [by rewrite list_lookup_middle|].
        intros j Hj. rewrite lookup_ge_None_2; [done|].
        rewrite length_app. simpl. lia.
      * intros [Hk Hlast]. f_equal.
        pose proof (lookup_lt_Some _ _ _ Hk) as Hlt.
        rewrite length_app in Hlt. simpl in Hlt.
        destruct (decide (k = length cs)) as [->|Hk']; [done|].
        exfalso. apply (Hlast (length cs)); [lia|].
        by rewrite list_lookup_middle.
    + rewrite lookup_insert_ne by done. rewrite IH. split.
      * intros [Hk Hlast]. split; [by apply lookup_app_l_Some|].
        intros j Hj Hc.
        destruct (decide (j < length cs)%nat) as [Hlt|Hge].
        -- rewrite lookup_app_l in Hc by done. by apply (Hlast j).
        -- destruct (decide (j = length cs)) as [->|Hj'].
           ++ rewrite list_lookup_middle in Hc by done. congruence.
           ++ rewrite lookup_ge_None_2 in Hc; [done|].
              rewrite length_app. simpl. lia.
      * intros [Hk Hlast].
        pose proof (lookup_lt_Some _ _ _ Hk) as Hlt.
        rewrite length_app in Hlt. simpl in Hlt.
        assert (k ≠ length cs) as Hk'.
        { intros ->. rewrite list_lookup_middle in Hk by done. congruence. }
        rewrite lookup_app_l in Hk by lia. split; [done|].
        intros j Hj Hc. apply (Hlast j Hj). by apply lookup_app_l_Some.
Qed.

Lemma char_to_int_of_absent (cs : list ascii) (c : ascii) :
  char_to_int_of cs !! c = None ↔ c ∉ cs.
Proof.
  split.
  - intros Hnone Hin. apply char_to_int_of_defined in Hin as [k Hk]. congruence.
  - intros Hnot. destruct (char_to_int_of cs !! c) as [k|] eqn:Hk; [|done].
    exfalso. apply Hnot. apply char_to_int_of_sound in Hk.
    by eapply list_elem_of_lookup_2.
Qed.

(** X12. What assigning [charset] leaves in the object, for any string,
    repeats included: [_charlen] is the length of the string, repeats
    counted; [_int_to_char] reads the string by position; [_char_to_int]
    sends each character of the string to the last position where it
    stands, and has no entry for any other character; so
    [_int_to_char[_char_to_int[c]]] is [c]. [pad] and the flags are left
    as they were. *)
Theorem charset_setter_dictionaries (self : SmilesEnumerator) (cs : string) :
  charset (set_charset self cs) = cs ∧
  _charlen (set_charset self cs) = String.length cs ∧
  (∀ k, _int_to_char (set_charset self cs) !! k = chars cs !! k) ∧
  (∀ c k, _char_to_int (set_charset self cs) !! c = Some k ↔
          chars cs !! k = Some c ∧ ∀ j, (k < j)%nat → chars cs !! j ≠ Some c) ∧
  (∀ c, _char_to_int (set_charset self cs) !! c = None ↔ c ∉ chars cs) ∧
  (∀ c k, _char_to_int (set_charset self cs) !! c = Some k →
          _int_to_char (set_charset self cs) !! k = Some c) ∧
  pad (set_charset self cs) = pad self ∧
  leftpad (set_charset self cs) = leftpad self ∧
  enumerate (set_charset self cs) = enumerate self.
Proof.
  cbn [set_charset charset _charset _charlen _int_to_char _char_to_int
       pad leftpad enumerate].
  split; [done|]. split; [done|].
  split; [intros k; apply int_to_char_of_lookup|].
  split; [intros c k; apply char_to_int_of_last|].
  split; [intros c; apply char_to_int_of_absent|].
  split; [|done].
  intros c k Hk. rewrite int_to_char_of_lookup. by apply char_to_int_of_sound.
Qed.

(** ** fit *)

Lemma py_set_of_str_join (smiles : list string) (e : string) :
  e ∈ py_set_of_str (join smiles) ↔
  ∃ s c, s ∈ smiles ∧ c ∈ chars s ∧ e = String c "".
Proof.
  unfold py_set_of_str. rewrite elem_of_list_to_set, list_elem_of_fmap.
  rewrite chars_join. split.
  - intros (c & -> & Hc). apply list_elem_of_bind in Hc as (s & Hc & Hs).
    by exists s, c.
  - intros (s & c & Hs & Hc & ->). exists c. split; [done|].
    apply list_elem_of_bind. by exists s.
Qed.

Lemma py_max_same_elements (l l' : list Z) :
  (∀ z, z ∈ l ↔ z ∈ l') → py_max l = py_max l'.
Proof.
  intros Hsame. destruct l as [|z l], l' as [|z' l'].
  - done.
  - exfalso. eapply elem_of_nil. apply Hsame. by left.
  - exfalso. eapply elem_of_nil. apply Hsame. by left.
  - unfold py_max. f_equal.
    destruct (foldl_max_spec l z) as [Hin Hall].
    destruct (foldl_max_spec l' z') as [Hin' Hall'].
    apply Hsame in Hin. apply Hsame in Hin'.
    pose proof (proj1 (Forall_forall _ _) Hall _ Hin') as Hle.
    pose proof (proj1 (Forall_forall _ _) Hall' _ Hin) as Hle'.
    cbn beta in Hle, Hle'. lia.
Qed.

(** X13. [fit] on an empty list raises [ValueError], from [max] of an
    empty sequence, after the character set has been replaced: the object
    is left with a character set made of the characters of [extra_chars]
    alone, dictionaries that agree with it, and the [pad] it had. *)
Theorem fit_empty_list_half_updates `{PySetOrder} (self : SmilesEnumerator)
    (extra_chars : list string) (extra_pad : Z) :
  (fit self [] extra_chars extra_pad).2 = Raise ValueError ∧
  pad (fit self [] extra_chars extra_pad).1 = pad self ∧
  (∀ c, c ∈ chars (charset (fit self [] extra_chars extra_pad).1) ↔
        ∃ e, e ∈ extra_chars ∧ c ∈ chars e) ∧
  codec_wf (fit self [] extra_chars extra_pad).1.
Proof.
  split; [done|]. split; [done|]. split; [|apply fit_wf].
  intros c. unfold fit.
  cbn [fmap list_fmap py_max fst charset set_charset _charset].
  rewrite chars_join, list_elem_of_bind. split.
  - intros (e & Hc & He). exists e. split; [|done].
    rewrite (set_iter_perm _) in He. apply elem_of_elements in He.
    apply elem_of_union in He as [He|He].
    + apply py_set_of_str_join in He as (s & _ & Hs & _).
      by apply elem_of_nil in Hs.
    + by apply elem_of_list_to_set in He.
  - intros (e & He & Hc). exists e. split; [done|].
    rewrite (set_iter_perm _). apply elem_of_elements.
    apply elem_of_union. right. by apply elem_of_list_to_set.
Qed.

(** X14. [fit] looks at the strings as a set. Two calls on lists with
    the same members, in any order and with any repeats, each walking its
    set in whatever order Python gives it, end alike, leave the same
    [pad], and leave character sets that hold the same characters the same
    number of times, so of the same length; the order of the characters
    may differ. *)
Theorem fit_depends_on_the_set_of_strings (O1 O2 : PySetOrder)
    (self : SmilesEnumerator) (smiles smiles' extra_chars : list string)
    (extra_pad : Z) :
  (∀ s, s ∈ smiles ↔ s ∈ smiles') →
  (@fit O1 self smiles extra_chars extra_pad).2
  = (@fit O2 self smiles' extra_chars extra_pad).2 ∧
  pad (@fit O1 self smiles extra_chars extra_pad).1
  = pad (@fit O2 self smiles' extra_chars extra_pad).1 ∧
  chars (charset (@fit O1 self smiles extra_chars extra_pad).1)
  ≡ₚ chars (charset (@fit O2 self smiles' extra_chars extra_pad).1) ∧
  _charlen (@fit O1 self smiles extra_chars extra_pad).1
  = _charlen (@fit O2 self smiles' extra_chars extra_pad).1.
Proof.
  intros Hsame.
  assert (Hset : py_set_of_str (join smiles) = py_set_of_str (join smiles')).
  { apply set_eq. intros e. rewrite !py_set_of_str_join.
    split; intros (s & c & Hs & Hc); exists s, c; (split; [by apply Hsame|done]). }
  assert (Hmax : py_max (len <$> smiles) = py_max (len <$> smiles')).
  { apply py_max_same_elements. intros z. rewrite !list_elem_of_fmap.
    split; intros (s & -> & Hs); exists s; (split; [done|by apply Hsame]). }
  set (X := py_set_of_str (join smiles') ∪ list_to_set extra_chars).
  assert (Hperm : chars (join (@set_iter O1 X)) ≡ₚ chars (join (@set_iter O2 X))).
  { rewrite !chars_join.
    by rewrite (@set_iter_perm O1 X), (@set_iter_perm O2 X). }
  unfold fit. rewrite Hset, Hmax. fold X.
  destruct (py_max (len <$> smiles')) as [m|e];
    cbn [fst snd pad set_pad set_charset charset _charset _charlen].
  - split; [done|]. split; [done|]. split; [done|].
    rewrite <- !length_chars. by rewrite Hperm.
  - split; [done|]. split; [done|]. split; [done|].
    rewrite <- !length_chars. by rewrite Hperm.
Qed.

Lemma fit_depends_on_the_set_of_strings_witness :
  (@fit elements_order (SmilesEnumerator_init "@" 120 true true true false)
     ["CCO"; "CN"] [backslash] 5).2
  = (@fit reversed_order (SmilesEnumerator_init "@" 120 true true true false)
       ["CN"; "CCO"; "CN"; "CN"] [backslash] 5).2 ∧
  pad (@fit elements_order (SmilesEnumerator_init "@" 120 true true true false)
         ["CCO"; "CN"] [backslash] 5).1
  = pad (@fit reversed_order (SmilesEnumerator_init "@" 120 true true true false)
           ["CN"; "CCO"; "CN"; "CN"] [backslash] 5).1 ∧
  chars (charset (@fit elements_order
                    (SmilesEnumerator_init "@" 120 true true true false)
                    ["CCO"; "CN"] [backslash] 5).1)
  ≡ₚ chars (charset (@fit reversed_order
                       (SmilesEnumerator_init "@" 120 true true true false)
                       ["CN"; "CCO"; "CN"; "CN"] [backslash] 5).1) ∧
  _charlen (@fit elements_order
              (SmilesEnumerator_init "@" 120 true true true false)
              ["CCO"; "CN"] [backslash] 5).1
  = _charlen (@fit reversed_order
                (SmilesEnumerator_init "@" 120 true true true false)
                ["CN"; "CCO"; "CN"; "CN"] [backslash] 5).1.
Proof.
  apply (fit_depends_on_the_set_of_strings elements_order reversed_order
           (SmilesEnumerator_init "@" 120 true true true false)
           ["CCO"; "CN"] ["CN"; "CCO"; "CN"; "CN"] [backslash] 5).
  intros s. rewrite !elem_of_cons, !elem_of_nil. tauto.
Defined.

(** The two character sets of that run hold the same characters in
    opposite orders. *)
Example fit_two_orders_run :
  charset (@fit reversed_order
             (SmilesEnumerator_init "@" 120 true true true false)
             ["CN"; "CCO"; "CN"; "CN"] [backslash] 5).1
  = String.rev
      (charset (@fit elements_order
                  (SmilesEnumerator_init "@" 120 true true true false)
                  ["CCO"; "CN"] [backslash] 5).1) ∧
  charset (@fit reversed_order
             (SmilesEnumerator_init "@" 120 true true true false)
             ["CN"; "CCO"; "CN"; "CN"] [backslash] 5).1
  ≠ charset (@fit elements_order
               (SmilesEnumerator_init "@" 120 true true true false)
               ["CCO"; "CN"] [backslash] 5).1.
Proof. split; vm_compute; [reflexivity|discriminate]. Qed.

(** ** The pairing routines without enumeration *)

Lemma length_np_repeat {A : Type} (a : list A) (k : nat) :
  length (np_repeat a k) = (k * length a)%nat.
Proof.
  unfold np_repeat. induction a as [|v a IH]; cbn [mbind list_bind]; [simpl; lia|].
  change (length (replicate k v ++ (a ≫= replicate k))
          = (k * length (v :: a))%nat).
  rewrite length_app, length_replicate, IH. simpl. lia.
Qed.

Section Plain.
Context `{NumpyRandom} `{!ChemToolkit} `{PySetOrder}.

(** The codec [fit] leaves on a non-empty pool, as a constructor call: its
    character set is not empty, and every string of the pool fits. *)
Lemma fit_as_init (self : SmilesEnumerator) (smiles : list string) :
  smiles ≠ [] →
  ∃ cs p,
    fit self smiles [backslash] 5
    = (SmilesEnumerator_init cs p (leftpad self) (isomericSmiles self)
         (enumerate self) (canonical self), Ok ()) ∧
    cs ≠ "" ∧ 0 ≤ p ∧
    Forall (λ s, (∀ c, c ∈ chars s → c ∈ chars cs) ∧ len s ≤ p) smiles.
Proof.
  intros Hne.
  destruct (fit_charset_spec self smiles [backslash] 5 ltac:(by repeat constructor))
    as [Hmem _].
  destruct (fit_pad_spec self smiles [backslash] 5 Hne)
    as (s & Hs & Hmax & _ & Hpad).
  assert (Hfit : ∃ cs p, fit self smiles [backslash] 5
    = (SmilesEnumerator_init cs p (leftpad self) (isomericSmiles self)
         (enumerate self) (canonical self), Ok ())).
  { unfold fit. destruct smiles as [|s0 rest]; [done|].
    cbn [fmap list_fmap py_max]. by eexists _, _. }
  destruct Hfit as (cs & p & Hfit). exists cs, p. split; [done|].
  rewrite Hfit in Hmem, Hpad.
  cbn [fst SmilesEnumerator_init set_charset charset _charset pad] in Hmem, Hpad.
  subst p. split; [|split].
  - intros ->. specialize (Hmem (ascii_of_nat 92)).
    eapply elem_of_nil. apply Hmem. right. by left.
  - unfold len. lia.
  - apply Forall_forall. intros s' Hs'. split.
    + intros c Hc. apply Hmem. left. by exists s'.
    + specialize (Hmax s' Hs'). lia.
Qed.

End Plain.

(** X15. With enumeration off and [random_pairs] off, both pairing
    routines return the pool itself. For a non-empty column and a
    replication count above zero, [enumerate_smiles] returns the
    replicated column twice, as the transformed and as the original
    strings, with every flag 1, and [enumerate_smiles_hard_neg] returns a
    table whose [sent1] and [sent0] are both the replicated column and
    whose [hard_neg] is [-1] on every row; each has
    [replication_count * len(column)] rows, the generator is not drawn
    from, and the object is left as [fit] on the pool leaves it. *)
Theorem pairing_without_enumeration_returns_pool
    `{NumpyRandom} `{!ChemToolkit} `{PySetOrder}
    (fuel : nat) (self : SmilesEnumerator) (column : list string)
    (replication_count : nat) (rand_proba : Q) (g : RandomState) :
  column ≠ [] → replication_count ≠ 0%nat → enumerate self = false →
  enumerate_smiles self column replication_count false rand_proba g
  = Ok (np_repeat column replication_count,
        np_repeat column replication_count,
        replicate (replication_count * length column) 1,
        (fit self (np_repeat column replication_count) [backslash] 5).1, g) ∧
  enumerate_smiles_hard_neg fuel self column replication_count false rand_proba g
  = Some (Ok ({| sent1 := np_repeat column replication_count;
                 sent0 := np_repeat column replication_count;
                 hard_neg := replicate (replication_count * length column)
                               (CInt (-1)) |},
              (fit self (np_repeat column replication_count) [backslash] 5).1, g)).
Proof.
  intros Hcol Hk Henum.
  pose proof (np_repeat_nonempty column replication_count Hcol Hk) as Hne.
  pose proof (length_np_repeat column replication_count) as Hlen.
  set (smiles := np_repeat column replication_count) in *.
  destruct (fit_as_init self smiles Hne) as (cs & p & Hfit & Hcs & Hp & Hall).
  rewrite Henum in Hfit.
  destruct (transform_loop_fits cs p (leftpad self) (isomericSmiles self)
              (canonical self) smiles g Hcs Hall) as (ms & Hloop & Hdec).
  set (codec := SmilesEnumerator_init cs p (leftpad self) (isomericSmiles self)
                  false (canonical self)) in *.
  assert (Htr : transform codec smiles g
                = Ok ({| shape := (length smiles, Z.to_nat p, String.length cs);
                         rows := ms |}, 0, g)).
  { unfold transform. change (pad codec) with p.
    destruct (Z.ltb_spec p 0); [lia|]. rewrite Hloop. done. }
  assert (Hrev : reverse_transform codec
                   {| shape := (length smiles, Z.to_nat p, String.length cs);
                      rows := ms |} = Ok smiles).
  { unfold reverse_transform. cbn [shape rows snd].
    change (_int_to_char codec) with (int_to_char_of (chars cs)).
    by rewrite <- length_chars. }
  unfold enumerate_smiles, enumerate_smiles_hard_neg. fold smiles.
  rewrite Hfit. cbn [obind fst]. rewrite Htr. cbn [obind].
  rewrite Hrev. cbn [obind]. by rewrite Hlen.
Qed.

Lemma pairing_without_enumeration_returns_pool_witness :
  @enumerate_smiles lcg_random identity_toolkit elements_order
    (SmilesEnumerator_init "@C" 120 true true false false)
    ["CCO"; "CN"] 2 false 0 7
  = Ok (np_repeat ["CCO"; "CN"] 2, np_repeat ["CCO"; "CN"] 2,
        replicate (2 * length ["CCO"; "CN"]) 1,
        (@fit elements_order (SmilesEnumerator_init "@C" 120 true true false false)
           (np_repeat ["CCO"; "CN"] 2) [backslash] 5).1, 7) ∧
  @enumerate_smiles_hard_neg lcg_random identity_toolkit elements_order 0
    (SmilesEnumerator_init "@C" 120 true true false false)
    ["CCO"; "CN"] 2 false 0 7
  = Some (Ok ({| sent1 := np_repeat ["CCO"; "CN"] 2;
                 sent0 := np_repeat ["CCO"; "CN"] 2;
                 hard_neg := replicate (2 * length ["CCO"; "CN"]) (CInt (-1)) |},
              (@fit elements_order
                 (SmilesEnumerator_init "@C" 120 true true false false)
                 (np_repeat ["CCO"; "CN"] 2) [backslash] 5).1, 7)).
Proof.
  apply (@pairing_without_enumeration_returns_pool
           lcg_random identity_toolkit elements_order 0
           (SmilesEnumerator_init "@C" 120 true true false false)
           ["CCO"; "CN"] 2 0 7).
  - discriminate.
  - discriminate.
  - reflexivity.
Defined.

(** X16. An empty pool. When the column is empty or the replication count
    is zero, both pairing routines end with [ValueError], raised by [max]
    inside [fit]: nothing is encoded and no table is returned, whatever
    [random_pairs] and [rand_proba] are. *)
Theorem pairing_on_empty_pool_raises
    `{NumpyRandom} `{!ChemToolkit} `{PySetOrder}
    (fuel : nat) (self : SmilesEnumerator) (column : list string)
    (replication_count : nat) (random_pairs : bool) (rand_proba : Q)
    (g : RandomState) :
  column = [] ∨ replication_count = 0%nat →
  enumerate_smiles self column replication_count random_pairs rand_proba g
  = Raise ValueError ∧
  enumerate_smiles_hard_neg fuel self column replication_count random_pairs
    rand_proba g = Some (Raise ValueError).
Proof.
  intros Hempty.
  assert (Hnil : np_repeat column replication_count = []).
  { destruct (np_repeat column replication_count) as [|s l] eqn:Hr; [done|].
    assert (Hin : s ∈ np_repeat column replication_count)
      by (rewrite Hr; by left).
    apply np_repeat_elem in Hin as [Hin Hk].
    destruct Hempty as [-> | ->]; [by apply elem_of_nil in Hin|done]. }
  unfold enumerate_smiles, enumerate_smiles_hard_neg. rewrite Hnil.
  unfold fit. cbn [fmap list_fmap py_max obind]. done.
Qed.

Lemma pairing_on_empty_pool_raises_witness :
  @enumerate_smiles lcg_random identity_toolkit elements_order
    (SmilesEnumerator_init "@C" 120 true true true false)
    ["CCO"; "CN"] 0 true (1 # 2) 7 = Raise ValueError ∧
  @enumerate_smiles_hard_neg lcg_random identity_toolkit elements_order 3
    (SmilesEnumerator_init "@C" 120 true true true false)
    ["CCO"; "CN"] 0 true (1 # 2) 7 = Some (Raise ValueError).
Proof.
  apply (@pairing_on_empty_pool_raises lcg_random identity_toolkit elements_order
           3 (SmilesEnumerator_init "@C" 120 true true true false)
           ["CCO"; "CN"] 0 true (1 # 2) 7).
  right. reflexivity.
Defined.

(** ** A batch of the iterator *)

Lemma py_slice_single {A : Type} (a : list A) (j : Z) (v : A) :
  0 ≤ j → a !! Z.to_nat j = Some v → py_slice a j (j + 1) = [v].
Proof.
  intros Hj Hv. pose proof (lookup_lt_Some _ _ _ Hv) as Hlt.
  rewrite py_slice_take_drop by lia.
  rewrite (drop_S _ _ _ Hv). by replace (Z.to_nat (j + 1 - j)) with 1%nat by lia.
Qed.

Lemma np_take_lookups {A : Type} (a : list A) (idx : list Z) (vs : list A) :
  Forall2 (λ j v, 0 ≤ j ∧ a !! Z.to_nat j = Some v) idx vs →
  np_take a idx = Ok vs.
Proof.
  intros Hall. unfold np_take. set (f := λ i : Z, _).
  induction Hall as [|j v idx vs [Hj Hv] _ IH]; [done|].
  cbn [omapM]. pose proof (lookup_lt_Some _ _ _ Hv) as Hlt.
  assert (Hf : f j = Ok v).
  { unfold f, np_index. rewrite bool_decide_eq_true_2 by lia.
    cbn [mbind option_bind]. by rewrite Hv. }
  rewrite Hf. cbn [obind]. by rewrite IH.
Qed.

Section Batch.
Context `{NumpyRandom} `{!ChemToolkit} {L : Type}.

Lemma transform_loop_length (self : SmilesEnumerator) (smiles : list string) :
  ∀ g ms errors g',
  transform_loop self smiles g = Ok (ms, errors, g') →
  length ms = length smiles.
Proof.
  induction smiles as [|s smiles IH]; intros g ms errors g'; cbn [transform_loop].
  - by intros [= <- _ _].
  - destruct (transform_one self s g) as [[[m e] g1]|err]; [|discriminate].
    cbn [obind].
    destruct (transform_loop self smiles g1) as [[[ms' e'] g2]|err] eqn:Hloop;
      [|discriminate].
    cbn [obind]. intros [= <- _ _]. simpl. by rewrite (IH _ _ _ _ Hloop).
Qed.

(** The loop of [next] encodes the strings at the positions of the window,
    one call of [transform] each, as one call on all of them would. *)
Lemma fill_batch_transform_loop (self : SmilesIterator L) (idxs : list Z)
    (strs : list string) :
  0 ≤ pad (smiles_data_generator self) →
  Forall2 (λ j s, 0 ≤ j ∧ x self !! Z.to_nat j = Some s) idxs strs →
  ∀ g,
  fill_batch self idxs g
  = ('(ms, _, g') ←! transform_loop (smiles_data_generator self) strs g;
     Ok (ms, g')).
Proof.
  intros Hp. induction 1 as [|j s idxs strs [Hj Hs] _ IH]; intros g; [done|].
  cbn [fill_batch]. rewrite (py_slice_single _ _ _ Hj Hs).
  unfold transform. destruct (Z.ltb_spec (pad (smiles_data_generator self)) 0);
    [lia|].
  cbn [transform_loop].
  destruct (transform_one (smiles_data_generator self) s g)
    as [[[m e] g1]|err]; [|done].
  cbn [obind rows]. rewrite IH.
  by destruct (transform_loop (smiles_data_generator self) strs g1)
    as [[[ms e'] g2]|err].
Qed.

End Batch.

(** X17. What [next] returns. When the pull of the base iterator yields a
    window of positions that lie in the data, with [pad ≥ 0], the batch is
    what one call of [transform] on the strings at those positions returns,
    in the order of the window, with shape
    [(current_batch_size, pad, len(charset))]; the labels, when there are
    labels, are those at the same positions in the same order; and an
    error [transform] raises is the error of [next]. *)
Theorem next_is_transform_of_window `{NumpyRandom} `{!ChemToolkit} {L : Type}
    (self : SmilesIterator L) (g g1 : RandomState) (idxs : list Z) (cur : Z)
    (it : Iterator) (strs : list string) (labs : option (list L)) :
  0 ≤ pad (smiles_data_generator self) →
  flow_index_next (base self) g
  = Ok ((idxs, cur, Z.of_nat (length idxs)), it, g1) →
  Forall2 (λ j s, 0 ≤ j ∧ x self !! Z.to_nat j = Some s) idxs strs →
  option_Forall2
    (λ labels ls, Forall2 (λ j l, 0 ≤ j ∧ labels !! Z.to_nat j = Some l) idxs ls)
    (y self) labs →
  SmilesIterator_next self g
  = ('(v, _, g2) ←! transform (smiles_data_generator self) strs g1;
     Ok (v, labs,
         {| base := it; x := x self; y := y self;
            smiles_data_generator := smiles_data_generator self |}, g2)).
Proof.
  intros Hp Hflow Hstrs Hlabs. unfold SmilesIterator_next.
  rewrite Hflow. cbn [obind].
  destruct (Z.ltb_spec (Z.of_nat (length idxs)) 0); [lia|].
  destruct (Z.ltb_spec (pad (smiles_data_generator self)) 0) as [|_]; [lia|].
  cbn [orb]. rewrite (fill_batch_transform_loop self idxs strs Hp Hstrs).
  unfold transform.
  destruct (Z.ltb_spec (pad (smiles_data_generator self)) 0) as [|_]; [lia|].
  destruct (transform_loop (smiles_data_generator self) strs g1)
    as [[[ms e] g2]|err] eqn:Hloop; [|done].
  cbn [obind]. apply transform_loop_length in Hloop.
  pose proof (Forall2_length _ _ _ Hstrs) as Hlen.
  rewrite Nat2Z.id.
  destruct (Nat.ltb_spec (length idxs) (length ms)); [lia|].
  replace (length idxs - length ms)%nat with 0%nat by lia.
  cbn [replicate]. rewrite app_nil_r, Hlen.
  destruct Hlabs as [labels ls Hls|]; [|done].
  by rewrite (np_take_lookups _ _ _ Hls).
Qed.

Lemma next_is_transform_of_window_witness :
  @SmilesIterator_next lcg_random identity_toolkit Z
    {| base := {| n := 3; batch_size := 2; shuffle := false; seed := None;
                  batch_index := 1; total_batches_seen := 1; started := true;
                  index_array := [0; 1; 2] |};
       x := ["CCO"; "CN"; "OCx"]; y := Some [10; 20; 30];
       smiles_data_generator :=
         SmilesEnumerator_init "CON" 4 true true false false |} 5
  = ('(v, _, g2) ←!
       @transform lcg_random identity_toolkit
         (SmilesEnumerator_init "CON" 4 true true false false) ["OCx"] 5;
     Ok (v, Some [30],
         {| base := {| n := 3; batch_size := 2; shuffle := false; seed := None;
                       batch_index := 0; total_batches_seen := 2;
                       started := true; index_array := [0; 1; 2] |};
            x := ["CCO"; "CN"; "OCx"]; y := Some [10; 20; 30];
            smiles_data_generator :=
              SmilesEnumerator_init "CON" 4 true true false false |}, g2)).
Proof.
  apply (@next_is_transform_of_window lcg_random identity_toolkit Z
           {| base := {| n := 3; batch_size := 2; shuffle := false; seed := None;
                         batch_index := 1; total_batches_seen := 1;
                         started := true; index_array := [0; 1; 2] |};
              x := ["CCO"; "CN"; "OCx"]; y := Some [10; 20; 30];
              smiles_data_generator :=
                SmilesEnumerator_init "CON" 4 true true false false |}
           5 5 [2] 2
           {| n := 3; batch_size := 2; shuffle := false; seed := None;
              batch_index := 0; total_batches_seen := 2;
              started := true; index_array := [0; 1; 2] |}
           ["OCx"] (Some [30])).
  - vm_compute. discriminate.
  - reflexivity.
  - repeat constructor. lia.
  - repeat constructor. lia.
Defined.

(** ** [enumerate_smiles] returns *)

(** X18. On a non-empty column with a replication count above zero, and
    with enumeration off or a toolkit that accepts every string,
    [enumerate_smiles] returns, with [random_pairs] on or off and for any
    [rand_proba]: the originals are the replicated column, the transformed
    strings and the flags have [replication_count * len(column)] items
    each, every flag is 0 or 1, and with [random_pairs] off every flag
    is 1. *)
Theorem enumerate_smiles_returns `{NumpyRandom} `{!ChemToolkit} `{PySetOrder}
    (self : SmilesEnumerator) (column : list string) (replication_count : nat)
    (random_pairs : bool) (rand_proba : Q) (g : RandomState) :
  column ≠ [] → replication_count ≠ 0%nat →
  (enumerate self = false ∨
   ∀ can iso s g, is_Some (rdkit_randomize can iso s g)) →
  ∃ tr fl self' g',
    enumerate_smiles self column replication_count random_pairs rand_proba g
    = Ok (tr, np_repeat column replication_count, fl, self', g') ∧
    length tr = (replication_count * length column)%nat ∧
    length fl = (replication_count * length column)%nat ∧
    Forall (λ z, z = 0 ∨ z = 1) fl ∧
    (random_pairs = false → Forall (λ z, z = 1) fl).
Proof.
  intros Hcol Hk Htool.
  pose proof (np_repeat_nonempty column replication_count Hcol Hk) as Hne.
  pose proof (length_np_repeat column replication_count) as Hpool.
  set (pool := np_repeat column replication_count) in *.
  destruct (fit_transform_decode_total self pool g Hne Htool)
    as (self' & v & errors & g' & decoded & Hfit & Htr & Hrev & Hlen).
  unfold enumerate_smiles. fold pool. rewrite Hfit. cbn [obind].
  rewrite Htr. cbn [obind]. rewrite Hrev. cbn [obind].
  destruct random_pairs.
  - rewrite Hlen, Nat.eqb_refl. cbn [negb].
    destruct (random_pairs_loop_spec pool (str_width decoded) rand_proba
                (length pool) 0 decoded (replicate (length pool) 1) g')
      as (tr' & fl' & Hloop & Hlt & Hlf & _ & Hrows).
    { by right. }
    { simpl. lia. }
    { rewrite length_replicate. simpl. lia. }
    rewrite Hloop. cbn [obind]. rewrite length_replicate in Hlf.
    exists tr', fl', self', (row_state pool rand_proba (length pool) g').
    split; [done|]. split; [lia|]. split; [lia|]. split; [|done].
    apply Forall_lookup. intros i z Hz.
    pose proof (lookup_lt_Some _ _ _ Hz) as Hi. rewrite Hlf in Hi.
    specialize (Hrows i Hi). cbn [Nat.add] in Hrows.
    destruct (Qgtb _ rand_proba).
    + destruct Hrows as [_ Hfl]. rewrite Hz in Hfl.
      symmetry in Hfl. apply lookup_replicate in Hfl as [-> _]. by right.
    + destruct Hrows as (x & _ & _ & Hfl). rewrite Hz in Hfl.
      injection Hfl as ->. by left.
  - exists decoded, (replicate (length pool) 1), self', g'.
    split; [done|]. split; [lia|]. split; [rewrite length_replicate; lia|].
    split; [apply Forall_replicate; by right|].
    intros _. by apply Forall_replicate.
Qed.

Lemma enumerate_smiles_returns_witness :
  ∃ tr fl self' g',
    @enumerate_smiles lcg_random identity_toolkit elements_order
      (SmilesEnumerator_init "@C" 120 true true true false)
      ["CCO"; "CN"; "OCC"] 2 true (1 # 2) 7
    = Ok (tr, np_repeat ["CCO"; "CN"; "OCC"] 2, fl, self', g') ∧
    length tr = (2 * length ["CCO"; "CN"; "OCC"])%nat ∧
    length fl = (2 * length ["CCO"; "CN"; "OCC"])%nat ∧
    Forall (λ z, z = 0 ∨ z = 1) fl ∧
    (true = false → Forall (λ z, z = 1) fl).
Proof.
  apply (@enumerate_smiles_returns lcg_random identity_toolkit elements_order
           (SmilesEnumerator_init "@C" 120 true true true false)
           ["CCO"; "CN"; "OCC"] 2 true (1 # 2) 7).
  - discriminate.
  - discriminate.
  - right. intros can iso s g. by eexists.
Defined.

(** ** A batch size that is not positive *)

Section NoWrap.
Context `{NumpyRandom}.

Lemma unwrapped_step (N B : Z) (sh : bool) (sd : option Z) (t : Z)
    (self : Iterator) (g : RandomState) :
  0 < N → B ≤ 0 → 0 ≤ t →
  (∀ s, sd = Some s → is_Some (np_seed (s + t))) →
  unwrapped_state N B sh sd t self →
  ∃ w self' g',
    flow_index_next self g = Ok (w, self', g') ∧
    current_batch_size w = B ∧ (B = 0 → indices w = []) ∧
    unwrapped_state N B sh sd (t + 1) self'.
Proof.
  intros HN HB Ht Hsd (Hn & Hb & Hsh & Hseed & Hbi & Htot & Hst).
  assert (Hself : (if started self then self else reset self) = self).
  { destruct (started self) eqn:Hs; [done|].
    apply reset_at_zero. rewrite Hbi. by apply Hst. }
  unfold flow_index_next. rewrite Hself.
  assert (Hre : ∃ g1, reseed self g = Ok g1).
  { unfold reseed. rewrite Hseed, Htot. destruct sd as [s|]; [|eauto].
    destruct (Hsd s eq_refl) as [g1 ->]. eauto. }
  destruct Hre as [g1 ->]. cbn [obind].
  destruct (if batch_index self =? 0
            then if shuffle self then np_permutation (n self) g1
                 else (np_arange (n self), g1)
            else (index_array self, g1)) as [arr g2].
  rewrite Hn, Hb, Hbi, Hsh, Hseed, Htot.
  destruct (Z.eqb_spec N 0); [lia|].
  pose proof (Z.mod_pos_bound (t * B) N HN) as Hcur.
  destruct (Z.gtb_spec N ((t * B) `mod` N + B)); [|lia].
  eexists _, _, _. split; [done|]. split; [done|]. split.
  - intros ->. unfold indices. cbn [fst]. unfold py_slice.
    rewrite Z.add_0_r, Z.sub_diag. by rewrite take_0.
  - repeat split; done.
Qed.

Lemma unwrapped_pulls (N B : Z) (sh : bool) (sd : option Z)
    (gs : list RandomState) :
  ∀ (t : Z) (self : Iterator),
  0 < N → B ≤ 0 → 0 ≤ t →
  (∀ s m, sd = Some s → t ≤ m < t + Z.of_nat (length gs) →
          is_Some (np_seed (s + m))) →
  unwrapped_state N B sh sd t self →
  ∃ ws self',
    pulls self gs = Ok (ws, self') ∧ length ws = length gs ∧
    Forall (λ w, current_batch_size w = B ∧ (B = 0 → indices w = [])) ws ∧
    unwrapped_state N B sh sd (t + Z.of_nat (length gs)) self'.
Proof.
  induction gs as [|g gs IH]; intros t self HN HB Ht Hsd Hst.
  - exists [], self. split; [done|]. split; [done|]. split; [done|].
    by rewrite Z.add_0_r.
  - destruct (unwrapped_step N B sh sd t self g HN HB Ht
                ltac:(intros s Hs; apply (Hsd s t Hs); cbn [length]; lia) Hst)
      as (w & self1 & g1 & Hstep & Hcbs & Hidx & Hst1).
    destruct (IH (t + 1) self1 HN HB ltac:(lia)) as (ws & self2 & Hp & Hlen & Hall & Hst2).
    + intros s m Hs Hm. apply (Hsd s m Hs). cbn [length]. lia.
    + exact Hst1.
    + exists (w :: ws), self2. cbn [pulls]. rewrite Hstep. cbn [obind].
      rewrite Hp. cbn [obind]. split; [done|]. split; [simpl; lia|].
      split; [by constructor|].
      replace (t + Z.of_nat (length (g :: gs)))
        with (t + 1 + Z.of_nat (length gs)) by (cbn [length]; lia).
      exact Hst2.
Qed.

End NoWrap.

(** X19. [batch_size] is only checked against [n]. With [n > 0] and
    [batch_size ≤ 0] the iterator is constructed, and its pulls never end
    an epoch: every pull reports [current_batch_size = batch_size] and
    adds one to [batch_index], which is never set back to 0, so the index
    array is computed once and never again; with [batch_size = 0] every
    window is empty. *)
Theorem nonpositive_batch_size_never_wraps `{NumpyRandom} (N B : Z) (sh : bool)
    (sd : option Z) (gs : list RandomState) :
  0 < N → B ≤ 0 →
  (∀ s m, sd = Some s → 0 ≤ m < Z.of_nat (length gs) →
          is_Some (np_seed (s + m))) →
  ∃ fresh ws self',
    Iterator_init N B sh sd = Ok fresh ∧
    pulls fresh gs = Ok (ws, self') ∧
    length ws = length gs ∧
    Forall (λ w, current_batch_size w = B ∧ (B = 0 → indices w = [])) ws ∧
    batch_index self' = Z.of_nat (length gs) ∧
    total_batches_seen self' = Z.of_nat (length gs).
Proof.
  intros HN HB Hsd.
  set (fresh := {| n := N; batch_size := B; shuffle := sh; seed := sd;
                   batch_index := 0; total_batches_seen := 0;
                   started := false; index_array := [] |}).
  destruct (unwrapped_pulls N B sh sd gs 0 fresh HN HB ltac:(lia))
    as (ws & self' & Hp & Hlen & Hall & Hst).
  { intros s m Hs Hm. apply (Hsd s m Hs). lia. }
  { by repeat split. }
  exists fresh, ws, self'. split.
  { unfold Iterator_init. destruct (Z.ltb_spec N B); [lia|done]. }
  destruct Hst as (_ & _ & _ & _ & Hbi & Htot & _).
  repeat split; try done; lia.
Qed.

Lemma nonpositive_batch_size_never_wraps_witness :
  ∃ fresh ws self',
    Iterator_init 5 0 true (Some 7) = Ok fresh ∧
    @pulls lcg_random fresh [0; 1; 2; 3; 4; 5; 6] = Ok (ws, self') ∧
    length ws = 7%nat ∧
    Forall (λ w, current_batch_size w = 0 ∧ (0 = 0 → indices w = [])) ws ∧
    batch_index self' = 7 ∧
    total_batches_seen self' = 7.
Proof.
  apply (@nonpositive_batch_size_never_wraps lcg_random 5 0 true (Some 7)
           [0; 1; 2; 3; 4; 5; 6]).
  - lia.
  - lia.
  - intros s m [= <-] Hm. cbn [length] in Hm.
    change (is_Some (lcg_seed (7 + m))). unfold lcg_seed.
    rewrite bool_decide_eq_true_2 by lia. by eexists.
Defined.
